(** * dashboard-commerce: variant generator, slugs, listing pages, draft orders

    A shallow embedding of the client-side logic of the admin dashboard:
    the product-creation form (slug generation and the variant combination
    generator), the attribute-creation form (code generation), the paginated
    listing pages (products, orders, attributes) and the order-creation page.

    Conventions.
    - A JavaScript string is a [string]; a character is one code unit, read
      as a Latin-1 code point (U+0000..U+00FF), on which [toLowerCase], [\s]
      and [trim] are modelled exactly.  ASCII literals mean themselves.
    - A JavaScript number holding a count, an index, an offset or a price is
      a [Z]; the products of page indices and page sizes are far below 2^53,
      where the arithmetic of JavaScript numbers is that of the integers.
    - The [ref]s of a page are the fields of a record.  A handler is a
      function from the replies of the API client and the page state to the
      next state and the list of what the handler did (requests sent, toasts
      shown, navigation), in order.  A handler runs to completion: awaiting
      a call of the API client is asking [Apollo] for its reply.

    The file has three parts: the embedding of the code, the statements
    (predicates and sample inputs), and the properties with their proofs. *)

From Stdlib Require Import List String Ascii Bool ZArith Lia Arith.
From Stdlib Require Import DecimalString.
Import ListNotations.

Local Open Scope string_scope.
Local Open Scope list_scope.

(** ** JavaScript values used by the pages *)

Module Js.

(** Truthiness of a string: every string but the empty one. *)
Definition truthy (s : string) : bool :=
  match s with
  | EmptyString => false
  | String _ _ => true
  end.

(** [a || b] on strings. *)
Definition or_else (a b : string) : string :=
  if truthy a then a else b.

(** [Array.prototype.join]. *)
Definition join (sep : string) (xs : list string) : string :=
  String.concat sep xs.

(** [Array.prototype.find]. *)
Definition find {A} (p : A -> bool) (xs : list A) : option A :=
  List.find p xs.

(** [Array.prototype.some]. *)
Definition some {A} (p : A -> bool) (xs : list A) : bool :=
  existsb p xs.

(** *** Characters *)

Definition codeOf (c : ascii) : nat := nat_of_ascii c.

Definition between (lo hi n : nat) : bool := (lo <=? n)%nat && (n <=? hi)%nat.

(** [a-z] *)
Definition isLower (c : ascii) : bool := between 97 122 (codeOf c).

(** [0-9] *)
Definition isDigit (c : ascii) : bool := between 48 57 (codeOf c).

(** [-] *)
Definition isHyphen (c : ascii) : bool := (codeOf c =? 45)%nat.

(** [\s]: the WhiteSpace and LineTerminator code points below U+0100, that
    is TAB, LF, VT, FF, CR, SPACE and NO-BREAK SPACE. *)
Definition isSpace (c : ascii) : bool :=
  between 9 13 (codeOf c) || (codeOf c =? 32)%nat || (codeOf c =? 160)%nat.

(** The upper-case letters of Latin-1: A-Z, and U+00C0..U+00DE but U+00D7. *)
Definition isUpper (c : ascii) : bool :=
  between 65 90 (codeOf c)
  || (between 192 222 (codeOf c) && negb (codeOf c =? 215)%nat).

Definition toLowerChar (c : ascii) : ascii :=
  if isUpper c then ascii_of_nat (codeOf c + 32) else c.

(** *** String methods, on the list of code units *)

(** [String.prototype.toLowerCase] *)
Definition toLowerCaseL (s : list ascii) : list ascii := map toLowerChar s.

(** [s.replace(/[^...]/g, "")] for a character class [keep]: every character
    outside the class is replaced by the empty string. *)
Definition removeOutsideL (keep : ascii -> bool) (s : list ascii) : list ascii :=
  filter keep s.

(** [s.replace(/[^...]/g, r)] for a one-character replacement [r]. *)
Definition replaceOutsideL (keep : ascii -> bool) (r : ascii) (s : list ascii)
  : list ascii :=
  map (fun c => if keep c then c else r) s.

(** [s.replace(/\s+/g, r)]: every maximal run of white space becomes one [r].
    [inRun] tells that the character before was white space, already
    replaced. *)
Fixpoint replaceSpaceRunsL (inRun : bool) (r : ascii) (s : list ascii)
  : list ascii :=
  match s with
  | [] => []
  | c :: rest =>
      if isSpace c then
        if inRun then replaceSpaceRunsL true r rest
        else r :: replaceSpaceRunsL true r rest
      else c :: replaceSpaceRunsL false r rest
  end.

Fixpoint trimStartL (s : list ascii) : list ascii :=
  match s with
  | [] => []
  | c :: rest => if isSpace c then trimStartL rest else s
  end.

(** [String.prototype.trim] *)
Definition trimL (s : list ascii) : list ascii :=
  rev (trimStartL (rev (trimStartL s))).

(** *** The same methods on strings *)

Definition onChars (f : list ascii -> list ascii) (s : string) : string :=
  string_of_list_ascii (f (list_ascii_of_string s)).

Definition toLowerCase : string -> string := onChars toLowerCaseL.

Definition removeOutside (keep : ascii -> bool) : string -> string :=
  onChars (removeOutsideL keep).

Definition replaceOutside (keep : ascii -> bool) (r : ascii) : string -> string :=
  onChars (replaceOutsideL keep r).

Definition replaceSpaceRuns (r : ascii) : string -> string :=
  onChars (replaceSpaceRunsL false r).

Definition trim : string -> string := onChars trimL.

(** The class of [/[^a-z0-9\s-]/]: what the first replacement keeps. *)
Definition slugKeep (c : ascii) : bool :=
  isLower c || isDigit c || isSpace c || isHyphen c.

(** The class of [/[^a-z0-9]/]. *)
Definition isLowerAlnum (c : ascii) : bool := isLower c || isDigit c.

(** The characters a generated slug is made of: [a-z0-9-]. *)
Definition isSlugChar (c : ascii) : bool :=
  isLower c || isDigit c || isHyphen c.

(** The expression shared, letter for letter, by [generateSlug] (product and
    collection forms) and [generateCode] (attribute form):
    [name.toLowerCase().replace(/[^a-z0-9\s-]/g, "").replace(/\s+/g, "-").trim()] *)
Definition slugOf (name : string) : string :=
  trim (replaceSpaceRuns "-" (removeOutside slugKeep (toLowerCase name))).

End Js.

(** ** Product-creation form: data model *)

Module ProductForm.

(** [Option]: [{id, name, code}]. *)
Record ProductOption := mkOption {
  opt_id : string;
  opt_name : string;
  opt_code : string
}.

(** [OptionGroup]: [{id, name, code, options}]. *)
Record OptionGroup := mkGroup {
  og_id : string;
  og_name : string;
  og_code : string;
  og_options : list ProductOption
}.

(** One entry of a variant's [options]: [{optionGroupId, optionId}]. *)
Record Selection := mkSelection {
  optionGroupId : string;
  optionId : string
}.

(** Variant stub. *)
Record Variant := mkVariant {
  v_name : string;
  v_sku : string;
  v_price : Z;
  v_stockOnHand : Z;
  v_enabled : bool;
  v_options : list Selection
}.

(** The fields of [form.value] that the generator and the slug code touch. *)
Record FormData := mkForm {
  name : string;
  slug : string;
  optionGroups : list OptionGroup;
  variants : list Variant
}.

Definition set_variants (f : FormData) (vs : list Variant) : FormData :=
  mkForm (name f) (slug f) (optionGroups f) vs.

Definition set_slug (f : FormData) (s : string) : FormData :=
  mkForm (name f) s (optionGroups f) (variants f).

(** [(option) => option.name && option.code] *)
Definition validOption (o : ProductOption) : bool :=
  Js.truthy (opt_name o) && Js.truthy (opt_code o).

(** [(group) => group.options.some((option) => option.name && option.code)] *)
Definition hasValidOption (g : OptionGroup) : bool :=
  Js.some validOption (og_options g).

Definition select (g : OptionGroup) (o : ProductOption) : Selection :=
  mkSelection (og_id g) (opt_id o).

(** [generateCombinations(groups)] *)
Fixpoint generateCombinations (groups : list OptionGroup)
  : list (list Selection) :=
  match groups with
  | [] => []
  | firstGroup :: restGroups =>
      match restGroups with
      | [] =>
          map (fun o => [select firstGroup o])
              (filter validOption (og_options firstGroup))
      | _ :: _ =>
          let firstOptions := filter validOption (og_options firstGroup) in
          let restCombinations := generateCombinations restGroups in
          flat_map
            (fun o =>
               map (fun restCombination => select firstGroup o :: restCombination)
                   restCombinations)
            firstOptions
      end
  end.

(** The option a selection refers to, looked up by id in the form's groups:
    [form.value.optionGroups.find(g => g.id === opt.optionGroupId)] then
    [group?.options.find(o => o.id === opt.optionId)]. *)
Definition lookupOption (f : FormData) (s : Selection) : option ProductOption :=
  match Js.find (fun g => og_id g =? optionGroupId s) (optionGroups f) with
  | None => None
  | Some g => Js.find (fun o => opt_id o =? optionId s) (og_options g)
  end.

(** [option?.name || ""] and [option?.code || ""] *)
Definition lookupName (f : FormData) (s : Selection) : string :=
  match lookupOption f s with
  | Some o => Js.or_else (opt_name o) ""
  | None => ""
  end.

Definition lookupCode (f : FormData) (s : Selection) : string :=
  match lookupOption f s with
  | Some o => Js.or_else (opt_code o) ""
  | None => ""
  end.

(** [generateVariantName(options)] *)
Definition generateVariantName (f : FormData) (options : list Selection) : string :=
  let optionNames := filter Js.truthy (map (lookupName f) options) in
  match optionNames with
  | _ :: _ => name f ++ " - " ++ Js.join " / " optionNames
  | [] => Js.or_else (name f) "Variant"
  end.

(** [generateVariantSku(options)] *)
Definition generateVariantSku (f : FormData) (options : list Selection) : string :=
  let optionCodes := filter Js.truthy (map (lookupCode f) options) in
  let baseSlug := Js.or_else (slug f) "product" in
  match optionCodes with
  | _ :: _ => baseSlug ++ "-" ++ Js.join "-" optionCodes
  | [] => baseSlug
  end.

(** The stub built for one combination. *)
Definition variantOf (f : FormData) (combination : list Selection) : Variant :=
  mkVariant (generateVariantName f combination)
            (generateVariantSku f combination)
            0 0 true combination.

(** [generateVariants()]: the next value of [form.value]. *)
Definition generateVariants (f : FormData) : FormData :=
  match optionGroups f with
  | [] =>
      set_variants f
        [ mkVariant (Js.or_else (name f) "Default")
                    (Js.or_else (slug f) "default")
                    0 0 true [] ]
  | _ :: _ =>
      let validGroups := filter hasValidOption (optionGroups f) in
      match validGroups with
      | [] => set_variants f []
      | _ :: _ =>
          let combinations := generateCombinations validGroups in
          set_variants f (map (variantOf f) combinations)
      end
  end.

(** [generateSlug()] *)
Definition generateSlug (f : FormData) : FormData :=
  if Js.truthy (name f) then set_slug f (Js.slugOf (name f)) else f.

(** [handleNameBlur()] *)
Definition handleNameBlur (f : FormData) : FormData :=
  if Js.truthy (name f) && negb (Js.truthy (slug f)) then generateSlug f else f.

End ProductForm.

(** ** Attribute-creation form *)

Module FacetForm.

Record FormData := mkForm {
  name : string;
  code : string;
  isPrivate : bool;
  values : list string
}.

Definition set_code (f : FormData) (c : string) : FormData :=
  mkForm (name f) c (isPrivate f) (values f).

(** [generateCode()] *)
Definition generateCode (f : FormData) : FormData :=
  if Js.truthy (name f) then set_code f (Js.slugOf (name f)) else f.

(** [handleNameBlur()] *)
Definition handleNameBlur (f : FormData) : FormData :=
  if Js.truthy (name f) && negb (Js.truthy (code f)) then generateCode f else f.

(** The code sent for one attribute value on submit:
    [value.toLowerCase().replace(/[^a-z0-9]/g, "-")] *)
Definition valueCode (value : string) : string :=
  Js.replaceOutside Js.isLowerAlnum "-" (Js.toLowerCase value).

End FacetForm.


(** ** What a handler does besides updating its page *)

Module Ui.

(** The argument of [toast.add]. *)
Record Toast := mkToast {
  title : string;
  description : string;
  color : string
}.

(** Outcome of awaiting a call of the API client: the promise is rejected
    with an error carrying [message] (a network error, or errors in the
    GraphQL reply), or it resolves with the [data] of the reply. *)
Inductive Reply (A : Type) : Type :=
| Rejected (message : string)
| Resolved (data : A).

Arguments Rejected {A} message.
Arguments Resolved {A} data.

End Ui.

(** ** Listing pages: products, orders, attributes *)

Module Listing.
Import Ui.

Record Pagination := mkPagination {
  pageIndex : Z;
  pageSize : Z
}.

Inductive QueryDoc := GET_PRODUCTS | GET_ORDERS | GET_FACETS.

(** [variables.options] of a listing query. *)
Record ListOptions := mkListOptions {
  take : Z;
  skip : Z
}.

Inductive Request :=
| QueryReq (query : QueryDoc) (options : ListOptions)
| DeleteProductReq (id : string).

Inductive Effect :=
| Send (r : Request)
| ShowToast (t : Toast).

(** [{ result, message }] of [deleteProduct]. *)
Record DeletionResponse := mkDeletion {
  result : string;
  message : option string
}.

Section WithItem.

Variable Item : Type.

(** [{ items, totalItems }], each possibly absent. *)
Record ListResult := mkListResult {
  items : option (list Item);
  totalItems : option Z
}.

(** [$apollo]: the reply to each request.  The data of a listing query is
    [apolloData?.products] (or [orders], [facets]); the data of the deletion
    is [deleteData?.deleteProduct]. *)
Record Apollo := mkApollo {
  query : QueryDoc -> ListOptions -> Reply (option ListResult);
  mutateDelete : string -> Reply (option DeletionResponse)
}.

(** The refs of a listing page. *)
Record Page := mkPage {
  pagination : Pagination;
  data : list Item;
  total : Z;
  loading : bool;
  error : option string
}.

Definition set_loading (p : Page) (b : bool) : Page :=
  mkPage (pagination p) (data p) (total p) b (error p).

Definition set_error (p : Page) (e : option string) : Page :=
  mkPage (pagination p) (data p) (total p) (loading p) e.

Definition set_result (p : Page) (d : list Item) (n : Z) : Page :=
  mkPage (pagination p) d n (loading p) (error p).

Definition set_pageIndex (p : Page) (i : Z) : Page :=
  mkPage (mkPagination i (pageSize (pagination p))) (data p) (total p)
         (loading p) (error p).

(** The [catch] block of a fetch function, then its [finally]. *)
Definition fetchFailed (failMsg errMessage : string) (p : Page)
  : Page * list Effect :=
  let e := Js.or_else errMessage failMsg in
  (set_loading (set_error p (Some e)) false,
   [ShowToast (mkToast "Error" (Js.or_else e failMsg) "error")]).

(** The body shared by [fetchProducts], [fetchOrders] and [fetchFacets];
    they differ by the query document and by the fallback message. *)
Definition fetchList (doc : QueryDoc) (failMsg : string)
  (apollo : option Apollo) (p : Page) : Page * list Effect :=
  let p1 := set_error (set_loading p true) None in
  match apollo with
  | None => fetchFailed failMsg "Apollo client not available" p1
  | Some client =>
      let options :=
        mkListOptions (pageSize (pagination p1))
                      (pageIndex (pagination p1) * pageSize (pagination p1)) in
      let sent := Send (QueryReq doc options) in
      match query client doc options with
      | Rejected msg =>
          let '(p2, effs) := fetchFailed failMsg msg p1 in (p2, sent :: effs)
      | Resolved apolloData =>
          let its :=
            match apolloData with
            | Some r => match items r with Some l => l | None => [] end
            | None => []
            end in
          let n :=
            match apolloData with
            | Some r => match totalItems r with Some k => k | None => 0%Z end
            | None => 0%Z
            end in
          (set_loading (set_result p1 its n) false, [sent])
      end
  end.

Definition fetchProducts := fetchList GET_PRODUCTS "Failed to fetch products".
Definition fetchOrders := fetchList GET_ORDERS "Failed to fetch orders".
Definition fetchFacets := fetchList GET_FACETS "Failed to fetch attributes".

(** [@update:page="(p) => pagination.pageIndex = p - 1"], followed by the
    watcher on [pagination], which calls the page's fetch function when the
    index has changed. *)
Definition updatePage
  (fetch : option Apollo -> Page -> Page * list Effect)
  (apollo : option Apollo) (shown : Z) (p : Page) : Page * list Effect :=
  if (shown - 1 =? pageIndex (pagination p))%Z then (p, [])
  else fetch apollo (set_pageIndex p (shown - 1)).

Definition deleteFailedToast (errMessage : string) : Toast :=
  mkToast "Error" (Js.or_else errMessage "Failed to delete product") "error".

(** [deleteProduct(productId, productName)] of the products page. *)
Definition deleteProduct (productId productName : string)
  (apollo : option Apollo) (p : Page) : Page * list Effect :=
  match apollo with
  | None => (p, [ShowToast (deleteFailedToast "Apollo client not available")])
  | Some client =>
      let sent := Send (DeleteProductReq productId) in
      match mutateDelete client productId with
      | Rejected msg => (p, [sent; ShowToast (deleteFailedToast msg)])
      | Resolved deleteData =>
          let deleted :=
            match deleteData with
            | Some r => result r =? "DELETED"
            | None => false
            end in
          if deleted then
            let '(p1, effs) := fetchProducts apollo p in
            (p1,
             sent
             :: ShowToast (mkToast "Product deleted"
                  (productName ++ " has been deleted successfully.") "success")
             :: effs)
          else
            let msg :=
              match deleteData with
              | Some r =>
                  match message r with
                  | Some m => Js.or_else m "Failed to delete product"
                  | None => "Failed to delete product"
                  end
              | None => "Failed to delete product"
              end in
            (p, [sent; ShowToast (deleteFailedToast msg)])
      end
  end.

End WithItem.

Arguments items {Item} _.
Arguments totalItems {Item} _.
Arguments query {Item} _ _ _.
Arguments mutateDelete {Item} _ _.
Arguments pagination {Item} _.
Arguments data {Item} _.
Arguments total {Item} _.
Arguments loading {Item} _.
Arguments error {Item} _.
Arguments set_pageIndex {Item} _ _.
Arguments fetchList {Item} _ _ _ _.
Arguments fetchProducts {Item} _ _.
Arguments fetchOrders {Item} _ _.
Arguments fetchFacets {Item} _ _.
Arguments updatePage {Item} _ _ _ _.
Arguments deleteProduct {Item} _ _ _ _.

End Listing.

(** ** Order-creation page *)

Module OrderCreate.
Import Ui.

Record ProductVariantRef := mkVariantRef {
  pv_id : string
}.

(** An order line as the page reads it: [line.id], [line.productVariant?.id]. *)
Record OrderLine := mkLine {
  line_id : string;
  productVariant : option ProductVariantRef
}.

(** The address fields the page reads from [shippingAddress]; each may be
    null in the reply. *)
Record OrderAddress := mkOrderAddress {
  a_fullName : option string;
  a_company : option string;
  a_streetLine1 : option string;
  a_streetLine2 : option string;
  a_city : option string;
  a_province : option string;
  a_postalCode : option string;
  a_countryCode : option string;
  a_phoneNumber : option string
}.

(** The order aggregate, as far as the script reads it. *)
Record Order := mkOrder {
  o_id : string;
  o_code : string;
  o_lines : option (list OrderLine);
  o_shippingAddress : option OrderAddress
}.

(** What the field of a mutation reply holds: the order, or a typed error
    result, an object with none of the order's fields. *)
Inductive Payload :=
| IsOrder (o : Order)
| ErrorResult (errorCode message : string).

Record CustomerForm := mkCustomerForm {
  firstName : string;
  lastName : string;
  emailAddress : string;
  c_phoneNumber : string
}.

Record AddressForm := mkAddressForm {
  fullName : string;
  company : string;
  streetLine1 : string;
  streetLine2 : string;
  city : string;
  province : string;
  postalCode : string;
  countryCode : string;
  phoneNumber : string
}.

(** A mutation document with its variables. *)
Inductive Mutation :=
| CREATE_DRAFT_ORDER
| ADD_ITEM_TO_DRAFT_ORDER (orderId productVariantId : string) (quantity : Z)
| REMOVE_DRAFT_ORDER_LINE (orderId orderLineId : string)
| SET_DRAFT_ORDER_CUSTOMER (orderId : string) (input : CustomerForm)
| SET_DRAFT_ORDER_SHIPPING_ADDRESS (orderId : string) (input : AddressForm)
| SET_DRAFT_ORDER_BILLING_ADDRESS (orderId : string) (input : AddressForm)
| TRANSITION_ORDER_TO_STATE (id : string) (state : string).

Record ProductVariant := mkProductVariant {
  variant_id : string;
  variant_name : string
}.

Record Product := mkProduct {
  product_id : string;
  product_variants : list ProductVariant
}.

Inductive Request :=
| MutateReq (m : Mutation)
| SearchProductsReq (take : Z) (nameContains : string).

Inductive Effect :=
| Send (r : Request)
| ShowToast (t : Toast)
| Navigate (path : string).

(** [$apollo]: the reply to each request.  The data of a mutation is the
    field the handler reads ([data?.addItemToDraftOrder] and the like),
    absent when [data] or the field is. *)
Record Apollo := mkApollo {
  mutate : Mutation -> Reply (option Payload);
  searchProducts : Z -> string -> Reply (option (list Product))
}.

(** The refs of the page. *)
Record Page := mkPage {
  loading : bool;
  draftOrder : option Payload;
  products : list Product;
  productsLoading : bool;
  productSearchQuery : string;
  customerModalOpen : bool;
  customerForm : CustomerForm;
  shippingModalOpen : bool;
  shippingForm : AddressForm;
  billingModalOpen : bool;
  billingForm : AddressForm
}.

Definition set_loading (p : Page) (b : bool) : Page :=
  mkPage b (draftOrder p) (products p) (productsLoading p)
    (productSearchQuery p) (customerModalOpen p) (customerForm p)
    (shippingModalOpen p) (shippingForm p) (billingModalOpen p) (billingForm p).

Definition set_draftOrder (p : Page) (d : option Payload) : Page :=
  mkPage (loading p) d (products p) (productsLoading p)
    (productSearchQuery p) (customerModalOpen p) (customerForm p)
    (shippingModalOpen p) (shippingForm p) (billingModalOpen p) (billingForm p).

Definition set_products (p : Page) (l : list Product) : Page :=
  mkPage (loading p) (draftOrder p) l (productsLoading p)
    (productSearchQuery p) (customerModalOpen p) (customerForm p)
    (shippingModalOpen p) (shippingForm p) (billingModalOpen p) (billingForm p).

Definition set_productsLoading (p : Page) (b : bool) : Page :=
  mkPage (loading p) (draftOrder p) (products p) b
    (productSearchQuery p) (customerModalOpen p) (customerForm p)
    (shippingModalOpen p) (shippingForm p) (billingModalOpen p) (billingForm p).

Definition set_productSearchQuery (p : Page) (q : string) : Page :=
  mkPage (loading p) (draftOrder p) (products p) (productsLoading p)
    q (customerModalOpen p) (customerForm p)
    (shippingModalOpen p) (shippingForm p) (billingModalOpen p) (billingForm p).

Definition set_customerModalOpen (p : Page) (b : bool) : Page :=
  mkPage (loading p) (draftOrder p) (products p) (productsLoading p)
    (productSearchQuery p) b (customerForm p)
    (shippingModalOpen p) (shippingForm p) (billingModalOpen p) (billingForm p).

Definition set_customerForm (p : Page) (c : CustomerForm) : Page :=
  mkPage (loading p) (draftOrder p) (products p) (productsLoading p)
    (productSearchQuery p) (customerModalOpen p) c
    (shippingModalOpen p) (shippingForm p) (billingModalOpen p) (billingForm p).

Definition set_shippingModalOpen (p : Page) (b : bool) : Page :=
  mkPage (loading p) (draftOrder p) (products p) (productsLoading p)
    (productSearchQuery p) (customerModalOpen p) (customerForm p)
    b (shippingForm p) (billingModalOpen p) (billingForm p).

Definition set_shippingForm (p : Page) (a : AddressForm) : Page :=
  mkPage (loading p) (draftOrder p) (products p) (productsLoading p)
    (productSearchQuery p) (customerModalOpen p) (customerForm p)
    (shippingModalOpen p) a (billingModalOpen p) (billingForm p).

Definition set_billingModalOpen (p : Page) (b : bool) : Page :=
  mkPage (loading p) (draftOrder p) (products p) (productsLoading p)
    (productSearchQuery p) (customerModalOpen p) (customerForm p)
    (shippingModalOpen p) (shippingForm p) b (billingForm p).

Definition set_billingForm (p : Page) (a : AddressForm) : Page :=
  mkPage (loading p) (draftOrder p) (products p) (productsLoading p)
    (productSearchQuery p) (customerModalOpen p) (customerForm p)
    (shippingModalOpen p) (shippingForm p) (billingModalOpen p) a.

Definition emptyCustomerForm : CustomerForm := mkCustomerForm "" "" "" "".

Definition emptyAddressForm : AddressForm :=
  mkAddressForm "" "" "" "" "" "" "" "" "".

(** The refs as the script initialises them. *)
Definition initialPage : Page :=
  mkPage false None [] false "" false emptyCustomerForm
         false emptyAddressForm false emptyAddressForm.

Definition errorToast (d : string) : Toast := mkToast "Error" d "error".
Definition successToast (d : string) : Toast := mkToast "Success" d "success".

(** [draftOrder.value?.id], when truthy. *)
Definition draftOrderId (p : Page) : option string :=
  match draftOrder p with
  | Some (IsOrder o) => if Js.truthy (o_id o) then Some (o_id o) else None
  | _ => None
  end.

(** [draftOrder.value?.lines] *)
Definition draftOrderLines (p : Page) : option (list OrderLine) :=
  match draftOrder p with
  | Some (IsOrder o) => o_lines o
  | _ => None
  end.

(** [draftOrder.value?.shippingAddress] *)
Definition draftOrderShippingAddress (p : Page) : option OrderAddress :=
  match draftOrder p with
  | Some (IsOrder o) => o_shippingAddress o
  | _ => None
  end.

(** [line.productVariant?.id === variantId] *)
Definition lineHasVariant (variantId : string) (line : OrderLine) : bool :=
  match productVariant line with
  | Some v => pv_id v =? variantId
  | None => false
  end.

(** [isVariantInOrder(variantId)] *)
Definition isVariantInOrder (variantId : string) (p : Page) : bool :=
  match draftOrderLines p with
  | Some lines => Js.some (lineHasVariant variantId) lines
  | None => false
  end.

(** [initializeDraftOrder()] *)
Definition initializeDraftOrder (apollo : Apollo) (p : Page)
  : Page * list Effect :=
  let p1 := set_loading p true in
  let sent := Send (MutateReq CREATE_DRAFT_ORDER) in
  let failed := ShowToast (errorToast "Failed to create draft order") in
  match mutate apollo CREATE_DRAFT_ORDER with
  | Rejected _ => (set_loading p1 false, [sent; failed])
  | Resolved payload =>
      let p2 := set_draftOrder p1 payload in
      match payload with
      | Some (IsOrder o) =>
          if Js.truthy (o_id o) then
            (set_loading p2 false,
             [sent;
              ShowToast (successToast
                ("Draft order created! ID: " ++ o_id o ++ " Code: " ++ o_code o))])
          else (set_loading p2 false, [sent; failed])
      | _ => (set_loading p2 false, [sent; failed])
      end
  end.

(** The function debounced as [loadProducts]. *)
Definition loadProducts (apollo : Apollo) (p : Page) : Page * list Effect :=
  if negb (Js.truthy (productSearchQuery p)) then (set_products p [], [])
  else
    let p1 := set_productsLoading p true in
    let sent := Send (SearchProductsReq 50 (productSearchQuery p)) in
    match searchProducts apollo 50 (productSearchQuery p) with
    | Rejected _ =>
        (set_productsLoading p1 false,
         [sent; ShowToast (errorToast "Failed to load products")])
    | Resolved its =>
        (set_productsLoading
           (set_products p1 (match its with Some l => l | None => [] end)) false,
         [sent])
    end.

(** [addItemToOrder(productVariantId, variantName)], run to completion: the
    reply is taken as soon as the request is sent.  [AddItemInFlight] below
    has the two parts of the call apart, for clicks that fall between
    them. *)
Definition addItemToOrder (productVariantId variantName : string)
  (apollo : Apollo) (p : Page) : Page * list Effect :=
  match draftOrderId p with
  | None => (p, [ShowToast (errorToast "No draft order available")])
  | Some orderId =>
      if isVariantInOrder productVariantId p then
        (p, [ShowToast (mkToast "Info" "This item is already in the order" "info")])
      else
        let m := ADD_ITEM_TO_DRAFT_ORDER orderId productVariantId 1 in
        match mutate apollo m with
        | Resolved payload =>
            (set_draftOrder p payload,
             [Send (MutateReq m);
              ShowToast (successToast (variantName ++ " added to order"))])
        | Rejected _ =>
            (p, [Send (MutateReq m);
                 ShowToast (errorToast "Failed to add item to order")])
        end
  end.

(** [removeItemFromOrder(orderLineId)] *)
Definition removeItemFromOrder (orderLineId : string)
  (apollo : Apollo) (p : Page) : Page * list Effect :=
  match draftOrderId p with
  | None => (p, [])
  | Some orderId =>
      let m := REMOVE_DRAFT_ORDER_LINE orderId orderLineId in
      match mutate apollo m with
      | Resolved payload =>
          (set_draftOrder p payload,
           [Send (MutateReq m); ShowToast (successToast "Item removed from order")])
      | Rejected _ =>
          (p, [Send (MutateReq m);
               ShowToast (errorToast "Failed to remove item from order")])
      end
  end.

Definition validationToast : Toast :=
  mkToast "Validation Error" "Please fill in all required fields" "error".

(** [saveCustomer()] *)
Definition saveCustomer (apollo : Apollo) (p : Page) : Page * list Effect :=
  match draftOrderId p with
  | None => (p, [])
  | Some orderId =>
      let c := customerForm p in
      if negb (Js.truthy (firstName c)) || negb (Js.truthy (lastName c))
         || negb (Js.truthy (emailAddress c))
      then (p, [ShowToast validationToast])
      else
        let m := SET_DRAFT_ORDER_CUSTOMER orderId c in
        match mutate apollo m with
        | Resolved payload =>
            (set_customerModalOpen (set_draftOrder p payload) false,
             [Send (MutateReq m);
              ShowToast (successToast "Customer information saved")])
        | Rejected _ =>
            (p, [Send (MutateReq m);
                 ShowToast (errorToast "Failed to save customer information")])
        end
  end.

(** The test on the required fields of an address form. *)
Definition addressIncomplete (a : AddressForm) : bool :=
  negb (Js.truthy (fullName a)) || negb (Js.truthy (streetLine1 a))
  || negb (Js.truthy (city a)) || negb (Js.truthy (province a))
  || negb (Js.truthy (postalCode a)) || negb (Js.truthy (countryCode a)).

(** [saveShippingAddress()] *)
Definition saveShippingAddress (apollo : Apollo) (p : Page)
  : Page * list Effect :=
  match draftOrderId p with
  | None => (p, [])
  | Some orderId =>
      if addressIncomplete (shippingForm p) then (p, [ShowToast validationToast])
      else
        let m := SET_DRAFT_ORDER_SHIPPING_ADDRESS orderId (shippingForm p) in
        match mutate apollo m with
        | Resolved payload =>
            (set_shippingModalOpen (set_draftOrder p payload) false,
             [Send (MutateReq m); ShowToast (successToast "Shipping address saved")])
        | Rejected _ =>
            (p, [Send (MutateReq m);
                 ShowToast (errorToast "Failed to save shipping address")])
        end
  end.

(** [saveBillingAddress()] *)
Definition saveBillingAddress (apollo : Apollo) (p : Page)
  : Page * list Effect :=
  match draftOrderId p with
  | None => (p, [])
  | Some orderId =>
      if addressIncomplete (billingForm p) then (p, [ShowToast validationToast])
      else
        let m := SET_DRAFT_ORDER_BILLING_ADDRESS orderId (billingForm p) in
        match mutate apollo m with
        | Resolved payload =>
            (set_billingModalOpen (set_draftOrder p payload) false,
             [Send (MutateReq m); ShowToast (successToast "Billing address saved")])
        | Rejected _ =>
            (p, [Send (MutateReq m);
                 ShowToast (errorToast "Failed to save billing address")])
        end
  end.

(** [x || ""] on a field that may be null. *)
Definition orEmpty (x : option string) : string :=
  match x with
  | Some s => Js.or_else s ""
  | None => ""
  end.

(** [copyShippingToBilling()].  The order id is read without a test here:
    [draftOrder.value.id]. *)
Definition copyShippingToBilling (apollo : Apollo) (p : Page)
  : Page * list Effect :=
  match draftOrder p with
  | Some (IsOrder o) =>
      match o_shippingAddress o with
      | None => (p, [ShowToast (errorToast "Please add a shipping address first")])
      | Some a =>
          let billingData :=
            mkAddressForm (orEmpty (a_fullName a)) (orEmpty (a_company a))
              (orEmpty (a_streetLine1 a)) (orEmpty (a_streetLine2 a))
              (orEmpty (a_city a)) (orEmpty (a_province a))
              (orEmpty (a_postalCode a)) (orEmpty (a_countryCode a))
              (orEmpty (a_phoneNumber a)) in
          let m := SET_DRAFT_ORDER_BILLING_ADDRESS (o_id o) billingData in
          match mutate apollo m with
          | Resolved payload =>
              (set_draftOrder p payload,
               [Send (MutateReq m);
                ShowToast (successToast
                  "Billing address copied from shipping address")])
          | Rejected _ =>
              (p, [Send (MutateReq m);
                   ShowToast (errorToast "Failed to copy billing address")])
          end
      end
  | _ => (p, [ShowToast (errorToast "Please add a shipping address first")])
  end.

(** [completeOrder()] *)
Definition completeOrder (apollo : Apollo) (p : Page) : Page * list Effect :=
  match draftOrderId p with
  | None => (p, [])
  | Some orderId =>
      let p1 := set_loading p true in
      let m := TRANSITION_ORDER_TO_STATE orderId "ArrangingPayment" in
      match mutate apollo m with
      | Resolved _ =>
          (set_loading p1 false,
           [Send (MutateReq m);
            ShowToast (successToast "Order completed successfully");
            Navigate "/orders"])
      | Rejected _ =>
          (set_loading p1 false,
           [Send (MutateReq m); ShowToast (errorToast "Failed to complete order")])
      end
  end.

(** [onCancel()] *)
Definition onCancel (p : Page) : Page * list Effect :=
  (p, [Navigate "/orders"]).

(** What can happen to the page: it is mounted, or the user acts on one of
    its controls. *)
Inductive Event :=
| Mounted
| SearchInput (q : string)
| ClickVariant (variantId variantName : string)
| ClickRemoveLine (orderLineId : string)
| SetCustomerModal (open : bool)
| EditCustomerForm (c : CustomerForm)
| ClickSaveCustomer
| SetShippingModal (open : bool)
| EditShippingForm (a : AddressForm)
| ClickSaveShipping
| SetBillingModal (open : bool)
| EditBillingForm (a : AddressForm)
| ClickSaveBilling
| ClickCopyShippingToBilling
| ClickCompleteOrder
| ClickCancel.

(** The handler the script and the template bind to each event. *)
Definition handle (apollo : Apollo) (e : Event) (p : Page) : Page * list Effect :=
  match e with
  | Mounted => initializeDraftOrder apollo p
  | SearchInput q => loadProducts apollo (set_productSearchQuery p q)
  | ClickVariant v n => addItemToOrder v n apollo p
  | ClickRemoveLine l => removeItemFromOrder l apollo p
  | SetCustomerModal b => (set_customerModalOpen p b, [])
  | EditCustomerForm c => (set_customerForm p c, [])
  | ClickSaveCustomer => saveCustomer apollo p
  | SetShippingModal b => (set_shippingModalOpen p b, [])
  | EditShippingForm a => (set_shippingForm p a, [])
  | ClickSaveShipping => saveShippingAddress apollo p
  | SetBillingModal b => (set_billingModalOpen p b, [])
  | EditBillingForm a => (set_billingForm p a, [])
  | ClickSaveBilling => saveBillingAddress apollo p
  | ClickCopyShippingToBilling => copyShippingToBilling apollo p
  | ClickCompleteOrder => completeOrder apollo p
  | ClickCancel => onCancel p
  end.

(** An execution: the events in order, each with the replies the API gives
    while it is handled.  [run] returns the last state and everything the
    page did, in order. *)
Fixpoint run (steps : list (Apollo * Event)) (p : Page) : Page * list Effect :=
  match steps with
  | [] => (p, [])
  | (apollo, e) :: rest =>
      let '(p1, effs) := handle apollo e p in
      let '(p2, effs') := run rest p1 in
      (p2, effs ++ effs')
  end.

End OrderCreate.

(** ** Product-creation form: option groups, options and the tag input *)

Module ProductOptions.
Import ProductForm.

Definition with_optionGroups (f : FormData) (gs : list OptionGroup) : FormData :=
  mkForm (name f) (slug f) gs (variants f).

Definition with_name (f : FormData) (n : string) : FormData :=
  mkForm n (slug f) (optionGroups f) (variants f).

Definition with_variants (f : FormData) (vs : list Variant) : FormData :=
  mkForm (name f) (slug f) (optionGroups f) vs.

Definition with_options (g : OptionGroup) (os : list ProductOption)
  : OptionGroup :=
  mkGroup (og_id g) (og_name g) (og_code g) os.

Definition with_groupName (g : OptionGroup) (n : string) : OptionGroup :=
  mkGroup (og_id g) n (og_code g) (og_options g).

Definition with_groupCode (g : OptionGroup) (c : string) : OptionGroup :=
  mkGroup (og_id g) (og_name g) c (og_options g).

(** [xs.splice(index, 1)], for the index of a [v-for]: nothing is removed
    when the index is past the end. *)
Fixpoint removeAt {A} (index : nat) (xs : list A) : list A :=
  match xs, index with
  | [], _ => []
  | _ :: rest, O => rest
  | x :: rest, S i => x :: removeAt i rest
  end.

(** The element at [index] changed in place; nothing when there is none. *)
Fixpoint updateAt {A} (index : nat) (change : A -> A) (xs : list A) : list A :=
  match xs, index with
  | [], _ => []
  | x :: rest, O => change x :: rest
  | x :: rest, S i => x :: updateAt i change rest
  end.

(** [s.toLowerCase().replace(/[^a-z0-9]/g, "")] *)
Definition alnumCode (s : string) : string :=
  Js.removeOutside Js.isLowerAlnum (Js.toLowerCase s).

(** [addOptionGroup()]; [id] is what [generateId()] returns. *)
Definition addOptionGroup (id : string) (f : FormData) : FormData :=
  with_optionGroups f (optionGroups f ++ [mkGroup id "" "" []]).

(** [removeOptionGroup(groupIndex)] *)
Definition removeOptionGroup (groupIndex : nat) (f : FormData) : FormData :=
  with_optionGroups f (removeAt groupIndex (optionGroups f)).

(** [(option) => option.name.toLowerCase() === optionName.toLowerCase()] *)
Definition sameName (optionName : string) (o : ProductOption) : bool :=
  Js.toLowerCase (opt_name o) =? Js.toLowerCase optionName.

(** [addOptionFromInput(groupIndex, optionName)]; [id] is what [generateId()]
    returns when it is called. *)
Definition addOptionFromInput (id : string) (groupIndex : nat)
  (optionName : string) (f : FormData) : FormData :=
  match nth_error (optionGroups f) groupIndex with
  | None => f
  | Some group =>
      if Js.some (sameName optionName) (og_options group) then f
      else
        let newOption := mkOption id optionName (alnumCode optionName) in
        with_optionGroups f
          (updateAt groupIndex
             (fun g => with_options g (og_options g ++ [newOption]))
             (optionGroups f))
  end.

(** [removeOption(groupIndex, optionIndex)] *)
Definition removeOption (groupIndex optionIndex : nat) (f : FormData)
  : FormData :=
  match nth_error (optionGroups f) groupIndex with
  | None => f
  | Some _ =>
      with_optionGroups f
        (updateAt groupIndex
           (fun g => with_options g (removeAt optionIndex (og_options g)))
           (optionGroups f))
  end.

(** [handleOptionGroupNameBlur(groupIndex)] *)
Definition handleOptionGroupNameBlur (groupIndex : nat) (f : FormData)
  : FormData :=
  match nth_error (optionGroups f) groupIndex with
  | None => f
  | Some group =>
      if Js.truthy (og_name group) && negb (Js.truthy (og_code group)) then
        with_optionGroups f
          (updateAt groupIndex
             (fun g => with_groupCode g (alnumCode (og_name g)))
             (optionGroups f))
      else f
  end.

(** The form together with [optionInputValues], the text typed in the tag
    input of each group (absent until something is typed). *)
Record TagForm := mkTagForm {
  form : FormData;
  optionInputValues : nat -> option string
}.

(** [getOptionInputValue(groupIndex)] *)
Definition getOptionInputValue (groupIndex : nat) (st : TagForm) : string :=
  match optionInputValues st groupIndex with
  | Some v => Js.or_else v ""
  | None => ""
  end.

(** [setOptionInputValue(groupIndex, value)] *)
Definition setOptionInputValue (groupIndex : nat) (value : string)
  (st : TagForm) : TagForm :=
  mkTagForm (form st)
    (fun i => if Nat.eqb i groupIndex then Some value
              else optionInputValues st i).

(** What [handleOptionKeydown] reads of the event: the key, and the value
    of the input element it comes from. *)
Record KeyEvent := mkKeyEvent {
  key : string;
  targetValue : string
}.

(** [handleOptionKeydown(event, groupIndex)]; the second component tells
    whether [event.preventDefault()] was called. *)
Definition handleOptionKeydown (id : string) (event : KeyEvent)
  (groupIndex : nat) (st : TagForm) : TagForm * bool :=
  let value := Js.trim (targetValue event) in
  let '(st1, prevented) :=
    if ((key event =? "Enter") || (key event =? ",") || (key event =? " "))
       && Js.truthy value
    then
      (setOptionInputValue groupIndex ""
         (mkTagForm (addOptionFromInput id groupIndex value (form st))
                    (optionInputValues st)),
       true)
    else (st, false) in
  if (key event =? "Backspace") && negb (Js.truthy value) then
    match nth_error (optionGroups (form st1)) groupIndex with
    | Some group =>
        match og_options group with
        | [] => (st1, prevented)
        | _ :: _ =>
            (mkTagForm
               (removeOption groupIndex (List.length (og_options group) - 1)
                             (form st1))
               (optionInputValues st1),
             prevented)
        end
    | None => (st1, prevented)
    end
  else (st1, prevented).

(** [getDescriptionPreview()], [description] being [form.value.description],
    which may be undefined. *)
Definition getDescriptionPreview (description : option string) : string :=
  match description with
  | None => "Product description will appear here..."
  | Some d =>
      if negb (Js.truthy d) then "Product description will appear here..."
      else
        let truncated := substring 0 120 d in
        let ellipsis := if (120 <? String.length d)%nat then "..." else "" in
        truncated ++ ellipsis
  end.

(** What the user can do to the form of the page. *)
Inductive Edit :=
| TypeName (n : string)
| TypeSlug (s : string)
| BlurName
| ClickGenerateSlug
| ClickAddOptionGroup (id : string)
| ClickRemoveOptionGroup (groupIndex : nat)
| TypeGroupName (groupIndex : nat) (n : string)
| BlurGroupName (groupIndex : nat)
| TypeOption (groupIndex : nat) (text : string)
| KeyDownOption (id : string) (event : KeyEvent) (groupIndex : nat)
| ClickRemoveOption (groupIndex optionIndex : nat)
| ClickGenerateVariants
| EditVariant (index : nat) (sku : string) (price stockOnHand : Z)
              (enabled : bool).

Definition onForm (change : FormData -> FormData) (st : TagForm) : TagForm :=
  mkTagForm (change (form st)) (optionInputValues st).

(** The handler the template binds to each control. *)
Definition applyEdit (e : Edit) (st : TagForm) : TagForm :=
  match e with
  | TypeName n => onForm (fun f => with_name f n) st
  | TypeSlug s => onForm (fun f => set_slug f s) st
  | BlurName => onForm handleNameBlur st
  | ClickGenerateSlug => onForm generateSlug st
  | ClickAddOptionGroup id => onForm (addOptionGroup id) st
  | ClickRemoveOptionGroup i => onForm (removeOptionGroup i) st
  | TypeGroupName i n =>
      onForm (fun f => with_optionGroups f
                (updateAt i (fun g => with_groupName g n) (optionGroups f))) st
  | BlurGroupName i => onForm (handleOptionGroupNameBlur i) st
  | TypeOption i text => setOptionInputValue i text st
  | KeyDownOption id event i => fst (handleOptionKeydown id event i st)
  | ClickRemoveOption i j => onForm (removeOption i j) st
  | ClickGenerateVariants => onForm generateVariants st
  | EditVariant i sku price stock enabled =>
      onForm (fun f => with_variants f
                (updateAt i
                   (fun v => mkVariant (v_name v) sku price stock enabled
                                       (v_options v))
                   (variants f))) st
  end.

Definition applyEdits (es : list Edit) (st : TagForm) : TagForm :=
  fold_left (fun s e => applyEdit e s) es st.

(** The form and the tag inputs as the script initialises them. *)
Definition initialTagForm : TagForm :=
  mkTagForm (mkForm "" "" [] []) (fun _ => None).

End ProductOptions.

(** ** Product-creation form: submission *)

Module ProductSubmit.
Import Ui ProductForm.

(** The fields of [form.value] that only the submission reads. *)
Record Details := mkDetails {
  description : option string;
  enabled : bool;
  featuredAssetId : option string;
  assetIds : list string;
  facetValueIds : list string
}.

(** [input] of [CREATE_PRODUCT]; its one translation is the English one, and
    [customFields] is the empty record the form starts with, which no
    control changes. *)
Record ProductInput := mkProductInput {
  pi_name : string;
  pi_slug : string;
  pi_description : string;
  pi_enabled : bool;
  pi_featuredAssetId : option string;
  pi_assetIds : list string;
  pi_facetValueIds : list string
}.

Record OptionInput := mkOptionInput {
  oi_code : string;
  oi_name : string
}.

(** One element of the [input] of [CREATE_PRODUCT_VARIANTS]. *)
Record VariantInput := mkVariantInput {
  vi_productId : string;
  vi_name : string;
  vi_sku : string;
  vi_price : Z;
  vi_stockOnHand : Z;
  vi_enabled : bool;
  vi_optionIds : list string
}.

Inductive Mutation :=
| CREATE_PRODUCT (input : ProductInput)
| CREATE_PRODUCT_OPTION_GROUP (code name : string) (options : list OptionInput)
| ADD_OPTION_GROUP_TO_PRODUCT (productId optionGroupId : string)
| CREATE_PRODUCT_VARIANTS (input : list VariantInput).

Inductive Effect :=
| Send (m : Mutation)
| ShowToast (t : Toast)
| Navigate (path : string).

(** What the [catch] block reads of the error it receives. *)
Record Failure := mkFailure {
  graphQLErrors : list string;
  networkError : bool;
  message : string
}.

(** [new Error(msg)] *)
Definition thrown (msg : string) : Failure := mkFailure [] false msg.

Inductive Answer (A : Type) : Type :=
| Fails (e : Failure)
| Gives (data : A).

Arguments Fails {A} e.
Arguments Gives {A} data.

(** [createProduct] of a reply; the id is empty when it is missing. *)
Record CreatedProduct := mkCreatedProduct {
  cp_id : string
}.

Record CreatedOption := mkCreatedOption {
  co_id : string;
  co_code : string
}.

(** [createProductOptionGroup] of a reply. *)
Record CreatedGroup := mkCreatedGroup {
  cg_id : string;
  cg_code : string;
  cg_options : option (list CreatedOption)
}.

(** [$apollo.mutate] for each document; the first argument is the number of
    requests the submission has sent before. *)
Record Apollo := mkApollo {
  createProduct : nat -> ProductInput -> Answer (option CreatedProduct);
  createProductOptionGroup :
    nat -> string -> string -> list OptionInput -> Answer (option CreatedGroup);
  addOptionGroupToProduct : nat -> string -> string -> Answer unit;
  createProductVariants : nat -> list VariantInput -> Answer unit
}.

(** The double-quote character, as a string. *)
Definition quote : string := String (ascii_of_nat 34) EmptyString.

(** A number in a template literal. *)
Definition showNat (n : nat) : string :=
  NilEmpty.string_of_uint (Nat.to_uint n).

(** The message the [catch] block puts in its toast. *)
Definition errorMessage (e : Failure) : string :=
  match graphQLErrors e with
  | m :: _ => m
  | [] =>
      if networkError e then "Network error - please check your connection"
      else if Js.truthy (message e) then message e
      else "Failed to create product"
  end.

(** Step 2: the loop over [form.value.optionGroups].  [sent] counts the
    requests sent so far, [created] is [createdOptionGroups]. *)
Fixpoint createGroups (apollo : Apollo) (productId : string) (sent : nat)
  (groups : list OptionGroup) (created : list CreatedGroup)
  : Answer (list CreatedGroup) * list Effect :=
  match groups with
  | [] => (Gives created, [])
  | group :: rest =>
      let options :=
        map (fun o => mkOptionInput (opt_code o) (opt_name o)) (og_options group) in
      let create :=
        CREATE_PRODUCT_OPTION_GROUP (og_code group) (og_name group) options in
      match createProductOptionGroup apollo sent (og_code group) (og_name group)
                                     options with
      | Fails e => (Fails e, [Send create])
      | Gives None =>
          (Fails (thrown ("Failed to create option group: " ++ og_name group)),
           [Send create])
      | Gives (Some createdGroup) =>
          let add := ADD_OPTION_GROUP_TO_PRODUCT productId (cg_id createdGroup) in
          match addOptionGroupToProduct apollo (S sent) productId
                                        (cg_id createdGroup) with
          | Fails e => (Fails e, [Send create; Send add])
          | Gives _ =>
              let '(result, effs) :=
                createGroups apollo productId (S (S sent)) rest
                             (created ++ [createdGroup]) in
              (result, Send create :: Send add :: effs)
          end
      end
  end.

(** The id created for the option a variant selects, or nothing ([null]). *)
Definition createdOptionId (f : FormData) (created : list CreatedGroup)
  (variantOption : Selection) : option string :=
  match Js.find (fun og => og_id og =? optionGroupId variantOption)
                (optionGroups f) with
  | None => None
  | Some originalGroup =>
      match Js.find (fun o => opt_id o =? optionId variantOption)
                    (og_options originalGroup) with
      | None => None
      | Some originalOption =>
          match Js.find (fun g => cg_code g =? og_code originalGroup) created with
          | None => None
          | Some createdGroup =>
              match cg_options createdGroup with
              | None => None
              | Some options =>
                  match Js.find (fun o => co_code o =? opt_code originalOption)
                                options with
                  | None => None
                  | Some createdOption => Some (co_id createdOption)
                  end
              end
          end
      end
  end.

(** [variant.options.map(...).filter(Boolean)] *)
Definition optionIdsOf (f : FormData) (created : list CreatedGroup)
  (variant : Variant) : list string :=
  flat_map
    (fun variantOption =>
       match createdOptionId f created variantOption with
       | Some id => if Js.truthy id then [id] else []
       | None => []
       end)
    (v_options variant).

(** [form.value.variants.map(...)] of step 3, which throws at the first
    variant whose option ids are not as many as the created groups.  Prices
    are whole numbers here, for which [Math.round(price * 100)] is the
    product. *)
Fixpoint variantInputs (f : FormData) (created : list CreatedGroup)
  (productId : string) (vs : list Variant) : Answer (list VariantInput) :=
  match vs with
  | [] => Gives []
  | variant :: rest =>
      let optionIds := optionIdsOf f created variant in
      if negb (List.length optionIds =? List.length created)%nat then
        Fails (thrown ("Variant " ++ quote ++ v_name variant ++ quote
                       ++ " should have "
                       ++ showNat (List.length created)
                       ++ " options, but only has "
                       ++ showNat (List.length optionIds)))
      else
        match variantInputs f created productId rest with
        | Fails e => Fails e
        | Gives inputs =>
            Gives (mkVariantInput productId (v_name variant) (v_sku variant)
                     (v_price variant * 100) (v_stockOnHand variant)
                     (v_enabled variant) optionIds
                   :: inputs)
        end
  end.

(** Steps 1 to 3 of [try]: the product, the option groups, the variants.
    The result is what was sent, and the id of the product when nothing
    failed. *)
Definition createAll (apollo : Apollo) (f : FormData) (d : Details)
  : Answer string * list Effect :=
  let productInput :=
    mkProductInput (name f) (slug f)
      (match description d with Some s => Js.or_else s "" | None => "" end)
      (enabled d) (featuredAssetId d) (assetIds d) (facetValueIds d) in
  let create := Send (CREATE_PRODUCT productInput) in
  match createProduct apollo 0 productInput with
  | Fails e => (Fails e, [create])
  | Gives None =>
      (Fails (thrown "Product was created but no ID was returned"), [create])
  | Gives (Some product) =>
      if negb (Js.truthy (cp_id product)) then
        (Fails (thrown "Product was created but no ID was returned"), [create])
      else
        match createGroups apollo (cp_id product) 1 (optionGroups f) [] with
        | (Fails e, effs) => (Fails e, create :: effs)
        | (Gives created, effs) =>
            match variants f with
            | [] => (Gives (cp_id product), create :: effs)
            | _ :: _ =>
                match variantInputs f created (cp_id product) (variants f) with
                | Fails e => (Fails e, create :: effs)
                | Gives inputs =>
                    let sendVariants := Send (CREATE_PRODUCT_VARIANTS inputs) in
                    match createProductVariants apollo (S (List.length effs))
                                                inputs with
                    | Fails e => (Fails e, create :: effs ++ [sendVariants])
                    | Gives _ =>
                        (Gives (cp_id product), create :: effs ++ [sendVariants])
                    end
                end
            end
        end
  end.

(** The body of [try], up to the success toast: the test that variants
    were generated, then the three steps. *)
Definition submitSteps (apollo : Apollo) (f : FormData) (d : Details)
  : Answer string * list Effect :=
  match optionGroups f, variants f with
  | _ :: _, [] =>
      (Fails (thrown "Please generate variants before creating the product"), [])
  | _, _ => createAll apollo f d
  end.

(** [onSubmit()]: everything the handler does; [loading] is true while it
    runs and false once it is over. *)
Definition onSubmit (apollo : Apollo) (f : FormData) (d : Details)
  : list Effect :=
  match submitSteps apollo f d with
  | (Gives productId, effs) =>
      effs ++ [ShowToast (mkToast "Success" "Product created successfully"
                                  "success");
               Navigate ("/products/" ++ productId)]
  | (Fails e, effs) =>
      effs ++ [ShowToast (mkToast "Error" (errorMessage e) "error")]
  end.

End ProductSubmit.

(** ** Listing pages: what the table and its footer display *)

Module ListingView.
Import Listing.

(** [[A-Z]] *)
Definition isAsciiUpper (c : ascii) : bool := Js.between 65 90 (Js.codeOf c).

(** [s.replace(/([A-Z])/g, " $1")], on the list of code units. *)
Definition spaceBeforeCapitalsL (s : list ascii) : list ascii :=
  flat_map (fun c => if isAsciiUpper c then [" "%char; c] else [c]) s.

(** [formatOrderState(state)] of the orders page. *)
Definition formatOrderState (state : string) : string :=
  Js.trim (Js.onChars spaceBeforeCapitalsL state).

(** The footer: [pagination.pageIndex * pagination.pageSize + 1] *)
Definition showingFrom (p : Pagination) : Z :=
  pageIndex p * pageSize p + 1.

(** [Math.min((pagination.pageIndex + 1) * pagination.pageSize, totalItems)] *)
Definition showingTo (p : Pagination) (totalItems : Z) : Z :=
  Z.min ((pageIndex p + 1) * pageSize p) totalItems.

(** [Math.ceil(totalItems / pagination.pageSize)], for a page size above 0
    (it is 10 on every page). *)
Definition pageCount (p : Pagination) (totalItems : Z) : Z :=
  - ((- totalItems) / pageSize p).

(** [:page="pagination.pageIndex + 1"] *)
Definition shownPage (p : Pagination) : Z := pageIndex p + 1.

End ListingView.

(** ** Attribute-creation form: submission *)

Module FacetSubmit.
Import Ui FacetForm.

Record ValueInput := mkValueInput {
  val_code : string;
  val_name : string
}.

(** [input] of [CREATE_FACET]; the translation is the English one. *)
Record FacetInput := mkFacetInput {
  fi_code : string;
  fi_isPrivate : bool;
  fi_name : string;
  fi_values : list ValueInput
}.

Inductive Effect :=
| Send (input : FacetInput)
| ShowToast (t : Toast)
| Navigate (path : string).

(** [createFacet] of a reply; the id is empty when it is missing. *)
Record CreatedFacet := mkCreatedFacet {
  facet_id : string
}.

(** What the call [$apollo.mutate({ mutation: CREATE_FACET, ... })] does with
    an input: it is rejected, or resolves with [data?.createFacet].  The
    document is imported from [~/graphql/products], whose index does not
    export it; the call is a parameter and nothing depends on the text of
    the document. *)
Definition Apollo : Type :=
  FacetInput -> ProductSubmit.Answer (option CreatedFacet).

(** The message the [catch] block puts in its toast. *)
Definition errorMessage (e : ProductSubmit.Failure) : string :=
  match ProductSubmit.graphQLErrors e with
  | m :: _ => m
  | [] =>
      if ProductSubmit.networkError e
      then "Network error - please check your connection"
      else if Js.truthy (ProductSubmit.message e) then ProductSubmit.message e
      else "Failed to create attribute"
  end.

Definition failed (e : ProductSubmit.Failure) : Effect :=
  ShowToast (mkToast "Error" (errorMessage e) "error").

(** The watcher on [attributeValues]: [form.value.values = newValues]. *)
Definition syncValues (newValues : list string) (f : FormData) : FormData :=
  mkForm (name f) (code f) (isPrivate f) newValues.

(** [onSubmit()]: everything the handler does; [loading] is true while it
    runs and false once it is over. *)
Definition onSubmit (apollo : Apollo) (f : FormData) : list Effect :=
  match values f with
  | [] => [failed (ProductSubmit.thrown "Please add at least one attribute value")]
  | _ :: _ =>
      let facetInput :=
        mkFacetInput (code f) (isPrivate f) (name f)
          (map (fun value => mkValueInput (valueCode value) value) (values f)) in
      match apollo facetInput with
      | ProductSubmit.Fails e => [Send facetInput; failed e]
      | ProductSubmit.Gives facet =>
          let hasId :=
            match facet with
            | Some created => Js.truthy (facet_id created)
            | None => false
            end in
          if hasId then
            [Send facetInput;
             ShowToast
               (mkToast "Success"
                  ("Attribute " ++ ProductSubmit.quote ++ name f
                   ++ ProductSubmit.quote ++ " created successfully with "
                   ++ ProductSubmit.showNat (List.length (values f))
                   ++ " values")
                  "success");
             Navigate "/products/attributes"]
          else
            [Send facetInput;
             failed (ProductSubmit.thrown
                       "Attribute was created but no ID was returned")]
      end
  end.

End FacetSubmit.

(** ** Order-creation page: [addItemToOrder] across its [await] *)

Module AddItemInFlight.
Import Ui OrderCreate.

(** A call of [addItemToOrder] suspended at its [await]: the request it has
    sent and the variant name kept for its toast. *)
Record Suspended := mkSuspended {
  s_variantName : string;
  s_request : Mutation
}.

(** [addItemToOrder(productVariantId, variantName)] up to its [await]: the
    two tests, on the page as it is when the row is clicked, then the
    request.  Nothing is written to the page. *)
Definition addItemToOrder_click (productVariantId variantName : string)
  (p : Page) : list Effect * option Suspended :=
  match draftOrderId p with
  | None => ([ShowToast (errorToast "No draft order available")], None)
  | Some orderId =>
      if isVariantInOrder productVariantId p then
        ([ShowToast (mkToast "Info" "This item is already in the order" "info")],
         None)
      else
        let m := ADD_ITEM_TO_DRAFT_ORDER orderId productVariantId 1 in
        ([Send (MutateReq m)], Some (mkSuspended variantName m))
  end.

(** The rest of the call, run when the reply arrives, on the page as it is
    then. *)
Definition addItemToOrder_resume (s : Suspended) (reply : Reply (option Payload))
  (p : Page) : Page * list Effect :=
  match reply with
  | Resolved payload =>
      (set_draftOrder p payload,
       [ShowToast (successToast (s_variantName s ++ " added to order"))])
  | Rejected _ =>
      (p, [ShowToast (errorToast "Failed to add item to order")])
  end.



End AddItemInFlight.

(** * Statements

    The predicates the properties are stated with, and the sample inputs
    they are tried on. *)

(** ** Statements about the variant generator *)

Module ProductFormSpec.
Import Js ProductForm.

(** Product of the sizes [k1 * ... * kN]; [1] for no size at all. *)
Definition productOf (ks : list nat) : nat := fold_right Nat.mul 1%nat ks.

Definition validOptions (g : OptionGroup) : list ProductOption :=
  filter validOption (og_options g).

Definition validGroups (f : FormData) : list OptionGroup :=
  filter hasValidOption (optionGroups f).

(** Every option of every group has a name and a code. *)
Definition allOptionsValid (f : FormData) : Prop :=
  Forall (fun g => Forall (fun o => validOption o = true) (og_options g))
         (optionGroups f).

(** No group is without options. *)
Definition noEmptyGroup (f : FormData) : Prop :=
  Forall (fun g => og_options g <> []) (optionGroups f).

(** The selection [s] picks an option of group [g]. *)
Definition picksFrom (s : Selection) (g : OptionGroup) : Prop :=
  optionGroupId s = og_id g /\
  exists o, In o (og_options g) /\ validOption o = true /\ optionId s = opt_id o.

(** The statement of the product property for one form: as many variants as
    the product of the group sizes, each with one selection per group, in
    the order of the groups. *)
Definition productProperty (f : FormData) : Prop :=
  let vs := variants (generateVariants f) in
  List.length vs
  = productOf (map (fun g => List.length (og_options g)) (optionGroups f))
  /\ Forall (fun v => List.length (v_options v) = List.length (optionGroups f)
                      /\ Forall2 picksFrom (v_options v) (optionGroups f)) vs.

(** A form with a group that has no option yet, next to a filled one. *)
Definition shirtWithEmptyGroup : FormData :=
  mkForm "Shirt" "shirt"
    [ mkGroup "g1" "Color" "color" [mkOption "o1" "Red" "red"];
      mkGroup "g2" "Size" "size" [] ]
    [].

Definition shirtTwoByTwo : FormData :=
  mkForm "Shirt" "shirt"
    [ mkGroup "g1" "Color" "color"
        [mkOption "o1" "Red" "red"; mkOption "o2" "Blue" "blue"];
      mkGroup "g2" "Size" "size"
        [mkOption "o3" "S" "s"; mkOption "o4" "L" "l"] ]
    [].

Definition set_optionGroups (f : FormData) (gs : list OptionGroup) : FormData :=
  mkForm (name f) (slug f) gs (variants f).

(** The statement of the exclusion property for one form: the stored
    variants are those the generator gives for the form without the groups
    that have no valid option. *)
Definition exclusionProperty (f : FormData) : Prop :=
  variants (generateVariants f)
  = variants (generateVariants (set_optionGroups f (validGroups f))).

(** A form whose only group has no option yet. *)
Definition shirtWithOnlyEmptyGroup : FormData :=
  mkForm "Shirt" "shirt" [ mkGroup "g2" "Size" "size" [] ] [].

(** A form in which a group whose option has no name yet bears the id of a
    filled group. *)
Definition shirtWithSharedGroupId : FormData :=
  mkForm "Shirt" "shirt"
    [ mkGroup "g" "Size" "size" [mkOption "o1" "" "s"];
      mkGroup "g" "Color" "color" [mkOption "o1" "Red" "red"] ]
    [].

(** The form as the script initialises it: no name, no slug, no group. *)
Definition emptyForm : FormData := mkForm "" "" [] [].

(** The statement of C3 for one form, with the variant name [expected]. *)
Definition defaultVariantProperty (expected : string) (f : FormData) : Prop :=
  exists v, variants (generateVariants f) = [v]
            /\ v_name v = expected /\ v_options v = [].

(** Group ids are distinct, and so are the option ids inside each group, as
    [generateId] means them to be. *)
Definition uniqueIds (f : FormData) : Prop :=
  NoDup (map og_id (optionGroups f))
  /\ Forall (fun g => NoDup (map opt_id (og_options g))) (optionGroups f).

(** The combination that selects the options [os], one in each of [gs]. *)
Definition selectAll (gs : list OptionGroup) (os : list ProductOption)
  : list Selection :=
  map (fun go => select (fst go) (snd go)) (combine gs os).

(** [os] holds one valid option of each group of [gs], in order. *)
Definition chosenFrom (gs : list OptionGroup) (os : list ProductOption) : Prop :=
  Forall2 (fun g o => In o (og_options g) /\ validOption o = true) gs os.

(** The statement of the naming property for one form, with [base] as the
    first part of the SKU: every stored variant selects options [o1..oN],
    one per group that has a valid option, and is named
    [name - o1.name / ... / oN.name] with SKU [base-o1.code-...-oN.code]. *)
Definition namingProperty (base : string) (f : FormData) : Prop :=
  forall v, In v (variants (generateVariants f)) ->
  exists os,
    chosenFrom (validGroups f) os
    /\ v_options v = selectAll (validGroups f) os
    /\ v_name v = (name f ++ " - " ++ join " / " (map opt_name os))%string
    /\ v_sku v = (base ++ "-" ++ join "-" (map opt_code os))%string.

(** A form whose slug is still empty when the variants are generated. *)
Definition shirtWithoutSlug : FormData :=
  mkForm "Shirt" ""
    [ mkGroup "g1" "Color" "color" [mkOption "o1" "Red" "red"] ]
    [].

End ProductFormSpec.

(** ** Statements about slugs and codes *)

Module SlugSpec.
Import Js.

(** The pipeline of [slugOf] on code units. *)
Definition slugL (l : list ascii) : list ascii :=
  trimL (replaceSpaceRunsL false "-" (removeOutsideL slugKeep (toLowerCaseL l))).

Definition noSpace (l : list ascii) : Prop := Forall (fun c => isSpace c = false) l.

Definition slugChars (l : list ascii) : Prop :=
  Forall (fun c => isSlugChar c = true) l.

(** Lower-cased and filtered, before white space is replaced. *)
Definition kept (l : list ascii) : list ascii :=
  filter slugKeep (map toLowerChar l).

(** Whether the last character read was white space, starting from [st]. *)
Fixpoint stateAfter (st : bool) (l : list ascii) : bool :=
  match l with
  | [] => st
  | c :: r => stateAfter (isSpace c) r
  end.

(** [s] is empty or ends with a character that stays in the slug. *)
Definition endsWithSlugChar (s : string) : bool :=
  match rev (list_ascii_of_string s) with
  | [] => true
  | c :: _ => isSlugChar (toLowerChar c)
  end.

(** [s] is empty or starts with a character that stays in the slug. *)
Definition startsWithSlugChar (s : string) : bool :=
  match s with
  | EmptyString => true
  | String c _ => isSlugChar (toLowerChar c)
  end.

Definition allSpace (s : string) : bool :=
  forallb isSpace (list_ascii_of_string s).

(** The slug as the sentence of C5 describes it: lower case, then every run
    of white space and every other character that is not a letter or a
    digit becomes a hyphen. *)
Definition describedSlug (s : string) : string :=
  replaceSpaceRuns "-"
    (replaceOutside (fun c => isLowerAlnum c || isSpace c) "-" (toLowerCase s)).

End SlugSpec.

(** ** Statements about the listing pages *)

Module ListingSpec.
Import Ui Listing.

(** The requests among the effects of a handler, in order. *)
Fixpoint requests (effs : list Effect) : list Request :=
  match effs with
  | [] => []
  | Send r :: rest => r :: requests rest
  | ShowToast _ :: rest => requests rest
  end.

(** The deletion did not go through: the request was rejected, or the reply
    does not say ["DELETED"]. *)
Definition deletionFailed (reply : Reply (option DeletionResponse)) : bool :=
  match reply with
  | Rejected _ => true
  | Resolved (Some r) => negb (result r =? "DELETED")
  | Resolved None => true
  end.

(** An API without any product, and the fourth page of ten rows. *)
Definition noProducts : Apollo string :=
  mkApollo string (fun _ _ => Resolved None) (fun _ => Resolved None).

Definition fourthPage : Page string :=
  mkPage string (mkPagination 3 10) [] 0 true None.

End ListingSpec.

(** ** Statements about the order-creation page *)

Module OrderCreateSpec.
Import Ui OrderCreate.

(** The mutations among the effects of a handler, in order. *)
Fixpoint mutations (effs : list Effect) : list Mutation :=
  match effs with
  | [] => []
  | Send (MutateReq m) :: rest => m :: mutations rest
  | _ :: rest => mutations rest
  end.

(** The only order state a transition mutation may ask for. *)
Definition asksArrangingPayment (m : Mutation) : Prop :=
  match m with
  | TRANSITION_ORDER_TO_STATE _ state => state = "ArrangingPayment"
  | _ => True
  end.

(** An API that answers every mutation with the order [o], and finds no
    product. *)
Definition answering (o : Order) : Apollo :=
  mkApollo (fun _ => Resolved (Some (IsOrder o))) (fun _ _ => Resolved None).

Definition order7 (lines : list OrderLine) : Order :=
  mkOrder "7" "ORD7" (Some lines) None.

Definition mugLine : OrderLine := mkLine "l1" (Some (mkVariantRef "v1")).

(** Mount the page, add a variant, complete the order. *)
Definition shortSession : list (Apollo * Event) :=
  [ (answering (order7 []), Mounted);
    (answering (order7 [mugLine]), ClickVariant "v1" "Mug");
    (answering (order7 [mugLine]), ClickCompleteOrder) ].

Definition infoToast : Toast :=
  mkToast "Info" "This item is already in the order" "info".

Definition variantOfLine (l : OrderLine) : list string :=
  match productVariant l with
  | Some v => [pv_id v]
  | None => []
  end.

(** The variants of the lines of an order, one entry per line that has one. *)
Definition orderVariants (o : Order) : list string :=
  match o_lines o with
  | Some ls => flat_map variantOfLine ls
  | None => []
  end.

(** The same for the draft order the page holds. *)
Definition lineVariants (p : Page) : list string :=
  match draftOrder p with
  | Some (IsOrder o) => orderVariants o
  | _ => []
  end.

End OrderCreateSpec.

(** ** Statements about failed mutations *)

Module MutationFailureSpec.
Import Ui OrderCreate OrderCreateSpec.

(** The request is rejected: a network error, or errors in the reply. *)
Definition rejected (reply : Reply (option Payload)) : bool :=
  match reply with
  | Rejected _ => true
  | Resolved _ => false
  end.

(** The mutation failed in the sense of C8: the request is rejected, or the
    reply carries an error result in place of the order. *)
Definition mutationFailed (reply : Reply (option Payload)) : bool :=
  match reply with
  | Rejected _ => true
  | Resolved (Some (ErrorResult _ _)) => true
  | Resolved _ => false
  end.

(** The statement for one event of the order-creation page, for a notion
    [failed] of failure: when the mutation the handler sends fails, the
    handler shows an error toast, does nothing else, and the stored draft
    order is the one held before. *)
Definition failureOnlyToasts (failed : Reply (option Payload) -> bool)
  (apollo : Apollo) (e : Event) (p : Page) : Prop :=
  forall m, In m (mutations (snd (handle apollo e p))) ->
  failed (mutate apollo m) = true ->
  draftOrder (fst (handle apollo e p)) = draftOrder p
  /\ (fst (handle apollo e p) = p \/ fst (handle apollo e p) = set_loading p false)
  /\ exists d, snd (handle apollo e p)
               = [Send (MutateReq m); ShowToast (errorToast d)].

(** An API that answers every mutation with an error result. *)
Definition outOfStock : Apollo :=
  mkApollo
    (fun _ => Resolved (Some (ErrorResult "INSUFFICIENT_STOCK_ERROR"
                                          "Only 0 items were added")))
    (fun _ _ => Resolved None).

Definition pageWithOrder7 : Page :=
  set_draftOrder initialPage (Some (IsOrder (order7 []))).

(** An API that rejects every request. *)
Definition offline : Apollo :=
  mkApollo (fun _ => Rejected "Failed to fetch")
           (fun _ _ => Rejected "Failed to fetch").

End MutationFailureSpec.

(** ** Statements about option groups and the tag input *)

Module ProductOptionsSpec.
Import Js ProductForm ProductOptions.

(** The option names of a group, in lower case. *)
Definition lowerNames (g : OptionGroup) : list string :=
  map (fun o => toLowerCase (opt_name o)) (og_options g).

(** An option as the tag input makes it: a name that is not empty and has
    no white space at its ends, and the code computed from that name. *)
Definition typedOption (o : ProductOption) : Prop :=
  opt_name o <> ""
  /\ trim (opt_name o) = opt_name o
  /\ opt_code o = alnumCode (opt_name o).

(** The options of a group are typed ones and no two of them have the same
    name up to letter case. *)
Definition tidyGroup (g : OptionGroup) : Prop :=
  NoDup (lowerNames g) /\ Forall typedOption (og_options g).

Definition tidyForm (f : FormData) : Prop :=
  Forall tidyGroup (optionGroups f).

(** Two groups offer the same choices to the generator. *)
Definition sameChoices (g g' : OptionGroup) : Prop :=
  og_id g = og_id g'
  /\ filter validOption (og_options g) = filter validOption (og_options g').

(** The option lists of the variants the generator would store. *)
Definition generatedOptions (f : FormData) : list (list Selection) :=
  map v_options (variants (generateVariants f)).

(** [l] is empty or starts with a character that is not white space. *)
Definition startsClean (l : list ascii) : Prop :=
  match l with
  | [] => True
  | c :: _ => isSpace c = false
  end.

(** A form with a colour group holding one option. *)
Definition colourForm : FormData :=
  mkForm "Shirt" "shirt"
    [mkGroup "g1" "Color" "color" [mkOption "o1" "Red" "red"]] [].

End ProductOptionsSpec.

(** ** Statements about generated slugs and the description preview *)

Module FormTextSpec.
Import Js.

(** The pattern [/^[a-z0-9-]+$/] that the forms require of a slug or code. *)
Definition matchesSlugPattern (s : string) : bool :=
  match list_ascii_of_string s with
  | [] => false
  | l => forallb isSlugChar l
  end.

(** The name has a character that the slug keeps in some form: a letter
    a-z in either case, a digit, a white-space character or a hyphen. *)
Definition hasKeptChar (n : string) : bool :=
  existsb (fun c => slugKeep (toLowerChar c)) (list_ascii_of_string n).

End FormTextSpec.

(** ** Statements about the submission of the product form *)

Module ProductSubmitSpec.
Import Ui ProductForm ProductSubmit.

(** The mutations among the effects, in order. *)
Fixpoint mutations (effs : list Effect) : list Mutation :=
  match effs with
  | [] => []
  | Send m :: rest => m :: mutations rest
  | _ :: rest => mutations rest
  end.

Fixpoint toasts (effs : list Effect) : list Toast :=
  match effs with
  | [] => []
  | ShowToast t :: rest => t :: toasts rest
  | _ :: rest => toasts rest
  end.

(** Which document a mutation is, and for which group code. *)
Inductive Kind :=
| KProduct
| KGroup (code : string)
| KAdd
| KVariants.

Definition kindOf (m : Mutation) : Kind :=
  match m with
  | CREATE_PRODUCT _ => KProduct
  | CREATE_PRODUCT_OPTION_GROUP code _ _ => KGroup code
  | ADD_OPTION_GROUP_TO_PRODUCT _ _ => KAdd
  | CREATE_PRODUCT_VARIANTS _ => KVariants
  end.

Definition kinds (effs : list Effect) : list Kind :=
  map kindOf (mutations effs).

Definition groupKinds (groups : list OptionGroup) : list Kind :=
  flat_map (fun g => [KGroup (og_code g); KAdd]) groups.

(** The requests of a submission that goes through: the product, then for
    each group of the form its creation and its attachment, then the
    variants if there are any. *)
Definition plan (f : FormData) : list Kind :=
  KProduct :: groupKinds (optionGroups f)
  ++ match variants f with [] => [] | _ :: _ => [KVariants] end.

(** Nothing but requests. *)
Definition onlySends (effs : list Effect) : Prop :=
  Forall (fun e => exists m, e = Send m) effs.

Definition isPrefix {A} (p l : list A) : Prop := exists r, l = p ++ r.

Definition navigates (effs : list Effect) : Prop :=
  exists path, In (Navigate path) effs.

Definition sendsVariants (effs : list Effect) : Prop :=
  exists inputs, In (Send (CREATE_PRODUCT_VARIANTS inputs)) effs.

Definition successToast : Toast :=
  mkToast "Success" "Product created successfully" "success".

(** An API that creates what it is asked for: product ["p1"], and for a
    group a copy with id ["G-" ++ code] whose options have ids
    ["O-" ++ code]. *)
Definition obliging : Apollo :=
  mkApollo
    (fun _ _ => Gives (Some (mkCreatedProduct "p1")))
    (fun _ code _ options =>
       Gives (Some (mkCreatedGroup ("G-" ++ code) code
                (Some (map (fun o => mkCreatedOption ("O-" ++ oi_code o) (oi_code o))
                           options)))))
    (fun _ _ _ => Gives tt)
    (fun _ _ => Gives tt).

Definition noDetails : Details := mkDetails None true None [] [].

(** An API that creates what it is asked for: a product with an id, and
    for each group a group with the same code whose options have the codes
    asked for, in order, and ids. *)
Definition echoes (apollo : Apollo) : Prop :=
  (forall n input, exists p,
     createProduct apollo n input = Gives (Some p) /\ cp_id p <> "")
  /\ (forall n code name options, exists cg cos,
        createProductOptionGroup apollo n code name options = Gives (Some cg)
        /\ cg_code cg = code /\ cg_options cg = Some cos
        /\ Forall2 (fun oi co => co_code co = oi_code oi /\ co_id co <> "")
                   options cos)
  /\ (forall n p g, exists u, addOptionGroupToProduct apollo n p g = Gives u)
  /\ (forall n inputs, exists u, createProductVariants apollo n inputs = Gives u).

(** Group codes are distinct, and so are the option codes inside each
    group. *)
Definition distinctCodes (f : FormData) : Prop :=
  NoDup (map og_code (optionGroups f))
  /\ Forall (fun g => NoDup (map opt_code (og_options g))) (optionGroups f).

(** The created group [cg] is the copy of the group [g] of the form. *)
Definition copyOf (g : OptionGroup) (cg : CreatedGroup) : Prop :=
  cg_code cg = og_code g
  /\ exists cos, cg_options cg = Some cos
       /\ Forall2 (fun o co => co_code co = opt_code o /\ co_id co <> "")
                  (og_options g) cos.

End ProductSubmitSpec.

(** ** Statements about what the listing pages display *)

Module ListingViewSpec.
Import Ui Listing ListingView.


(** The options a fetch sends for the pagination [pg]. *)
Definition optionsOf (pg : Pagination) : ListOptions :=
  mkListOptions (pageSize pg) (pageIndex pg * pageSize pg).



(** The characters of [s] other than white space. *)
Definition withoutSpaces (s : string) : list ascii :=
  filter (fun c => negb (Js.isSpace c)) (list_ascii_of_string s).

Definition noSpace (s : string) : Prop :=
  Forall (fun c => Js.isSpace c = false) (list_ascii_of_string s).

Definition noCapital (s : string) : Prop :=
  Forall (fun c => isAsciiUpper c = false) (list_ascii_of_string s).



End ListingViewSpec.

(** ** Statements about the submission of the attribute form *)

Module FacetSubmitSpec.
Import Ui FacetForm FacetSubmit.

Fixpoint sent (effs : list Effect) : list FacetInput :=
  match effs with
  | [] => []
  | Send i :: rest => i :: sent rest
  | _ :: rest => sent rest
  end.

Fixpoint facetToasts (effs : list Effect) : list Toast :=
  match effs with
  | [] => []
  | ShowToast t :: rest => t :: facetToasts rest
  | _ :: rest => facetToasts rest
  end.

Fixpoint paths (effs : list Effect) : list string :=
  match effs with
  | [] => []
  | Navigate p :: rest => p :: paths rest
  | _ :: rest => paths rest
  end.

(** The reply holds a created attribute with an id. *)
Definition created (a : ProductSubmit.Answer (option CreatedFacet)) : bool :=
  match a with
  | ProductSubmit.Gives (Some c) => Js.truthy (facet_id c)
  | _ => false
  end.

(** [c] is made of the characters a-z, 0-9 and hyphen only. *)
Definition slugChars (c : string) : Prop :=
  Forall (fun x => Js.isSlugChar x = true) (list_ascii_of_string c).

Definition sizeForm : FormData := mkForm "Size" "size" false ["Extra Large"; "S"].

Definition creating : Apollo :=
  fun _ => ProductSubmit.Gives (Some (mkCreatedFacet "f1")).

End FacetSubmitSpec.

(** ** More statements about the order-creation page *)

Module OrderSessionSpec.
Import Ui OrderCreate OrderCreateSpec.


(** The order a mutation is about; [CREATE_DRAFT_ORDER] has no variable. *)
Definition orderIdOf (m : Mutation) : option string :=
  match m with
  | CREATE_DRAFT_ORDER => None
  | ADD_ITEM_TO_DRAFT_ORDER orderId _ _ => Some orderId
  | REMOVE_DRAFT_ORDER_LINE orderId _ => Some orderId
  | SET_DRAFT_ORDER_CUSTOMER orderId _ => Some orderId
  | SET_DRAFT_ORDER_SHIPPING_ADDRESS orderId _ => Some orderId
  | SET_DRAFT_ORDER_BILLING_ADDRESS orderId _ => Some orderId
  | TRANSITION_ORDER_TO_STATE id _ => Some id
  end.


Fixpoint requestsOf (effs : list Effect) : list Request :=
  match effs with
  | [] => []
  | Send r :: rest => r :: requestsOf rest
  | _ :: rest => requestsOf rest
  end.

Fixpoint toastsOf (effs : list Effect) : list Toast :=
  match effs with
  | [] => []
  | ShowToast t :: rest => t :: toastsOf rest
  | _ :: rest => toastsOf rest
  end.

Fixpoint pathsOf (effs : list Effect) : list string :=
  match effs with
  | [] => []
  | Navigate p :: rest => p :: pathsOf rest
  | _ :: rest => pathsOf rest
  end.

Definition customerComplete (c : CustomerForm) : bool :=
  Js.truthy (firstName c) && Js.truthy (lastName c)
  && Js.truthy (emailAddress c).

Definition addressComplete (a : AddressForm) : bool :=
  Js.truthy (fullName a) && Js.truthy (streetLine1 a) && Js.truthy (city a)
  && Js.truthy (province a) && Js.truthy (postalCode a)
  && Js.truthy (countryCode a).


Definition pageHolding (o : Order) : Page :=
  set_draftOrder initialPage (Some (IsOrder o)).

End OrderSessionSpec.

(** ** Statements about additions in flight *)

Module AddItemInFlightSpec.
Import Ui OrderCreate OrderCreateSpec OrderSessionSpec AddItemInFlight.



End AddItemInFlightSpec.

(** * Properties *)

(** ** JavaScript values *)

Module JsFacts.
Import Js.

Lemma truthy_true_iff (s : string) : truthy s = true <-> s <> "".
Proof. destruct s; simpl; split; congruence. Qed.

Lemma or_else_truthy (a b : string) : truthy a = true -> or_else a b = a.
Proof. unfold or_else; intros ->; reflexivity. Qed.

Lemma or_else_nonempty (a b : string) : a <> "" -> or_else a b = a.
Proof. intros H; apply or_else_truthy, truthy_true_iff, H. Qed.

End JsFacts.

(** ** The variant combination generator *)

Module ProductFormFacts.
Import Js JsFacts ProductForm ProductFormSpec.

Lemma flat_map_length_const {A B} (f : A -> list B) (n : nat) (l : list A) :
  (forall x, List.length (f x) = n) ->
  List.length (flat_map f l) = (List.length l * n)%nat.
Proof.
  intros Hf; induction l as [|x l IH]; simpl; [reflexivity|].
  rewrite length_app, Hf, IH; reflexivity.
Qed.

(** Unfolding of the generator on two groups or more. *)
Lemma generateCombinations_cons2 (g g' : OptionGroup) (r : list OptionGroup) :
  generateCombinations (g :: g' :: r) =
  flat_map (fun o => map (fun rc => select g o :: rc)
                         (generateCombinations (g' :: r)))
           (validOptions g).
Proof. reflexivity. Qed.

Lemma generateCombinations_length (g : OptionGroup) (r : list OptionGroup) :
  List.length (generateCombinations (g :: r)) =
  productOf (map (fun g => List.length (validOptions g)) (g :: r)).
Proof.
  revert g; induction r as [|g' r IH]; intros g.
  - simpl. rewrite length_map. unfold validOptions. lia.
  - rewrite generateCombinations_cons2.
    rewrite (flat_map_length_const _ (List.length (generateCombinations (g' :: r)))).
    + rewrite IH. reflexivity.
    + intros o. apply length_map.
Qed.

Lemma generateCombinations_picks (gs : list OptionGroup) (c : list Selection) :
  In c (generateCombinations gs) -> Forall2 picksFrom c gs.
Proof.
  revert c; induction gs as [|g r IH]; intros c Hc; [destruct Hc|].
  destruct r as [|g' r].
  - simpl in Hc. apply in_map_iff in Hc as (o & <- & Ho).
    apply filter_In in Ho as [Ho Hv].
    constructor; [|constructor].
    split; [reflexivity|]. exists o; auto.
  - rewrite generateCombinations_cons2 in Hc.
    apply in_flat_map in Hc as (o & Ho & Hc).
    apply in_map_iff in Hc as (rc & <- & Hrc).
    apply filter_In in Ho as [Ho Hv].
    constructor; [|apply IH, Hrc].
    split; [reflexivity|]. exists o; auto.
Qed.

Lemma filter_all {A} (p : A -> bool) (l : list A) :
  Forall (fun x => p x = true) l -> filter p l = l.
Proof.
  induction 1 as [|x l Hx _ IH]; simpl; [reflexivity|].
  rewrite Hx, IH; reflexivity.
Qed.

Lemma validGroups_all (f : FormData) :
  allOptionsValid f -> noEmptyGroup f -> validGroups f = optionGroups f.
Proof.
  unfold allOptionsValid, noEmptyGroup, validGroups.
  intros Hv Hn. apply filter_all.
  rewrite Forall_forall in *. intros g Hg.
  specialize (Hv g Hg). specialize (Hn g Hg).
  unfold hasValidOption, some.
  destruct (og_options g) as [|o os]; [congruence|].
  inversion Hv as [|? ? Ho _]; subst. simpl. rewrite Ho. reflexivity.
Qed.

Lemma validOptions_all (gs : list OptionGroup) :
  Forall (fun g => Forall (fun o => validOption o = true) (og_options g)) gs ->
  map (fun g => List.length (validOptions g)) gs =
  map (fun g => List.length (og_options g)) gs.
Proof.
  induction 1 as [|g gs Hg _ IH]; simpl; [reflexivity|].
  unfold validOptions at 1. rewrite (filter_all _ _ Hg), IH. reflexivity.
Qed.

(** What [generateVariants] stores when there is at least one group. *)
Lemma generateVariants_nonempty (f : FormData) :
  optionGroups f <> [] ->
  variants (generateVariants f) =
  map (variantOf f) (generateCombinations (validGroups f)).
Proof.
  intros Hne. unfold generateVariants, validGroups.
  destruct (optionGroups f) as [|g gs] eqn:E; [congruence|].
  destruct (filter hasValidOption (g :: gs)); reflexivity.
Qed.

Lemma variants_options (f : FormData) :
  optionGroups f <> [] ->
  map v_options (variants (generateVariants f)) =
  generateCombinations (validGroups f).
Proof.
  intros Hne. rewrite (generateVariants_nonempty f Hne), map_map.
  simpl. apply map_id.
Qed.

Lemma NoDup_map_inj {A B} (h : A -> B) (l : list A) (x y : A) :
  NoDup (map h l) -> In x l -> In y l -> h x = h y -> x = y.
Proof.
  induction l as [|a l IH]; simpl; intros Hnd Hx Hy E; [destruct Hx|].
  inversion Hnd as [|? ? Hna Hnd']; subst.
  destruct Hx as [<-|Hx], Hy as [<-|Hy]; auto.
  - exfalso; apply Hna. rewrite E. apply in_map, Hy.
  - exfalso; apply Hna. rewrite <- E. apply in_map, Hx.
Qed.

Lemma Forall2_In_left {A B} (P : A -> B -> Prop) (l : list A) (l' : list B)
  (x : A) :
  Forall2 P l l' -> In x l -> exists y, In y l' /\ P x y.
Proof.
  induction 1 as [|a b l l' Hab _ IH]; simpl; intros Hx; [destruct Hx|].
  destruct Hx as [<-|Hx].
  - exists b; auto.
  - destruct (IH Hx) as (y & Hy & Hp). exists y; auto.
Qed.

Example shirtTwoByTwo_variants :
  map (fun v => (v_name v, v_sku v)) (variants (generateVariants shirtTwoByTwo)) =
  [ ("Shirt - Red / S", "shirt-red-s"); ("Shirt - Red / L", "shirt-red-l");
    ("Shirt - Blue / S", "shirt-blue-s"); ("Shirt - Blue / L", "shirt-blue-l") ].
Proof. reflexivity. Qed.

(** C1, as stated, fails: in [shirtWithEmptyGroup] every option of every
    group is valid and the sizes are 1 and 0, so the product is 0; the
    generator drops the group without options and stores one variant, with
    one selection instead of two. *)
Lemma product_property_fails_with_empty_group :
  allOptionsValid shirtWithEmptyGroup /\ ~ productProperty shirtWithEmptyGroup.
Proof.
  split.
  - repeat constructor.
  - intros [Hlen _]. vm_compute in Hlen. discriminate Hlen.
Qed.

(** C1, amended: when every group has at least one option and every option
    is valid (non-empty name and code), [generateVariants] stores exactly
    [k1 * ... * kN] variants for groups of sizes [k1..kN], and the options of
    each variant are exactly N selections, the i-th one picking an option of
    the i-th group. *)
Theorem generateVariants_product (f : FormData) :
  allOptionsValid f -> noEmptyGroup f -> productProperty f.
Proof.
  intros Hv Hn. unfold productProperty.
  destruct (optionGroups f) as [|g gs] eqn:E.
  - unfold generateVariants. rewrite E. simpl.
    split; [reflexivity|]. repeat constructor.
  - assert (Hne : optionGroups f <> []) by (rewrite E; discriminate).
    rewrite (generateVariants_nonempty f Hne), (validGroups_all f Hv Hn), E.
    split.
    + rewrite length_map, generateCombinations_length.
      f_equal. apply validOptions_all. rewrite <- E. exact Hv.
    + apply Forall_forall. intros v Hin.
      apply in_map_iff in Hin as (c & <- & Hc). simpl.
      pose proof (generateCombinations_picks _ _ Hc) as H2.
      split; [apply (Forall2_length H2)|exact H2].
Qed.

Lemma generateVariants_product_witness :
  allOptionsValid shirtTwoByTwo /\ noEmptyGroup shirtTwoByTwo
  /\ productProperty shirtTwoByTwo.
Proof.
  assert (Hv : allOptionsValid shirtTwoByTwo) by (repeat constructor).
  assert (Hn : noEmptyGroup shirtTwoByTwo)
    by (repeat constructor; discriminate).
  split; [exact Hv|]. split; [exact Hn|].
  exact (generateVariants_product shirtTwoByTwo Hv Hn).
Defined.

Lemma filter_idem {A} (p : A -> bool) (l : list A) :
  filter p (filter p l) = filter p l.
Proof.
  apply filter_all, Forall_forall. intros x Hx.
  apply filter_In in Hx. tauto.
Qed.

(** C3, as stated, fails: without groups and with the product name still
    empty, the one variant is named ["Default"], not after the product. *)
Lemma default_variant_not_named_after_empty_product :
  optionGroups emptyForm = []
  /\ ~ defaultVariantProperty (name emptyForm) emptyForm.
Proof.
  split; [reflexivity|].
  intros (v & Hv & Hname & _). vm_compute in Hv.
  inversion Hv; subst v. discriminate Hname.
Qed.

(** C3, amended: with no option group, [generateVariants] stores exactly one
    variant, with no option selection; it is named after the product when
    the product name is not empty, and ["Default"] when it is. *)
Theorem generateVariants_no_groups (f : FormData) :
  optionGroups f = [] ->
  defaultVariantProperty (Js.or_else (name f) "Default") f
  /\ (name f <> "" -> defaultVariantProperty (name f) f)
  /\ (name f = "" -> defaultVariantProperty "Default" f).
Proof.
  intros E.
  assert (H : defaultVariantProperty (Js.or_else (name f) "Default") f).
  { unfold defaultVariantProperty, generateVariants. rewrite E. simpl.
    eexists; repeat split. }
  split; [exact H|]. split.
  - intros Hn. rewrite (or_else_nonempty _ _ Hn) in H. exact H.
  - intros Hn. rewrite Hn in H. exact H.
Qed.

Lemma generateVariants_no_groups_witness :
  optionGroups (mkForm "Mug" "mug" [] []) = []
  /\ defaultVariantProperty "Mug" (mkForm "Mug" "mug" [] []).
Proof.
  split; [reflexivity|].
  apply (generateVariants_no_groups (mkForm "Mug" "mug" [] []) eq_refl).
  discriminate.
Defined.

(** *** Names and SKUs *)

Lemma generateCombinations_chosen (gs : list OptionGroup) (c : list Selection) :
  In c (generateCombinations gs) ->
  exists os, chosenFrom gs os /\ c = selectAll gs os.
Proof.
  revert c; induction gs as [|g r IH]; intros c Hc; [destruct Hc|].
  destruct r as [|g' r].
  - simpl in Hc. apply in_map_iff in Hc as (o & <- & Ho).
    apply filter_In in Ho as [Ho Hv].
    exists [o]. split; [repeat constructor; assumption|reflexivity].
  - rewrite generateCombinations_cons2 in Hc.
    apply in_flat_map in Hc as (o & Ho & Hc).
    apply in_map_iff in Hc as (rc & <- & Hrc).
    apply filter_In in Ho as [Ho Hv].
    destruct (IH rc Hrc) as (os & Hos & ->).
    exists (o :: os). split; [constructor; auto|reflexivity].
Qed.

Lemma find_by_id {A} (h : A -> string) (l : list A) (x : A) :
  NoDup (map h l) -> In x l -> find (fun y => h y =? h x) l = Some x.
Proof.
  unfold find.
  induction l as [|a l IH]; simpl; intros Hnd Hx; [destruct Hx|].
  inversion Hnd as [|? ? Hna Hnd']; subst.
  destruct Hx as [->|Hx].
  - rewrite String.eqb_refl. reflexivity.
  - destruct (String.eqb_spec (h a) (h x)) as [E|_]; [|auto].
    exfalso; apply Hna. rewrite E. apply in_map, Hx.
Qed.

Lemma lookupOption_select (f : FormData) (g : OptionGroup) (o : ProductOption) :
  uniqueIds f -> In g (optionGroups f) -> In o (og_options g) ->
  lookupOption f (select g o) = Some o.
Proof.
  intros [Hg Ho] Hing Hino. unfold lookupOption. simpl.
  rewrite (find_by_id og_id _ g Hg Hing).
  rewrite Forall_forall in Ho.
  apply (find_by_id opt_id _ o (Ho g Hing) Hino).
Qed.

Lemma validOption_name (o : ProductOption) :
  validOption o = true -> truthy (opt_name o) = true.
Proof. unfold validOption. intros H. apply andb_prop in H. tauto. Qed.

Lemma validOption_code (o : ProductOption) :
  validOption o = true -> truthy (opt_code o) = true.
Proof. unfold validOption. intros H. apply andb_prop in H. tauto. Qed.

(** Looking the selections up again gives back the names and the codes of
    the chosen options, none of which is dropped as empty. *)
Lemma lookups_of_selectAll (f : FormData) (gs : list OptionGroup)
  (os : list ProductOption) :
  uniqueIds f -> incl gs (optionGroups f) -> chosenFrom gs os ->
  filter truthy (map (lookupName f) (selectAll gs os)) = map opt_name os
  /\ filter truthy (map (lookupCode f) (selectAll gs os)) = map opt_code os.
Proof.
  intros Hu Hincl Hch. induction Hch as [|g o gs os [Ho Hv] _ IH].
  - split; reflexivity.
  - assert (Hg : In g (optionGroups f)) by (apply Hincl; left; reflexivity).
    assert (Hincl' : incl gs (optionGroups f))
      by (intros x Hx; apply Hincl; right; exact Hx).
    destruct (IH Hincl') as [IHn IHc].
    assert (En : lookupName f (select g o) = opt_name o).
    { unfold lookupName. rewrite (lookupOption_select f g o Hu Hg Ho).
      apply or_else_truthy, validOption_name, Hv. }
    assert (Ec : lookupCode f (select g o) = opt_code o).
    { unfold lookupCode. rewrite (lookupOption_select f g o Hu Hg Ho).
      apply or_else_truthy, validOption_code, Hv. }
    unfold selectAll in *. simpl. rewrite En, Ec.
    rewrite (validOption_name o Hv), (validOption_code o Hv), IHn, IHc.
    split; reflexivity.
Qed.

Lemma NoDup_map_filter {A B} (h : A -> B) (p : A -> bool) (l : list A) :
  NoDup (map h l) -> NoDup (map h (filter p l)).
Proof.
  induction l as [|a l IH]; simpl; intros Hnd; [constructor|].
  inversion Hnd as [|? ? Hna Hnd']; subst.
  destruct (p a); simpl; [|auto].
  constructor; [|auto].
  intros Hin. apply Hna.
  apply in_map_iff in Hin as (x & Hx & Hin).
  apply filter_In in Hin as [Hin _].
  rewrite <- Hx. apply in_map, Hin.
Qed.

Lemma uniqueIds_validGroups (f : FormData) :
  uniqueIds f -> uniqueIds (set_optionGroups f (validGroups f)).
Proof.
  intros [Hg Ho]. split; simpl.
  - apply NoDup_map_filter, Hg.
  - rewrite Forall_forall in *. intros g Hin.
    apply filter_In in Hin as [Hin _]. apply Ho, Hin.
Qed.

(** With distinct group ids, a selection made in a group that has a valid
    option refers to the same option whether it is looked up among all the
    groups or among those with a valid option. *)
Lemma lookupOption_validGroups (f : FormData) (g : OptionGroup) (s : Selection) :
  NoDup (map og_id (optionGroups f)) -> In g (validGroups f) ->
  optionGroupId s = og_id g ->
  lookupOption (set_optionGroups f (validGroups f)) s = lookupOption f s.
Proof.
  intros Hnd Hg Hs. unfold lookupOption. simpl. rewrite Hs.
  rewrite (find_by_id og_id (validGroups f) g);
    [|apply NoDup_map_filter, Hnd|exact Hg].
  rewrite (find_by_id og_id (optionGroups f) g); [reflexivity|exact Hnd|].
  apply filter_In in Hg. tauto.
Qed.

Lemma variantOf_validGroups (f : FormData) (c : list Selection) :
  NoDup (map og_id (optionGroups f)) ->
  In c (generateCombinations (validGroups f)) ->
  variantOf (set_optionGroups f (validGroups f)) c = variantOf f c.
Proof.
  intros Hnd Hc.
  pose proof (generateCombinations_picks _ _ Hc) as Hp.
  assert (L : forall s, In s c ->
              lookupOption (set_optionGroups f (validGroups f)) s
              = lookupOption f s).
  { intros s Hs.
    destruct (Forall2_In_left _ _ _ _ Hp Hs) as (g & Hg & Hid & _).
    apply (lookupOption_validGroups f g s Hnd Hg Hid). }
  assert (Ln : map (lookupName (set_optionGroups f (validGroups f))) c
               = map (lookupName f) c).
  { apply map_ext_in. intros s Hs. unfold lookupName. rewrite (L s Hs).
    reflexivity. }
  assert (Lc : map (lookupCode (set_optionGroups f (validGroups f))) c
               = map (lookupCode f) c).
  { apply map_ext_in. intros s Hs. unfold lookupCode. rewrite (L s Hs).
    reflexivity. }
  unfold variantOf, generateVariantName, generateVariantSku.
  rewrite Ln, Lc. reflexivity.
Qed.

Lemma variants_of_validGroups (f : FormData) :
  optionGroups f <> [] -> validGroups f <> [] ->
  NoDup (map og_id (optionGroups f)) ->
  variants (generateVariants (set_optionGroups f (validGroups f)))
  = variants (generateVariants f).
Proof.
  intros Hne Hvalid Hnd.
  rewrite (generateVariants_nonempty f Hne).
  rewrite generateVariants_nonempty by exact Hvalid.
  assert (E : validGroups (set_optionGroups f (validGroups f)) = validGroups f)
    by (unfold validGroups; simpl; apply filter_idem).
  rewrite E.
  apply map_ext_in. intros c Hc. apply variantOf_validGroups; assumption.
Qed.

(** C2, as stated, fails.  When no group of the form has a valid option,
    the generator stores no variant at all, whereas run on the remaining
    groups, of which there are none, it gives the default variant.  And
    when a group without a valid option bears the id of another group, the
    names and SKUs are looked up in it: the variant stored is not the one
    the remaining group gives. *)
Lemma no_valid_group_gives_no_variant :
  (validGroups shirtWithOnlyEmptyGroup = []
   /\ variants (generateVariants shirtWithOnlyEmptyGroup) = []
   /\ variants (generateVariants
                  (set_optionGroups shirtWithOnlyEmptyGroup
                     (validGroups shirtWithOnlyEmptyGroup)))
      = [mkVariant "Shirt" "shirt" 0 0 true []]
   /\ ~ exclusionProperty shirtWithOnlyEmptyGroup)
  /\ (map v_name (variants (generateVariants shirtWithSharedGroupId))
      = ["Shirt"]
      /\ map v_name
           (variants (generateVariants
                        (set_optionGroups shirtWithSharedGroupId
                           (validGroups shirtWithSharedGroupId))))
         = ["Shirt - Red"]
      /\ ~ exclusionProperty shirtWithSharedGroupId).
Proof.
  split; (split; [reflexivity|]); (split; [reflexivity|]).
  - split; [reflexivity|]. intros H. discriminate H.
  - intros H. apply (f_equal (map v_name)) in H. discriminate H.
Qed.

(** C2, amended: a group without a valid option takes no part in the
    product.  For a form with at least one group, the option lists of the
    stored variants are the combinations of the groups that have a valid
    option, so each variant has one selection per such group, in their
    order.  When at least one group has a valid option, running the
    generator on those groups alone gives the same option lists and, the
    group ids being distinct, exactly the same variants; and no selection
    carries the id of an excluded group.  When no group has a valid option,
    no variant is stored. *)
Theorem invalid_groups_excluded (f : FormData) :
  optionGroups f <> [] ->
  let vs := variants (generateVariants f) in
  map v_options vs = generateCombinations (validGroups f)
  /\ Forall (fun v => Forall2 picksFrom (v_options v) (validGroups f)) vs
  /\ (validGroups f = [] -> vs = [])
  /\ (validGroups f <> [] ->
      map v_options
          (variants (generateVariants (set_optionGroups f (validGroups f))))
      = map v_options vs)
  /\ (validGroups f <> [] -> NoDup (map og_id (optionGroups f)) ->
      variants (generateVariants (set_optionGroups f (validGroups f))) = vs)
  /\ forall g, In g (optionGroups f) -> hasValidOption g = false ->
       NoDup (map og_id (optionGroups f)) ->
       Forall (fun v => Forall (fun s => optionGroupId s <> og_id g) (v_options v))
              vs.
Proof.
  intros Hne vs.
  assert (Hopts : map v_options vs = generateCombinations (validGroups f))
    by (apply variants_options, Hne).
  assert (Hpick : Forall (fun v => Forall2 picksFrom (v_options v) (validGroups f)) vs).
  { apply Forall_forall. intros v Hv.
    apply generateCombinations_picks. rewrite <- Hopts. apply in_map, Hv. }
  split; [exact Hopts|]. split; [exact Hpick|]. split; [|split; [|split]].
  - intros E. rewrite E in Hopts. simpl in Hopts.
    destruct vs; [reflexivity|discriminate Hopts].
  - intros Hvalid. rewrite Hopts.
    rewrite variants_options by exact Hvalid.
    unfold validGroups. simpl. rewrite filter_idem. reflexivity.
  - intros Hvalid Hu. apply (variants_of_validGroups f Hne Hvalid Hu).
  - intros g Hg Hbad Hnd.
    apply Forall_forall. intros v Hv. apply Forall_forall. intros s Hs.
    rewrite Forall_forall in Hpick. specialize (Hpick v Hv).
    destruct (Forall2_In_left _ _ _ _ Hpick Hs) as (g' & Hg' & Hid & _).
    apply filter_In in Hg' as [Hg'in Hg'ok].
    intros Heq. rewrite Hid in Heq.
    assert (g' = g) by (apply (NoDup_map_inj og_id (optionGroups f)); auto).
    subst g'. congruence.
Qed.

Lemma invalid_groups_excluded_witness :
  optionGroups shirtWithEmptyGroup <> []
  /\ validGroups shirtWithEmptyGroup <> []
  /\ NoDup (map og_id (optionGroups shirtWithEmptyGroup))
  /\ variants (generateVariants
                 (set_optionGroups shirtWithEmptyGroup
                    (validGroups shirtWithEmptyGroup)))
     = variants (generateVariants shirtWithEmptyGroup).
Proof.
  assert (Hne : optionGroups shirtWithEmptyGroup <> []) by discriminate.
  assert (Hvalid : validGroups shirtWithEmptyGroup <> []) by discriminate.
  assert (Hnd : NoDup (map og_id (optionGroups shirtWithEmptyGroup))).
  { repeat constructor; simpl; intuition discriminate. }
  split; [exact Hne|]. split; [exact Hvalid|]. split; [exact Hnd|].
  exact (proj1 (proj2 (proj2 (proj2 (proj2
    (invalid_groups_excluded shirtWithEmptyGroup Hne))))) Hvalid Hnd).
Defined.

(** C4, as stated, fails: with an empty slug the SKU of the one variant of
    [shirtWithoutSlug] is ["product-red"], not the slug followed by the
    codes, which would be ["-red"]. *)
Lemma sku_not_slug_when_slug_empty :
  uniqueIds shirtWithoutSlug
  /\ ~ namingProperty (slug shirtWithoutSlug) shirtWithoutSlug.
Proof.
  split.
  - split; repeat constructor; simpl; tauto.
  - intros H.
    destruct (H (mkVariant "Shirt - Red" "product-red" 0 0 true
                           [mkSelection "g1" "o1"]))
      as (os & Hch & _ & _ & Hsku); [left; reflexivity|].
    vm_compute in Hch.
    inversion Hch as [|g o gs os' [Ho _] Hrest]; subst.
    inversion Hrest; subst.
    destruct Ho as [<-|[]].
    discriminate Hsku.
Qed.

(** C4, amended: when ids are distinct and there is at least one group, every
    stored variant selects one valid option [o1..oN] in each group that has
    one, is named [name - o1.name / ... / oN.name], and has the SKU
    [base-o1.code-...-oN.code], where [base] is the slug or, when the slug
    is empty, ["product"]. *)
Theorem variant_name_and_sku (f : FormData) :
  uniqueIds f -> optionGroups f <> [] ->
  namingProperty (Js.or_else (slug f) "product") f.
Proof.
  intros Hu Hne v Hv.
  rewrite (generateVariants_nonempty f Hne) in Hv.
  apply in_map_iff in Hv as (c & <- & Hc).
  destruct (generateCombinations_chosen _ _ Hc) as (os & Hch & ->).
  exists os. split; [exact Hch|]. split; [reflexivity|].
  assert (Hincl : incl (validGroups f) (optionGroups f)).
  { intros g Hg. apply filter_In in Hg. tauto. }
  destruct (lookups_of_selectAll f _ _ Hu Hincl Hch) as [Hn Hk].
  assert (Hos : os <> []).
  { intros ->. inversion Hch as [E|]. rewrite <- E in Hc. destruct Hc. }
  simpl. unfold generateVariantName, generateVariantSku.
  rewrite Hn, Hk.
  destruct os as [|o os]; [congruence|]. simpl. split; reflexivity.
Qed.

Lemma variant_name_and_sku_witness :
  uniqueIds shirtTwoByTwo /\ optionGroups shirtTwoByTwo <> []
  /\ namingProperty "shirt" shirtTwoByTwo.
Proof.
  assert (Hu : uniqueIds shirtTwoByTwo).
  { split; repeat constructor; simpl; intuition discriminate. }
  assert (Hne : optionGroups shirtTwoByTwo <> []) by discriminate.
  split; [exact Hu|]. split; [exact Hne|].
  exact (variant_name_and_sku shirtTwoByTwo Hu Hne).
Defined.

(** Without distinct ids the lookup by id may find another option: here the
    second group reuses the id of the first, and both selections of the one
    variant are looked up in the first group. *)
Example shared_group_id_confuses_names :
  map v_name
    (variants (generateVariants
       (mkForm "Shirt" "shirt"
          [ mkGroup "g" "Color" "color" [mkOption "o1" "Red" "red"];
            mkGroup "g" "Size" "size" [mkOption "o2" "L" "l"] ] [])))
  = ["Shirt - Red"].
Proof. reflexivity. Qed.

End ProductFormFacts.

(** ** Slug and code generation *)

Module SlugFacts.
Import Js JsFacts SlugSpec.

(** Case analysis on the 256 code units. *)
Ltac by_cases_on c :=
  destruct c as [[] [] [] [] [] [] [] []]; vm_compute; try reflexivity;
  try discriminate; auto.

Lemma isSpace_toLowerChar (c : ascii) : isSpace (toLowerChar c) = isSpace c.
Proof. by_cases_on c. Qed.

Lemma slugChar_toLowerChar (c : ascii) :
  isSlugChar c = true -> toLowerChar c = c.
Proof. by_cases_on c. Qed.

Lemma slugChar_not_space (c : ascii) : isSlugChar c = true -> isSpace c = false.
Proof. by_cases_on c. Qed.

Lemma slugKeep_split (c : ascii) : slugKeep c = isSlugChar c || isSpace c.
Proof. by_cases_on c. Qed.

Lemma slugChar_keep (c : ascii) : isSlugChar c = true -> slugKeep c = true.
Proof. intros H. rewrite slugKeep_split, H. reflexivity. Qed.

Lemma space_keep (c : ascii) : isSpace c = true -> slugKeep c = true.
Proof. intros H. rewrite slugKeep_split, H. apply orb_true_r. Qed.

Lemma slugOf_chars (s : string) :
  slugOf s = string_of_list_ascii (slugL (list_ascii_of_string s)).
Proof.
  unfold slugOf, trim, replaceSpaceRuns, removeOutside, toLowerCase, onChars, slugL.
  rewrite !list_ascii_of_string_of_list_ascii. reflexivity.
Qed.

Lemma replaceSpaceRunsL_noSpace (st : bool) (l : list ascii) :
  noSpace (replaceSpaceRunsL st "-" l).
Proof.
  revert st; induction l as [|c l IH]; intros st; simpl; [constructor|].
  destruct (isSpace c) eqn:E.
  - destruct st; [apply IH|]. constructor; [reflexivity|apply IH].
  - constructor; [exact E|apply IH].
Qed.

Lemma trimStartL_noSpace (l : list ascii) : noSpace l -> trimStartL l = l.
Proof. destruct 1 as [|c l Hc _]; simpl; [|rewrite Hc]; reflexivity. Qed.

Lemma trimL_noSpace (l : list ascii) : noSpace l -> trimL l = l.
Proof.
  intros H. unfold trimL. rewrite (trimStartL_noSpace l H).
  rewrite trimStartL_noSpace; [apply rev_involutive|].
  apply Forall_rev, H.
Qed.

(** After the white space has become hyphens, [trim] finds nothing to strip. *)
Lemma slugL_no_trim (l : list ascii) :
  slugL l = replaceSpaceRunsL false "-" (filter slugKeep (map toLowerChar l)).
Proof. unfold slugL. apply trimL_noSpace, replaceSpaceRunsL_noSpace. Qed.

Lemma replaceSpaceRunsL_slugChars (st : bool) (l : list ascii) :
  Forall (fun c => slugKeep c = true) l ->
  slugChars (replaceSpaceRunsL st "-" l).
Proof.
  intros H; revert st; induction H as [|c l Hc _ IH]; intros st; simpl;
    [constructor|].
  destruct (isSpace c) eqn:E.
  - destruct st; [apply IH|]. constructor; [reflexivity|apply IH].
  - constructor; [|apply IH].
    rewrite slugKeep_split, E, orb_false_r in Hc. exact Hc.
Qed.

Lemma slugL_slugChars (l : list ascii) : slugChars (slugL l).
Proof.
  rewrite slugL_no_trim. apply replaceSpaceRunsL_slugChars.
  apply Forall_forall. intros c Hc. apply filter_In in Hc. tauto.
Qed.

Lemma replaceSpaceRunsL_fixed (st : bool) (l : list ascii) :
  noSpace l -> replaceSpaceRunsL st "-" l = l.
Proof.
  intros H; revert st; induction H as [|c l Hc _ IH]; intros st; simpl;
    [reflexivity|].
  rewrite Hc, IH. reflexivity.
Qed.

Lemma slugL_fixed (l : list ascii) : slugChars l -> slugL l = l.
Proof.
  intros H. rewrite slugL_no_trim.
  assert (Hm : map toLowerChar l = l).
  { clear -H. induction H as [|c l Hc _ IH]; simpl; [reflexivity|].
    rewrite (slugChar_toLowerChar c Hc), IH. reflexivity. }
  assert (Hf : filter slugKeep l = l).
  { clear -H. induction H as [|c l Hc _ IH]; simpl; [reflexivity|].
    rewrite (slugChar_keep c Hc), IH. reflexivity. }
  rewrite Hm, Hf. apply replaceSpaceRunsL_fixed.
  unfold noSpace. eapply Forall_impl; [|exact H].
  intros c Hc. apply slugChar_not_space, Hc.
Qed.

Lemma slugOf_idempotent (s : string) : slugOf (slugOf s) = slugOf s.
Proof.
  rewrite (slugOf_chars (slugOf s)), (slugOf_chars s).
  rewrite list_ascii_of_string_of_list_ascii.
  rewrite (slugL_fixed _ (slugL_slugChars _)). reflexivity.
Qed.

(** C6: slug and code generation is idempotent.  The transformation applied
    to a generated slug returns it unchanged; [generateSlug] (product form)
    and [generateCode] (attribute form) run a second time on the same form
    change nothing; a form whose name is a generated slug gets that very
    name as its slug or code; and the slug generated from a name does not
    depend on the slug the form held before. *)
Theorem slug_generation_idempotent :
  (forall s, slugOf (slugOf s) = slugOf s)
  /\ (forall f, ProductForm.generateSlug (ProductForm.generateSlug f)
                = ProductForm.generateSlug f)
  /\ (forall f, FacetForm.generateCode (FacetForm.generateCode f)
                = FacetForm.generateCode f)
  /\ (forall f, ProductForm.name f <> "" ->
        ProductForm.slug
          (ProductForm.generateSlug
             (ProductForm.mkForm
                (ProductForm.slug (ProductForm.generateSlug f)) ""
                (ProductForm.optionGroups f) (ProductForm.variants f)))
        = ProductForm.slug (ProductForm.generateSlug f))
  /\ (forall f, FacetForm.name f <> "" ->
        FacetForm.code
          (FacetForm.generateCode
             (FacetForm.mkForm
                (FacetForm.code (FacetForm.generateCode f)) ""
                (FacetForm.isPrivate f) (FacetForm.values f)))
        = FacetForm.code (FacetForm.generateCode f))
  /\ (forall f s, ProductForm.name f <> "" ->
        ProductForm.slug (ProductForm.generateSlug (ProductForm.set_slug f s))
        = ProductForm.slug (ProductForm.generateSlug f)).
Proof.
  split; [exact slugOf_idempotent|].
  split; [|split; [|split; [|split]]].
  - intros f. unfold ProductForm.generateSlug.
    destruct (truthy (ProductForm.name f)) eqn:E; simpl; rewrite E; reflexivity.
  - intros f. unfold FacetForm.generateCode.
    destruct (truthy (FacetForm.name f)) eqn:E; simpl; rewrite E; reflexivity.
  - intros f Hn. apply truthy_true_iff in Hn.
    unfold ProductForm.generateSlug. rewrite Hn. simpl.
    destruct (truthy (slugOf (ProductForm.name f))) eqn:E; simpl.
    + apply slugOf_idempotent.
    + destruct (slugOf (ProductForm.name f)); [reflexivity|discriminate E].
  - intros f Hn. apply truthy_true_iff in Hn.
    unfold FacetForm.generateCode. rewrite Hn. simpl.
    destruct (truthy (slugOf (FacetForm.name f))) eqn:E; simpl.
    + apply slugOf_idempotent.
    + destruct (slugOf (FacetForm.name f)); [reflexivity|discriminate E].
  - intros f s Hn. apply truthy_true_iff in Hn.
    unfold ProductForm.generateSlug. simpl. rewrite Hn. reflexivity.
Qed.

Lemma slug_generation_idempotent_witness :
  slugOf (slugOf "Blue  Mug, large") = "blue-mug-large".
Proof.
  rewrite (proj1 slug_generation_idempotent "Blue  Mug, large").
  reflexivity.
Defined.

(** *** What becomes a hyphen and what disappears *)

Lemma list_ascii_of_string_app (a b : string) :
  list_ascii_of_string (a ++ b)
  = list_ascii_of_string a ++ list_ascii_of_string b.
Proof. induction a as [|c a IH]; simpl; [|rewrite IH]; reflexivity. Qed.

Lemma string_of_list_ascii_app (x y : list ascii) :
  string_of_list_ascii (x ++ y)
  = (string_of_list_ascii x ++ string_of_list_ascii y)%string.
Proof. induction x as [|c x IH]; simpl; [|rewrite IH]; reflexivity. Qed.

Lemma kept_app (x y : list ascii) : kept (x ++ y) = kept x ++ kept y.
Proof. unfold kept. rewrite map_app, filter_app. reflexivity. Qed.

Lemma replaceSpaceRunsL_app (st : bool) (r : ascii) (x y : list ascii) :
  replaceSpaceRunsL st r (x ++ y)
  = replaceSpaceRunsL st r x ++ replaceSpaceRunsL (stateAfter st x) r y.
Proof.
  revert st; induction x as [|c x IH]; intros st; simpl; [reflexivity|].
  destruct (isSpace c); [destruct st|]; simpl; rewrite IH; reflexivity.
Qed.

Lemma stateAfter_snoc (st : bool) (x : list ascii) (c : ascii) :
  stateAfter st (x ++ [c]) = isSpace c.
Proof. revert st; induction x as [|d x IH]; intros st; simpl; auto. Qed.

(** A run of white space that follows white space leaves no trace. *)
Lemma replaceSpaceRunsL_in_run (r : ascii) (w y : list ascii) :
  forallb isSpace w = true ->
  replaceSpaceRunsL true r (w ++ y) = replaceSpaceRunsL true r y.
Proof.
  induction w as [|c w IH]; simpl; intros H; [reflexivity|].
  apply andb_prop in H as [Hc Hw]. rewrite Hc. apply IH, Hw.
Qed.

Lemma stateAfter_kept_clean (a : string) :
  endsWithSlugChar a = true ->
  stateAfter false (kept (list_ascii_of_string a)) = false.
Proof.
  unfold endsWithSlugChar. intros H.
  destruct (rev (list_ascii_of_string a)) as [|c r] eqn:E.
  - apply (f_equal (@rev ascii)) in E. rewrite rev_involutive in E.
    rewrite E. reflexivity.
  - apply (f_equal (@rev ascii)) in E. rewrite rev_involutive in E.
    rewrite E. simpl. rewrite kept_app. unfold kept at 2. simpl.
    rewrite (slugChar_keep _ H), stateAfter_snoc.
    apply slugChar_not_space, H.
Qed.

Lemma replaceSpaceRunsL_kept_clean (st : bool) (b : string) :
  startsWithSlugChar b = true ->
  replaceSpaceRunsL st "-" (kept (list_ascii_of_string b))
  = replaceSpaceRunsL false "-" (kept (list_ascii_of_string b)).
Proof.
  destruct b as [|c b]; simpl; intros H; [reflexivity|].
  unfold kept. simpl. rewrite (slugChar_keep _ H). simpl.
  rewrite (slugChar_not_space _ H). reflexivity.
Qed.

Lemma kept_spaces (w : list ascii) :
  forallb isSpace w = true -> kept w = map toLowerChar w
  /\ forallb isSpace (kept w) = true.
Proof.
  induction w as [|c w IH]; simpl; intros H; [split; reflexivity|].
  apply andb_prop in H as [Hc Hw]. destruct (IH Hw) as [E1 E2].
  unfold kept in *. simpl.
  assert (Hs : isSpace (toLowerChar c) = true)
    by (rewrite isSpace_toLowerChar; exact Hc).
  rewrite (space_keep _ Hs), E1. split; [reflexivity|].
  simpl. rewrite Hs. rewrite E1 in E2. exact E2.
Qed.

Lemma slugL_space_run (a ws b : string) :
  ws <> "" -> allSpace ws = true ->
  endsWithSlugChar a = true -> startsWithSlugChar b = true ->
  slugL (list_ascii_of_string (a ++ ws ++ b))
  = slugL (list_ascii_of_string a) ++ "-"%char :: slugL (list_ascii_of_string b).
Proof.
  intros Hne Hws Ha Hb.
  rewrite !slugL_no_trim, !list_ascii_of_string_app.
  fold (kept (list_ascii_of_string a ++ list_ascii_of_string ws
              ++ list_ascii_of_string b)).
  fold (kept (list_ascii_of_string a)) (kept (list_ascii_of_string b)).
  rewrite !kept_app, replaceSpaceRunsL_app, (stateAfter_kept_clean a Ha).
  f_equal.
  destruct (kept_spaces _ Hws) as [_ Hk].
  destruct ws as [|c ws]; [congruence|].
  destruct (kept (list_ascii_of_string (String c ws))) as [|d w] eqn:E.
  - unfold kept in E. simpl in E. unfold allSpace in Hws. simpl in Hws.
    apply andb_prop in Hws as [Hc _].
    rewrite <- isSpace_toLowerChar in Hc. rewrite (space_keep _ Hc) in E.
    discriminate E.
  - simpl in Hk. apply andb_prop in Hk as [Hd Hw].
    simpl. rewrite Hd. f_equal.
    rewrite (replaceSpaceRunsL_in_run _ _ _ Hw).
    apply replaceSpaceRunsL_kept_clean, Hb.
Qed.

Lemma slugL_deletes (a b : list ascii) (c : ascii) :
  slugKeep (toLowerChar c) = false -> slugL (a ++ c :: b) = slugL (a ++ b).
Proof.
  intros H. rewrite !slugL_no_trim, !map_app, !filter_app. simpl.
  rewrite H. reflexivity.
Qed.

Lemma toLowerChar_idempotent (c : ascii) :
  toLowerChar (toLowerChar c) = toLowerChar c.
Proof. by_cases_on c. Qed.

(** Lower-casing first changes nothing. *)
Lemma slugL_toLowerCaseL (l : list ascii) : slugL (toLowerCaseL l) = slugL l.
Proof.
  rewrite !slugL_no_trim. unfold toLowerCaseL. rewrite map_map.
  f_equal. f_equal. apply map_ext. intros c. apply toLowerChar_idempotent.
Qed.

(** Without white space, the slug is what lower-casing and the first
    replacement leave. *)
Lemma slugL_without_space (l : list ascii) :
  noSpace l -> slugL l = filter isSlugChar (map toLowerChar l).
Proof.
  intros H. rewrite slugL_no_trim.
  assert (E : filter slugKeep (map toLowerChar l)
              = filter isSlugChar (map toLowerChar l)).
  { clear -H. induction H as [|c l Hc _ IH]; simpl; [reflexivity|].
    rewrite slugKeep_split, isSpace_toLowerChar, Hc, orb_false_r, IH.
    reflexivity. }
  rewrite E. apply replaceSpaceRunsL_fixed.
  apply Forall_forall. intros c Hc. apply filter_In in Hc as [_ Hc].
  apply slugChar_not_space, Hc.
Qed.

(** C5, as stated, fails: the exclamation mark of ["a!b"] is not a letter or
    a digit, yet it is deleted, not turned into a hyphen; so are the
    generated slug of the product form and the code of the attribute form. *)
Lemma punctuation_deleted_not_hyphenated :
  describedSlug "a!b" = "a-b"
  /\ slugOf "a!b" = "ab"
  /\ ProductForm.slug (ProductForm.generateSlug (ProductForm.mkForm "a!b" "" [] []))
     <> describedSlug "a!b"
  /\ FacetForm.code (FacetForm.generateCode (FacetForm.mkForm "a!b" "" false []))
     <> describedSlug "a!b".
Proof. repeat split; vm_compute; congruence. Qed.

(** C5, amended: the name is lower-cased; a character that is then not a
    letter a-z, a digit, white space or a hyphen is deleted, and the letters,
    digits and hyphens stay, in their order; a run of white space between
    characters that stay (or at an end of the name) becomes exactly one
    hyphen; and the result is made of lower-case letters, digits and hyphens
    only.  So the slug of a name without white space is the lower-cased
    name without the characters other than a-z, 0-9 and hyphen, and a name
    made of these characters only is its own slug. *)
Theorem slug_deletes_and_hyphenates :
  (forall a c b, slugKeep (toLowerChar c) = false ->
     slugOf (a ++ String c b) = slugOf (a ++ b))
  /\ (forall a ws b, ws <> "" -> allSpace ws = true ->
        endsWithSlugChar a = true -> startsWithSlugChar b = true ->
        slugOf (a ++ ws ++ b) = (slugOf a ++ "-" ++ slugOf b)%string)
  /\ (forall s, forallb isSlugChar (list_ascii_of_string (slugOf s)) = true)
  /\ (forall s, noSpace (list_ascii_of_string s) ->
        slugOf s = removeOutside isSlugChar (toLowerCase s))
  /\ (forall s, slugOf (toLowerCase s) = slugOf s)
  /\ (forall s, slugChars (list_ascii_of_string s) -> slugOf s = s).
Proof.
  split; [|split; [|split; [|split; [|split]]]]; cycle 3.
  - intros s H. rewrite slugOf_chars, (slugL_without_space _ H).
    unfold removeOutside, toLowerCase, onChars, removeOutsideL, toLowerCaseL.
    rewrite list_ascii_of_string_of_list_ascii. reflexivity.
  - intros s. rewrite !slugOf_chars. unfold toLowerCase, onChars.
    rewrite list_ascii_of_string_of_list_ascii, slugL_toLowerCaseL.
    reflexivity.
  - intros s H. rewrite slugOf_chars, (slugL_fixed _ H).
    apply string_of_list_ascii_of_string.
  - intros a c b H. rewrite !slugOf_chars, !list_ascii_of_string_app. simpl.
    rewrite (slugL_deletes _ _ _ H). reflexivity.
  - intros a ws b Hne Hws Ha Hb.
    rewrite !slugOf_chars, (slugL_space_run a ws b Hne Hws Ha Hb).
    rewrite string_of_list_ascii_app. reflexivity.
  - intros s. rewrite slugOf_chars, list_ascii_of_string_of_list_ascii.
    apply forallb_forall. intros c Hc.
    pose proof (slugL_slugChars (list_ascii_of_string s)) as H.
    unfold slugChars in H. rewrite Forall_forall in H. apply H, Hc.
Qed.

Lemma slug_deletes_and_hyphenates_witness :
  slugOf ("a" ++ String "!" "b") = slugOf ("a" ++ "b")
  /\ slugOf ("Blue" ++ "   " ++ "Mug") = (slugOf "Blue" ++ "-" ++ slugOf "Mug")%string
  /\ slugOf "Blue-Mug_2!" = removeOutside isSlugChar (toLowerCase "Blue-Mug_2!")
  /\ slugOf "blue-mug-2" = "blue-mug-2".
Proof.
  destruct slug_deletes_and_hyphenates as (Hdel & Hrun & _ & Hkeep & _ & Hfix).
  split; [|split; [|split]].
  - apply Hdel. reflexivity.
  - apply Hrun; [discriminate|reflexivity|reflexivity|reflexivity].
  - apply Hkeep. repeat constructor.
  - apply Hfix. repeat constructor.
Defined.

End SlugFacts.

(** ** Listing pages *)

Module ListingFacts.
Import Ui Listing ListingSpec.

Section WithItem.

Context {Item : Type}.

Lemma fetchList_requests (doc : QueryDoc) (failMsg : string)
  (client : Apollo Item) (pg : Page Item) :
  requests (snd (fetchList doc failMsg (Some client) pg))
  = [QueryReq doc
       (mkListOptions (pageSize (pagination pg))
                      (pageIndex (pagination pg) * pageSize (pagination pg)))].
Proof.
  unfold fetchList. simpl.
  destruct (query client doc _) as [msg|d]; reflexivity.
Qed.

Lemma fetchList_offline (doc : QueryDoc) (failMsg : string) (pg : Page Item) :
  requests (snd (fetchList doc failMsg None pg)) = [].
Proof. reflexivity. Qed.

(** C7: on each listing page with a pagination state (products, orders,
    attributes), with page index [p] and page size [s], the fetch function
    sends exactly one query, whose options are [take = s] and [skip = p * s];
    and choosing another page [n] of the pager sets the index to [n - 1] and
    fetches with [skip = (n - 1) * s].  (The collections page has no
    pagination state: it fetches at most 100 rows at once.) *)
Theorem fetch_sends_skip_take (client : Apollo Item) (pg : Page Item) :
  let p := pageIndex (pagination pg) in
  let s := pageSize (pagination pg) in
  (requests (snd (fetchProducts (Some client) pg))
   = [QueryReq GET_PRODUCTS (mkListOptions s (p * s))]
   /\ requests (snd (fetchOrders (Some client) pg))
      = [QueryReq GET_ORDERS (mkListOptions s (p * s))]
   /\ requests (snd (fetchFacets (Some client) pg))
      = [QueryReq GET_FACETS (mkListOptions s (p * s))])
  /\ (forall doc msg r,
        In r (requests (snd (fetchList doc msg (Some client) pg))) ->
        exists o, r = QueryReq doc o /\ skip o = (p * s)%Z /\ take o = s)
  /\ (forall doc msg n, (n - 1)%Z <> p ->
        requests (snd (updatePage (fetchList doc msg) (Some client) n pg))
        = [QueryReq doc (mkListOptions s ((n - 1) * s))]).
Proof.
  intros p s. split; [|split].
  - unfold fetchProducts, fetchOrders, fetchFacets.
    rewrite !fetchList_requests. auto.
  - intros doc msg r Hr. rewrite fetchList_requests in Hr.
    destruct Hr as [<-|[]]. eexists; split; [reflexivity|]. split; reflexivity.
  - intros doc msg n Hn. unfold updatePage.
    destruct (Z.eqb_spec (n - 1) (pageIndex (pagination pg))) as [E|_];
      [contradiction|].
    rewrite fetchList_requests. reflexivity.
Qed.

Lemma deleteProduct_failed (client : Apollo Item) (id nm : string)
  (pg : Page Item) :
  deletionFailed (mutateDelete client id) = true ->
  fst (deleteProduct id nm (Some client) pg) = pg
  /\ exists d, snd (deleteProduct id nm (Some client) pg)
               = [Send (DeleteProductReq id); ShowToast (mkToast "Error" d "error")].
Proof.
  unfold deleteProduct, deletionFailed, deleteFailedToast.
  destruct (mutateDelete client id) as [msg|[r|]]; simpl.
  - intros _. split; [reflexivity|]. eexists; reflexivity.
  - intros H. apply negb_true_iff in H. rewrite H.
    split; [reflexivity|]. eexists; reflexivity.
  - intros _. split; [reflexivity|]. eexists; reflexivity.
Qed.

End WithItem.

Lemma fetch_sends_skip_take_witness :
  requests (snd (fetchProducts (Some noProducts) fourthPage))
  = [QueryReq GET_PRODUCTS (mkListOptions 10 30)].
Proof.
  exact (proj1 (proj1 (fetch_sends_skip_take noProducts fourthPage))).
Defined.

End ListingFacts.

(** ** Order-creation page *)

Module OrderCreateFacts.
Import Ui OrderCreate OrderCreateSpec.

Lemma mutations_app (x y : list Effect) :
  mutations (x ++ y) = mutations x ++ mutations y.
Proof.
  induction x as [|e x IH]; simpl; [reflexivity|].
  destruct e as [[m|k q]|t|path]; simpl; rewrite ?IH; reflexivity.
Qed.

(** Splits every test a handler makes, remembering the outcome. *)
Ltac split_tests :=
  repeat match goal with
  | |- context [match ?x with _ => _ end] => destruct x eqn:?; simpl
  | |- context [if ?x then _ else _] => destruct x eqn:?; simpl
  end.

Ltac unfold_handlers :=
  unfold handle, initializeDraftOrder, loadProducts, addItemToOrder,
    removeItemFromOrder, saveCustomer, saveShippingAddress, saveBillingAddress,
    copyShippingToBilling, completeOrder, onCancel.

(** *** Transitions *)

Lemma handle_transitions (apollo : Apollo) (e : Event) (p : Page) :
  Forall asksArrangingPayment (mutations (snd (handle apollo e p))).
Proof.
  destruct e; unfold_handlers; split_tests;
    repeat constructor.
Qed.

Lemma run_cons (apollo : Apollo) (e : Event) (rest : list (Apollo * Event))
  (p : Page) :
  run ((apollo, e) :: rest) p
  = (fst (run rest (fst (handle apollo e p))),
     snd (handle apollo e p) ++ snd (run rest (fst (handle apollo e p)))).
Proof.
  simpl. destruct (handle apollo e p) as [p1 effs]. simpl.
  destruct (run rest p1); reflexivity.
Qed.

(** C9: in every execution of the order-creation page, whatever the events
    and whatever the API replies, every [TransitionOrderToState] mutation the
    page sends asks for the state ["ArrangingPayment"]; and it is sent by
    "Complete Order" only, for the draft order the page holds. *)
Theorem transitions_only_to_ArrangingPayment
  (steps : list (Apollo * Event)) (p : Page) :
  Forall asksArrangingPayment (mutations (snd (run steps p)))
  /\ (forall id state,
        In (TRANSITION_ORDER_TO_STATE id state) (mutations (snd (run steps p))) ->
        state = "ArrangingPayment")
  /\ (forall apollo e id state,
        In (TRANSITION_ORDER_TO_STATE id state)
           (mutations (snd (handle apollo e p))) ->
        e = ClickCompleteOrder /\ draftOrderId p = Some id).
Proof.
  assert (H : forall steps p,
             Forall asksArrangingPayment (mutations (snd (run steps p)))).
  { clear. intros steps. induction steps as [|[apollo e] rest IH]; intros p.
    - constructor.
    - rewrite run_cons. simpl. rewrite mutations_app.
      apply Forall_app. split; [apply handle_transitions|apply IH]. }
  split; [apply H|]. split.
  - intros id state Hin. specialize (H steps p).
    rewrite Forall_forall in H. apply (H _ Hin).
  - intros apollo e id state.
    destruct e; unfold_handlers; split_tests; simpl;
      intuition (try discriminate; try congruence; auto).
Qed.

Example shortSession_mutations :
  mutations (snd (run shortSession initialPage))
  = [ CREATE_DRAFT_ORDER;
      ADD_ITEM_TO_DRAFT_ORDER "7" "v1" 1;
      TRANSITION_ORDER_TO_STATE "7" "ArrangingPayment" ].
Proof. reflexivity. Qed.

Lemma transitions_only_to_ArrangingPayment_witness :
  In (TRANSITION_ORDER_TO_STATE "7" "ArrangingPayment")
     (mutations (snd (run shortSession initialPage)))
  /\ forall id state,
       In (TRANSITION_ORDER_TO_STATE id state)
          (mutations (snd (run shortSession initialPage))) ->
       state = "ArrangingPayment".
Proof.
  split.
  - simpl. tauto.
  - exact (proj1 (proj2
      (transitions_only_to_ArrangingPayment shortSession initialPage))).
Defined.

(** *** Adding a variant that is already in the order *)

Lemma isVariantInOrder_iff (v : string) (p : Page) :
  isVariantInOrder v p = true <-> In v (lineVariants p).
Proof.
  unfold isVariantInOrder, lineVariants, draftOrderLines, orderVariants.
  destruct (draftOrder p) as [[o|c m]|]; try (simpl; split; [discriminate|tauto]).
  destruct (o_lines o) as [ls|]; [|simpl; split; [discriminate|tauto]].
  unfold Js.some. rewrite existsb_exists, in_flat_map.
  split; intros (l & Hl & H); exists l; (split; [exact Hl|]);
    unfold lineHasVariant, variantOfLine in *;
    destruct (productVariant l) as [pv|]; simpl in *; try discriminate; try tauto.
  - apply String.eqb_eq in H. auto.
  - destruct H as [H|[]]. apply String.eqb_eq, H.
Qed.

(** X22: [addItemToOrder] called with a variant that is among the lines the
    page holds sends nothing and leaves the page as it is; it shows one
    toast, the informational one whenever the order has an id.  So every
    addition that is sent is for a variant that is not among the lines held
    when the row is clicked, with quantity 1, for the order held. *)
Theorem add_of_present_variant_refused :
  (forall apollo v n p,
     isVariantInOrder v p = true ->
     fst (addItemToOrder v n apollo p) = p
     /\ mutations (snd (addItemToOrder v n apollo p)) = []
     /\ (exists t, snd (addItemToOrder v n apollo p) = [ShowToast t])
     /\ (draftOrderId p <> None ->
         snd (addItemToOrder v n apollo p) = [ShowToast infoToast]))
  /\ (forall apollo e p orderId v q,
        In (ADD_ITEM_TO_DRAFT_ORDER orderId v q)
           (mutations (snd (handle apollo e p))) ->
        isVariantInOrder v p = false /\ q = 1%Z /\ draftOrderId p = Some orderId).
Proof.
  split.
  - intros apollo v n p H. unfold addItemToOrder. rewrite H.
    destruct (draftOrderId p); simpl; repeat split; eauto; congruence.
  - intros apollo e p orderId v q.
    destruct e; unfold_handlers; split_tests; simpl;
      intuition (try discriminate; try congruence).
Qed.

Lemma add_of_present_variant_refused_witness :
  isVariantInOrder "v1" (set_draftOrder initialPage (Some (IsOrder (order7 [mugLine]))))
  = true
  /\ mutations
       (snd (addItemToOrder "v1" "Mug" (answering (order7 [mugLine; mugLine]))
               (set_draftOrder initialPage (Some (IsOrder (order7 [mugLine]))))))
     = [].
Proof.
  split; [reflexivity|].
  apply (proj1 add_of_present_variant_refused
           (answering (order7 [mugLine; mugLine])) "v1" "Mug"
           (set_draftOrder initialPage (Some (IsOrder (order7 [mugLine]))))).
  reflexivity.
Defined.

End OrderCreateFacts.

(** ** Failed mutations *)

Module MutationFailureFacts.
Import Ui OrderCreate OrderCreateSpec OrderCreateFacts MutationFailureSpec.

Example add_with_error_result :
  addItemToOrder "v1" "Mug" outOfStock pageWithOrder7
  = (set_draftOrder initialPage
       (Some (ErrorResult "INSUFFICIENT_STOCK_ERROR" "Only 0 items were added")),
     [ Send (MutateReq (ADD_ITEM_TO_DRAFT_ORDER "7" "v1" 1));
       ShowToast (successToast "Mug added to order") ]).
Proof. reflexivity. Qed.

(** C8: the code breaks the claim when a mutation fails with an error
    result.  On a page that holds order 7, the reply to the addition of a
    variant carries an error result in place of the order: [addItemToOrder]
    does not look at the reply, as [initializeDraftOrder] and
    [deleteProduct] do, stores the error result in place of the draft order
    and shows the toast of a success.  So a failed mutation does more than
    show a toast, and the loaded state is not the one held before. *)
Lemma error_result_replaces_draft_order :
  mutationFailed
    (mutate outOfStock (ADD_ITEM_TO_DRAFT_ORDER "7" "v1" 1)) = true
  /\ addItemToOrder "v1" "Mug" outOfStock pageWithOrder7
     = (set_draftOrder initialPage
          (Some (ErrorResult "INSUFFICIENT_STOCK_ERROR"
                             "Only 0 items were added")),
        [ Send (MutateReq (ADD_ITEM_TO_DRAFT_ORDER "7" "v1" 1));
          ShowToast (successToast "Mug added to order") ])
  /\ ~ failureOnlyToasts mutationFailed outOfStock (ClickVariant "v1" "Mug")
        pageWithOrder7.
Proof.
  split; [reflexivity|]. split; [reflexivity|].
  intros H.
  destruct (H (ADD_ITEM_TO_DRAFT_ORDER "7" "v1" 1)) as (Hd & _).
  - simpl. tauto.
  - reflexivity.
  - discriminate Hd.
Qed.

Lemma handle_rejected (apollo : Apollo) (e : Event) (p : Page) :
  failureOnlyToasts rejected apollo e p.
Proof.
  unfold failureOnlyToasts, rejected. intros m Hin Hrej.
  destruct (mutate apollo m) as [msg|d] eqn:Em; [clear Hrej|discriminate Hrej].
  destruct e; revert Hin; unfold_handlers; split_tests; simpl;
    intros Hin;
    repeat match goal with
    | H : _ \/ _ |- _ => destruct H
    | H : False |- _ => destruct H
    end; subst; try congruence;
    (split; [simpl; congruence|]); (split; [auto|]); eexists; reflexivity.
Qed.

(** X21: when the request of a mutation is rejected (a network error, or
    errors in the GraphQL reply), the handler that sent it shows one error
    toast and does nothing else, and the loaded state is the one held
    before: on the order-creation page the stored draft order and every
    other ref but [loading], which is reset to false; on the products page
    the whole page state, also when the reply of [deleteProduct] does not
    say ["DELETED"] or the API client is missing. *)
Theorem rejected_mutation_only_toasts :
  (forall apollo e p, failureOnlyToasts rejected apollo e p)
  /\ (forall (Item : Type) (client : Listing.Apollo Item) id nm
             (pg : Listing.Page Item),
        ListingSpec.deletionFailed (Listing.mutateDelete client id) = true ->
        fst (Listing.deleteProduct id nm (Some client) pg) = pg
        /\ exists d,
             snd (Listing.deleteProduct id nm (Some client) pg)
             = [ Listing.Send (Listing.DeleteProductReq id);
                 Listing.ShowToast (mkToast "Error" d "error") ])
  /\ (forall (Item : Type) id nm (pg : Listing.Page Item),
        fst (Listing.deleteProduct id nm None pg) = pg
        /\ exists d,
             snd (Listing.deleteProduct id nm None pg)
             = [ Listing.ShowToast (mkToast "Error" d "error") ]).
Proof.
  split; [exact handle_rejected|]. split.
  - intros Item client id nm pg H.
    apply ListingFacts.deleteProduct_failed, H.
  - intros Item id nm pg. split; [reflexivity|]. eexists; reflexivity.
Qed.

(** The reply to the transition carries an error result: [completeOrder]
    does not look at it, announces a success and leaves the page. *)
Example complete_with_error_result :
  snd (completeOrder outOfStock pageWithOrder7)
  = [ Send (MutateReq (TRANSITION_ORDER_TO_STATE "7" "ArrangingPayment"));
      ShowToast (successToast "Order completed successfully");
      Navigate "/orders" ].
Proof. reflexivity. Qed.

Lemma rejected_mutation_only_toasts_witness :
  draftOrder (fst (handle offline (ClickVariant "v1" "Mug") pageWithOrder7))
  = draftOrder pageWithOrder7.
Proof.
  apply (proj1 rejected_mutation_only_toasts offline (ClickVariant "v1" "Mug")
           pageWithOrder7 (ADD_ITEM_TO_DRAFT_ORDER "7" "v1" 1)).
  - simpl. tauto.
  - reflexivity.
Defined.

End MutationFailureFacts.

(** ** Option groups and the tag input *)

Module ProductOptionsFacts.
Import Js JsFacts ProductForm ProductOptions ProductFormSpec ProductOptionsSpec.

(** *** Lists changed at one index *)

Lemma Forall_removeAt {A} (P : A -> Prop) (i : nat) (xs : list A) :
  Forall P xs -> Forall P (removeAt i xs).
Proof.
  intros H; revert i; induction H as [|x xs Hx H' IH]; intros i;
    destruct i; simpl; try constructor; auto.
Qed.

Lemma Forall_updateAt {A} (P : A -> Prop) (i : nat) (c : A -> A) (xs : list A) :
  (forall x, nth_error xs i = Some x -> P x -> P (c x)) ->
  Forall P xs -> Forall P (updateAt i c xs).
Proof.
  intros Hc H; revert i Hc; induction H as [|x xs Hx H' IH]; intros i Hc;
    destruct i; simpl; try constructor; auto.
Qed.

Lemma nth_error_updateAt {A} (i : nat) (c : A -> A) (xs : list A) (x : A) :
  nth_error xs i = Some x -> nth_error (updateAt i c xs) i = Some (c x).
Proof.
  revert i; induction xs as [|y xs IH]; intros i; destruct i; simpl;
    try discriminate; auto.
  intros H. inversion H. reflexivity.
Qed.

Lemma updateAt_updateAt {A} (i : nat) (c d : A -> A) (xs : list A) :
  updateAt i d (updateAt i c xs) = updateAt i (fun x => d (c x)) xs.
Proof.
  revert i; induction xs as [|y xs IH]; intros i; destruct i; simpl;
    rewrite ?IH; reflexivity.
Qed.

Lemma updateAt_same {A} (i : nat) (c : A -> A) (xs : list A) :
  (forall x, nth_error xs i = Some x -> c x = x) -> updateAt i c xs = xs.
Proof.
  revert i; induction xs as [|y xs IH]; intros i H; destruct i; simpl;
    auto.
  - rewrite H; reflexivity.
  - rewrite IH; auto.
Qed.

Lemma removeAt_last {A} (xs : list A) (x : A) :
  removeAt (List.length xs) (xs ++ [x]) = xs.
Proof. induction xs as [|y xs IH]; simpl; [|rewrite IH]; reflexivity. Qed.

Lemma NoDup_map_removeAt {A B} (h : A -> B) (i : nat) (xs : list A) :
  NoDup (map h xs) -> NoDup (map h (removeAt i xs)).
Proof.
  revert i; induction xs as [|x xs IH]; intros i H; destruct i; simpl; auto.
  - inversion H; assumption.
  - inversion H as [|? ? Hn Hd]; subst. constructor; [|auto].
    intros Hin. apply Hn. clear -Hin.
    revert i Hin; induction xs as [|y xs IH]; intros i Hin; destruct i;
      simpl in *; auto.
    destruct Hin as [E|Hin]; eauto.
Qed.

Lemma Forall2_updateAt {A} (R : A -> A -> Prop) (i : nat) (c : A -> A)
  (xs : list A) :
  (forall x, R x x) -> (forall x, R x (c x)) -> Forall2 R xs (updateAt i c xs).
Proof.
  intros Hr Hc; revert i; induction xs as [|x xs IH]; intros i; destruct i;
    simpl; constructor; auto.
  clear IH. induction xs; constructor; auto.
Qed.

Lemma Forall2_filter {A} (R : A -> A -> Prop) (p : A -> bool) (xs ys : list A) :
  (forall x y, R x y -> p x = p y) ->
  Forall2 R xs ys -> Forall2 R (filter p xs) (filter p ys).
Proof.
  intros Hp H; induction H as [|x y xs ys Hxy _ IH]; simpl; [constructor|].
  rewrite <- (Hp x y Hxy). destruct (p x); [constructor|]; auto.
Qed.

(** *** [trim] *)

Lemma trimStartL_clean (l : list ascii) : startsClean (trimStartL l).
Proof.
  induction l as [|c l IH]; simpl; [exact I|].
  destruct (isSpace c) eqn:E; [exact IH|exact E].
Qed.

Lemma trimStartL_fixed (l : list ascii) : startsClean l -> trimStartL l = l.
Proof. destruct l as [|c l]; simpl; [reflexivity|]. intros ->. reflexivity. Qed.

Lemma trimStartL_suffix (l : list ascii) :
  exists p, l = p ++ trimStartL l.
Proof.
  induction l as [|c l (p & IH)]; simpl; [exists []; reflexivity|].
  destruct (isSpace c).
  - exists (c :: p). simpl. rewrite <- IH. reflexivity.
  - exists []. reflexivity.
Qed.

Lemma startsClean_app_l (x y : list ascii) :
  startsClean (x ++ y) -> x <> [] -> startsClean x.
Proof. destruct x; simpl; [congruence|auto]. Qed.

Lemma trimL_clean (l : list ascii) :
  startsClean (trimL l) /\ startsClean (rev (trimL l)).
Proof.
  unfold trimL. set (a := trimStartL l). set (b := trimStartL (rev a)).
  split.
  - destruct (trimStartL_suffix (rev a)) as (p & Hp). fold b in Hp.
    destruct b as [|c b'] eqn:Eb; [exact I|].
    apply (f_equal (@rev ascii)) in Hp. rewrite rev_involutive, rev_app_distr in Hp.
    apply (startsClean_app_l _ (rev p)).
    + rewrite <- Hp. apply trimStartL_clean.
    + simpl. intros E. apply app_eq_nil in E as [_ E]. discriminate E.
  - rewrite rev_involutive. apply trimStartL_clean.
Qed.

Lemma trimL_idempotent (l : list ascii) : trimL (trimL l) = trimL l.
Proof.
  destruct (trimL_clean l) as [H1 H2].
  unfold trimL at 1.
  rewrite (trimStartL_fixed _ H1), (trimStartL_fixed _ H2).
  apply rev_involutive.
Qed.

Lemma trim_idempotent (s : string) : trim (trim s) = trim s.
Proof.
  unfold trim, onChars. rewrite list_ascii_of_string_of_list_ascii.
  rewrite trimL_idempotent. reflexivity.
Qed.

(** *** The editing functions *)

Lemma optionGroups_generateVariants (f : FormData) :
  optionGroups (generateVariants f) = optionGroups f.
Proof.
  unfold generateVariants.
  destruct (optionGroups f) as [|g gs] eqn:E; [simpl; auto|].
  destruct (filter hasValidOption (g :: gs)); simpl; auto.
Qed.

Lemma optionGroups_generateSlug (f : FormData) :
  optionGroups (generateSlug f) = optionGroups f.
Proof. unfold generateSlug. destruct (truthy (name f)); reflexivity. Qed.

Lemma optionGroups_handleNameBlur (f : FormData) :
  optionGroups (handleNameBlur f) = optionGroups f.
Proof.
  unfold handleNameBlur.
  destruct (truthy (name f) && negb (truthy (slug f)));
    [apply optionGroups_generateSlug|reflexivity].
Qed.

Lemma not_sameName (nm : string) (g : OptionGroup) :
  some (sameName nm) (og_options g) = false ->
  ~ In (toLowerCase nm) (lowerNames g).
Proof.
  unfold some, lowerNames. intros H Hin.
  apply in_map_iff in Hin as (o & Ho & Hin).
  assert (existsb (sameName nm) (og_options g) = true); [|congruence].
  apply existsb_exists. exists o. split; [exact Hin|].
  unfold sameName. rewrite Ho. apply String.eqb_refl.
Qed.

Lemma NoDup_snoc {A} (l : list A) (x : A) :
  NoDup l -> ~ In x l -> NoDup (l ++ [x]).
Proof.
  intros Hl Hx. apply NoDup_app; [exact Hl|repeat constructor; simpl; tauto|].
  intros y Hy [<-|[]]. exact (Hx Hy).
Qed.

Lemma addOptionFromInput_tidy (id : string) (i : nat) (nm : string)
  (f : FormData) :
  nm <> "" -> trim nm = nm -> tidyForm f ->
  tidyForm (addOptionFromInput id i nm f).
Proof.
  intros Hne Htrim Hf. unfold addOptionFromInput.
  destruct (nth_error (optionGroups f) i) as [g|] eqn:Eg; [|exact Hf].
  destruct (some (sameName nm) (og_options g)) eqn:Es; [exact Hf|].
  unfold tidyForm. simpl. apply Forall_updateAt; [|exact Hf].
  intros x Hx [Hnd Hall]. rewrite Eg in Hx. inversion Hx; subst x.
  split.
  - unfold lowerNames. simpl. rewrite map_app. simpl.
    apply NoDup_snoc; [exact Hnd|apply not_sameName, Es].
  - simpl. apply Forall_app. split; [exact Hall|].
    constructor; [|constructor]. repeat split; assumption.
Qed.

Lemma removeOption_tidy (i j : nat) (f : FormData) :
  tidyForm f -> tidyForm (removeOption i j f).
Proof.
  intros Hf. unfold removeOption.
  destruct (nth_error (optionGroups f) i); [|exact Hf].
  unfold tidyForm. simpl. apply Forall_updateAt; [|exact Hf].
  intros x _ [Hnd Hall]. split.
  - unfold lowerNames. simpl. apply NoDup_map_removeAt, Hnd.
  - simpl. apply Forall_removeAt, Hall.
Qed.

Lemma handleOptionKeydown_tidy (id : string) (ev : KeyEvent) (i : nat)
  (st : TagForm) :
  tidyForm (form st) -> tidyForm (form (fst (handleOptionKeydown id ev i st))).
Proof.
  intros Hf. unfold handleOptionKeydown.
  set (value := trim (targetValue ev)).
  assert (H1 : tidyForm (form (fst
    (if ((key ev =? "Enter") || (key ev =? ",") || (key ev =? " "))
        && truthy value
     then (setOptionInputValue i ""
             (mkTagForm (addOptionFromInput id i value (form st))
                        (optionInputValues st)), true)
     else (st, false))))).
  { destruct (((key ev =? "Enter") || (key ev =? ",") || (key ev =? " "))
              && truthy value) eqn:E; [|exact Hf].
    simpl. apply andb_prop in E as [_ E].
    apply addOptionFromInput_tidy; [apply truthy_true_iff, E| |exact Hf].
    apply trim_idempotent. }
  destruct (if ((key ev =? "Enter") || (key ev =? ",") || (key ev =? " "))
               && truthy value
            then _ else _) as [st1 prevented].
  simpl in H1.
  destruct ((key ev =? "Backspace") && negb (truthy value)); [|exact H1].
  destruct (nth_error (optionGroups (form st1)) i) as [g|]; [|exact H1].
  destruct (og_options g); [exact H1|].
  simpl. apply removeOption_tidy, H1.
Qed.

Lemma applyEdit_tidy (e : Edit) (st : TagForm) :
  tidyForm (form st) -> tidyForm (form (applyEdit e st)).
Proof.
  intros Hf. destruct e; simpl; unfold tidyForm in *; simpl;
    rewrite ?optionGroups_handleNameBlur, ?optionGroups_generateSlug,
            ?optionGroups_generateVariants; try exact Hf.
  - apply Forall_app. split; [exact Hf|].
    repeat constructor.
  - apply Forall_removeAt, Hf.
  - apply Forall_updateAt; [|exact Hf]. intros x _ Hx. exact Hx.
  - unfold handleOptionGroupNameBlur.
    destruct (nth_error (optionGroups (form st)) groupIndex) as [g|];
      [|exact Hf].
    destruct (truthy (og_name g) && negb (truthy (og_code g))); [|exact Hf].
    simpl. apply Forall_updateAt; [|exact Hf]. intros x _ Hx. exact Hx.
  - apply (handleOptionKeydown_tidy id event groupIndex st Hf).
  - apply (removeOption_tidy groupIndex optionIndex (form st) Hf).
Qed.

(** X1: whatever the user does to the product form, starting from the empty
    one, the options of every group are the ones the tag input makes: no
    two options of a group have the same name up to letter case, no name is
    empty or has white space at its ends, and every code is the name in
    lower case without the characters other than letters and digits. *)
Theorem edits_keep_options_tidy (es : list Edit) :
  tidyForm (form (applyEdits es initialTagForm)).
Proof.
  unfold applyEdits.
  assert (H : forall st, tidyForm (form st) ->
              tidyForm (form (fold_left (fun s e => applyEdit e s) es st))).
  { induction es as [|e es IH]; intros st Hst; simpl; [exact Hst|].
    apply IH, applyEdit_tidy, Hst. }
  apply H. constructor.
Qed.

Lemma existsb_same {A} (p q : A -> bool) (l : list A) :
  (forall x, p x = q x) -> existsb p l = existsb q l.
Proof.
  intros H; induction l as [|x l IH]; simpl; [|rewrite H, IH]; reflexivity.
Qed.

(** X2: typing the name of an option a second time, in whatever letter
    case, adds nothing: the form is the one the first addition left. *)
Theorem addOptionFromInput_twice (id1 id2 : string) (i : nat)
  (nm1 nm2 : string) (f : FormData) :
  toLowerCase nm2 = toLowerCase nm1 ->
  addOptionFromInput id2 i nm2 (addOptionFromInput id1 i nm1 f)
  = addOptionFromInput id1 i nm1 f.
Proof.
  intros Hlow.
  assert (Hsame : forall o, sameName nm2 o = sameName nm1 o)
    by (intros o; unfold sameName; rewrite Hlow; reflexivity).
  destruct (nth_error (optionGroups f) i) as [g|] eqn:Eg.
  - destruct (some (sameName nm1) (og_options g)) eqn:Es.
    + assert (E : addOptionFromInput id1 i nm1 f = f)
        by (unfold addOptionFromInput; rewrite Eg, Es; reflexivity).
      rewrite E. unfold addOptionFromInput. rewrite Eg.
      unfold some in *. rewrite (existsb_same _ _ _ Hsame), Es.
      reflexivity.
    + assert (E : addOptionFromInput id1 i nm1 f
                  = with_optionGroups f
                      (updateAt i
                         (fun g => with_options g
                            (og_options g
                             ++ [mkOption id1 nm1 (alnumCode nm1)]))
                         (optionGroups f)))
        by (unfold addOptionFromInput; rewrite Eg, Es; reflexivity).
      rewrite E. unfold addOptionFromInput. simpl.
      rewrite (nth_error_updateAt _ _ _ _ Eg). simpl.
      unfold some. rewrite existsb_app. simpl.
      unfold sameName at 2. simpl. rewrite Hlow, String.eqb_refl.
      rewrite orb_true_r. reflexivity.
  - assert (E : addOptionFromInput id1 i nm1 f = f)
      by (unfold addOptionFromInput; rewrite Eg; reflexivity).
    rewrite E. unfold addOptionFromInput. rewrite Eg. reflexivity.
Qed.

Lemma addOptionFromInput_twice_witness :
  optionGroups (addOptionFromInput "o9" 0 "RED"
                  (addOptionFromInput "o8" 0 "red" colourForm))
  = [mkGroup "g1" "Color" "color" [mkOption "o1" "Red" "red"]].
Proof.
  rewrite (addOptionFromInput_twice "o8" "o9" 0 "red" "RED" colourForm eq_refl).
  reflexivity.
Defined.

Lemma with_options_same (g : OptionGroup) : with_options g (og_options g) = g.
Proof. destruct g; reflexivity. Qed.

Lemma with_optionGroups_same (f : FormData) :
  with_optionGroups f (optionGroups f) = f.
Proof. destruct f; reflexivity. Qed.

Lemma removeOption_addOptionFromInput (id : string) (i : nat) (nm : string)
  (f : FormData) (g : OptionGroup) :
  nth_error (optionGroups f) i = Some g ->
  some (sameName nm) (og_options g) = false ->
  removeOption i (List.length (og_options g)) (addOptionFromInput id i nm f) = f.
Proof.
  intros Eg Es. unfold addOptionFromInput. rewrite Eg, Es.
  unfold removeOption. simpl. rewrite (nth_error_updateAt _ _ _ _ Eg).
  unfold with_optionGroups. simpl. rewrite updateAt_updateAt.
  rewrite updateAt_same.
  - apply with_optionGroups_same.
  - intros x Hx. rewrite Eg in Hx. inversion Hx; subst x. simpl.
    unfold with_options. simpl. rewrite removeAt_last.
    apply with_options_same.
Qed.

(** X3: Backspace in the emptied tag input takes back the option that Enter
    (or comma, or space) has just added: when the typed name was new to the
    group, the form is again the one before the two keys. *)
Theorem backspace_undoes_enter (id id' : string) (ev ev' : KeyEvent)
  (i : nat) (st : TagForm) (g : OptionGroup) :
  nth_error (optionGroups (form st)) i = Some g ->
  (key ev = "Enter" \/ key ev = "," \/ key ev = " ") ->
  trim (targetValue ev) <> "" ->
  some (sameName (trim (targetValue ev))) (og_options g) = false ->
  key ev' = "Backspace" -> trim (targetValue ev') = "" ->
  form (applyEdits [KeyDownOption id ev i; KeyDownOption id' ev' i] st)
  = form st.
Proof.
  intros Eg Hkey Hval Hnew Hkey' Hval'.
  unfold applyEdits. simpl.
  assert (E1 : fst (handleOptionKeydown id ev i st)
               = setOptionInputValue i ""
                   (mkTagForm
                      (addOptionFromInput id i (trim (targetValue ev)) (form st))
                      (optionInputValues st))).
  { unfold handleOptionKeydown.
    apply truthy_true_iff in Hval. rewrite Hval.
    assert (Hk : (key ev =? "Enter") || (key ev =? ",") || (key ev =? " ") = true).
    { destruct Hkey as [->|[->| ->]]; reflexivity. }
    rewrite Hk. simpl.
    assert (Hb : (key ev =? "Backspace") = false).
    { destruct Hkey as [->|[->| ->]]; reflexivity. }
    rewrite Hb. reflexivity. }
  rewrite E1. unfold handleOptionKeydown.
  rewrite Hkey', Hval'. simpl.
  unfold addOptionFromInput at 1. rewrite Eg, Hnew. simpl.
  rewrite (nth_error_updateAt _ _ _ _ Eg). simpl.
  replace (List.length (og_options g ++ [mkOption id (trim (targetValue ev))
             (alnumCode (trim (targetValue ev)))]) - 1)%nat
    with (List.length (og_options g))
    by (rewrite length_app; simpl; lia).
  destruct (og_options g ++ [_]) as [|o os] eqn:Eo.
  { apply app_eq_nil in Eo as [_ Eo]. discriminate Eo. }
  simpl.
  apply (removeOption_addOptionFromInput id i _ (form st) g Eg Hnew).
Qed.

Lemma backspace_undoes_enter_witness :
  form (applyEdits [KeyDownOption "o2" (mkKeyEvent "Enter" " Blue ") 0;
                    KeyDownOption "o3" (mkKeyEvent "Backspace" "") 0]
          (mkTagForm colourForm (fun _ => None)))
  = colourForm.
Proof.
  apply (backspace_undoes_enter "o2" "o3" (mkKeyEvent "Enter" " Blue ")
           (mkKeyEvent "Backspace" "") 0 (mkTagForm colourForm (fun _ => None))
           (mkGroup "g1" "Color" "color" [mkOption "o1" "Red" "red"]));
    try reflexivity.
  - left; reflexivity.
  - vm_compute. discriminate.
Defined.

(** *** Typed options and the generator *)

Lemma generateCombinations_sameChoices (gs gs' : list OptionGroup) :
  Forall2 sameChoices gs gs' ->
  generateCombinations gs = generateCombinations gs'.
Proof.
  induction 1 as [|g g' r r' [Hid Hopt] Hr IH]; [reflexivity|].
  assert (Hsel : forall o, select g o = select g' o)
    by (intros o; unfold select; rewrite Hid; reflexivity).
  destruct Hr as [|h h' r r' Hh Hr].
  - simpl. rewrite Hopt. apply map_ext. intros o. rewrite Hsel. reflexivity.
  - rewrite !ProductFormFacts.generateCombinations_cons2.
    unfold validOptions. rewrite Hopt, IH.
    apply flat_map_ext. intros o. apply map_ext. intros rc.
    rewrite Hsel. reflexivity.
Qed.

Lemma existsb_filter {A} (p : A -> bool) (l : list A) :
  existsb p l = match filter p l with [] => false | _ :: _ => true end.
Proof.
  induction l as [|x l IH]; simpl; [reflexivity|].
  destruct (p x); simpl; [reflexivity|exact IH].
Qed.

Lemma sameChoices_hasValidOption (g g' : OptionGroup) :
  sameChoices g g' -> hasValidOption g = hasValidOption g'.
Proof.
  intros [_ H]. unfold hasValidOption, some.
  rewrite !existsb_filter, H. reflexivity.
Qed.

Lemma generatedOptions_sameChoices (f f' : FormData) :
  Forall2 sameChoices (optionGroups f) (optionGroups f') ->
  generatedOptions f = generatedOptions f'.
Proof.
  intros H. unfold generatedOptions.
  destruct (optionGroups f) as [|g gs] eqn:E.
  - inversion H as [E'|]. unfold generateVariants. rewrite E.
    destruct (optionGroups f'); [reflexivity|discriminate].
  - assert (Hne : optionGroups f <> []) by (rewrite E; discriminate).
    assert (Hne' : optionGroups f' <> []).
    { intros E'. rewrite E' in H. inversion H. }
    rewrite (ProductFormFacts.variants_options f Hne).
    rewrite (ProductFormFacts.variants_options f' Hne').
    apply generateCombinations_sameChoices.
    unfold validGroups.
    apply Forall2_filter; [apply sameChoices_hasValidOption|].
    rewrite E. exact H.
Qed.

(** X4: an option typed without any letter a-z or digit (its computed code
    is empty) is added to its group but takes no part in the generation:
    the option lists of the generated variants are those generated without
    it.  More generally the generated option lists depend on the group ids
    and on the valid options only. *)
Theorem option_without_code_ignored (id : string) (i : nat) (nm : string)
  (f : FormData) :
  alnumCode nm = "" ->
  generatedOptions (addOptionFromInput id i nm f) = generatedOptions f.
Proof.
  intros Hcode. symmetry. apply generatedOptions_sameChoices.
  assert (Hbad : validOption (mkOption id nm (alnumCode nm)) = false).
  { unfold validOption. simpl. rewrite Hcode. apply andb_false_r. }
  unfold addOptionFromInput.
  destruct (nth_error (optionGroups f) i) as [g|] eqn:Eg.
  - destruct (some (sameName nm) (og_options g)).
    + clear. induction (optionGroups f); constructor; auto. split; reflexivity.
    + simpl. apply Forall2_updateAt.
      * intros x. split; reflexivity.
      * intros x. split; [reflexivity|]. simpl. rewrite filter_app. simpl.
        rewrite Hbad, app_nil_r. reflexivity.
  - clear. induction (optionGroups f); constructor; auto. split; reflexivity.
Qed.

Lemma option_without_code_ignored_witness :
  optionGroups (addOptionFromInput "o2" 0 "***" colourForm)
  = [mkGroup "g1" "Color" "color"
       [mkOption "o1" "Red" "red"; mkOption "o2" "***" ""]]
  /\ generatedOptions (addOptionFromInput "o2" 0 "***" colourForm)
     = [[mkSelection "g1" "o1"]].
Proof.
  split; [reflexivity|].
  rewrite (option_without_code_ignored "o2" 0 "***" colourForm eq_refl).
  reflexivity.
Defined.

End ProductOptionsFacts.

(** ** Generated slugs and the description preview *)

Module FormTextFacts.
Import Js JsFacts SlugSpec SlugFacts FormTextSpec.

Lemma replaceSpaceRunsL_nil (r : ascii) (l : list ascii) :
  replaceSpaceRunsL false r l = [] -> l = [].
Proof.
  destruct l as [|c l]; simpl; [reflexivity|].
  destruct (isSpace c); discriminate.
Qed.

Lemma kept_nil (l : list ascii) :
  kept l = [] <-> existsb (fun c => slugKeep (toLowerChar c)) l = false.
Proof.
  unfold kept. induction l as [|c l IH]; simpl; [tauto|].
  destruct (slugKeep (toLowerChar c)); simpl; [|exact IH].
  split; discriminate.
Qed.

Lemma matchesSlugPattern_slugOf (n : string) :
  matchesSlugPattern (slugOf n) = hasKeptChar n.
Proof.
  unfold matchesSlugPattern, hasKeptChar.
  rewrite slugOf_chars, list_ascii_of_string_of_list_ascii.
  pose proof (slugL_slugChars (list_ascii_of_string n)) as Hall.
  rewrite slugL_no_trim in *. fold (kept (list_ascii_of_string n)) in *.
  destruct (existsb _ (list_ascii_of_string n)) eqn:E.
  - destruct (replaceSpaceRunsL false "-" (kept (list_ascii_of_string n)))
      as [|c l] eqn:Er.
    + apply replaceSpaceRunsL_nil, kept_nil in Er. congruence.
    + apply forallb_forall. unfold slugChars in Hall.
      rewrite Forall_forall in Hall. exact Hall.
  - apply kept_nil in E. rewrite E. reflexivity.
Qed.

(** X5: on names made of Latin-1 characters, as the strings here are, the
    slug (or code) that blur or the Generate button computes from a
    non-empty name passes the pattern the form requires of it exactly when
    the name has at least one letter a-z (in either case), digit,
    white-space character or hyphen; it is empty otherwise.  And blur leaves
    a slug or code that is already set as it is. *)
Theorem generated_slug_matches_pattern :
  (forall f, ProductForm.name f <> "" ->
     matchesSlugPattern (ProductForm.slug (ProductForm.generateSlug f))
     = hasKeptChar (ProductForm.name f)
     /\ (hasKeptChar (ProductForm.name f) = false ->
         ProductForm.slug (ProductForm.generateSlug f) = ""))
  /\ (forall f, FacetForm.name f <> "" ->
        matchesSlugPattern (FacetForm.code (FacetForm.generateCode f))
        = hasKeptChar (FacetForm.name f)
        /\ (hasKeptChar (FacetForm.name f) = false ->
            FacetForm.code (FacetForm.generateCode f) = ""))
  /\ (forall f, ProductForm.slug f <> "" -> ProductForm.handleNameBlur f = f)
  /\ (forall f, FacetForm.code f <> "" -> FacetForm.handleNameBlur f = f).
Proof.
  assert (Hempty : forall n, hasKeptChar n = false -> slugOf n = "").
  { intros n H. rewrite slugOf_chars, slugL_no_trim.
    fold (kept (list_ascii_of_string n)).
    apply kept_nil in H. rewrite H. reflexivity. }
  split; [|split; [|split]].
  - intros f Hn. apply truthy_true_iff in Hn.
    unfold ProductForm.generateSlug. rewrite Hn. simpl.
    split; [apply matchesSlugPattern_slugOf|apply Hempty].
  - intros f Hn. apply truthy_true_iff in Hn.
    unfold FacetForm.generateCode. rewrite Hn. simpl.
    split; [apply matchesSlugPattern_slugOf|apply Hempty].
  - intros f Hs. apply truthy_true_iff in Hs.
    unfold ProductForm.handleNameBlur. rewrite Hs, andb_false_r. reflexivity.
  - intros f Hs. apply truthy_true_iff in Hs.
    unfold FacetForm.handleNameBlur. rewrite Hs, andb_false_r. reflexivity.
Qed.

Lemma generated_slug_matches_pattern_witness :
  matchesSlugPattern
    (ProductForm.slug
       (ProductForm.generateSlug (ProductForm.mkForm "Blue Mug!" "" [] [])))
  = true
  /\ ProductForm.slug
       (ProductForm.generateSlug (ProductForm.mkForm "?!" "keep" [] []))
     = "".
Proof.
  destruct (proj1 generated_slug_matches_pattern
              (ProductForm.mkForm "Blue Mug!" "" [] [])) as [H1 _];
    [discriminate|].
  destruct (proj1 generated_slug_matches_pattern
              (ProductForm.mkForm "?!" "keep" [] [])) as [_ H2];
    [discriminate|].
  split; [rewrite H1; reflexivity|apply H2; reflexivity].
Defined.

(** *** The description preview *)

Lemma length_append (a b : string) :
  String.length (a ++ b) = (String.length a + String.length b)%nat.
Proof. induction a as [|c a IH]; simpl; [|rewrite IH]; reflexivity. Qed.

Lemma substring_all (n : nat) (s : string) :
  (String.length s <= n)%nat -> substring 0 n s = s.
Proof.
  revert n; induction s as [|c s IH]; intros n H; destruct n; simpl in *;
    try reflexivity; try lia.
  rewrite IH; [reflexivity|lia].
Qed.

Lemma length_substring (n : nat) (s : string) :
  String.length (substring 0 n s) = Nat.min n (String.length s).
Proof.
  revert n; induction s as [|c s IH]; intros n; destruct n; simpl;
    try reflexivity.
  rewrite IH. reflexivity.
Qed.

(** X6: the description preview is never longer than 123 characters; a
    description of at most 120 characters is shown as it is, a longer one
    is cut after its first 120 characters and followed by three dots; and
    without a description the placeholder is shown. *)
Theorem description_preview_bounded :
  (forall d, (String.length (ProductOptions.getDescriptionPreview d) <= 123)%nat)
  /\ (forall d, d <> "" -> (String.length d <= 120)%nat ->
        ProductOptions.getDescriptionPreview (Some d) = d)
  /\ (forall d, (120 < String.length d)%nat ->
        ProductOptions.getDescriptionPreview (Some d)
        = (substring 0 120 d ++ "...")%string
        /\ String.length (ProductOptions.getDescriptionPreview (Some d)) = 123%nat)
  /\ ProductOptions.getDescriptionPreview (Some "")
     = ProductOptions.getDescriptionPreview None.
Proof.
  assert (Hlong : forall d, (120 < String.length d)%nat ->
            ProductOptions.getDescriptionPreview (Some d)
            = (substring 0 120 d ++ "...")%string).
  { intros d H. unfold ProductOptions.getDescriptionPreview.
    destruct d as [|c d]; [simpl in H; lia|]. cbn [truthy negb].
    apply Nat.ltb_lt in H. rewrite H. reflexivity. }
  assert (Hshort : forall d, d <> "" -> (String.length d <= 120)%nat ->
            ProductOptions.getDescriptionPreview (Some d) = d).
  { intros d Hne H. unfold ProductOptions.getDescriptionPreview.
    destruct d as [|c d]; [congruence|]. cbn [truthy negb].
    assert (E : (120 <? String.length (String c d))%nat = false)
      by (apply Nat.ltb_ge; exact H).
    rewrite E, (substring_all 120 _ H).
    clear. induction (String c d) as [|a s IH]; simpl; [|rewrite IH];
      reflexivity. }
  split; [|split; [exact Hshort|split; [|reflexivity]]].
  - intros [d|]; [|vm_compute; lia].
    destruct (Nat.le_gt_cases (String.length d) 120) as [H|H].
    + destruct d as [|c d]; [vm_compute; lia|].
      rewrite Hshort; [lia|discriminate|exact H].
    + rewrite (Hlong d H), length_append, length_substring.
      change (String.length "...") with 3%nat. lia.
  - intros d H. split; [apply Hlong, H|].
    rewrite (Hlong d H), length_append, length_substring.
    change (String.length "...") with 3%nat. lia.
Qed.

Lemma description_preview_bounded_witness :
  ProductOptions.getDescriptionPreview (Some "A plain white mug.")
  = "A plain white mug.".
Proof.
  apply (proj1 (proj2 description_preview_bounded) "A plain white mug.").
  - discriminate.
  - vm_compute. lia.
Defined.

End FormTextFacts.

(** ** Submission of the product form *)

Module ProductSubmitFacts.
Import Ui Js JsFacts ProductForm ProductFormSpec ProductSubmit ProductSubmitSpec.

Lemma sent_mutations_app (x y : list Effect) :
  mutations (x ++ y) = mutations x ++ mutations y.
Proof.
  induction x as [|e x IH]; simpl; [reflexivity|].
  destruct e; simpl; rewrite ?IH; reflexivity.
Qed.

Lemma toasts_app (x y : list Effect) : toasts (x ++ y) = toasts x ++ toasts y.
Proof.
  induction x as [|e x IH]; simpl; [reflexivity|].
  destruct e; simpl; rewrite ?IH; reflexivity.
Qed.

Lemma kinds_app (x y : list Effect) : kinds (x ++ y) = kinds x ++ kinds y.
Proof. unfold kinds. rewrite sent_mutations_app, map_app. reflexivity. Qed.

Lemma onlySends_toasts (effs : list Effect) : onlySends effs -> toasts effs = [].
Proof.
  induction 1 as [|e effs [m ->] _ IH]; simpl; [reflexivity|exact IH].
Qed.

Lemma onlySends_no_navigate (effs : list Effect) (path : string) :
  onlySends effs -> ~ In (Navigate path) effs.
Proof.
  intros H Hin. unfold onlySends in H. rewrite Forall_forall in H.
  destruct (H _ Hin) as [m Hm]. discriminate Hm.
Qed.

Lemma In_Send_kinds (effs : list Effect) (m : Mutation) :
  In (Send m) effs -> In (kindOf m) (kinds effs).
Proof.
  unfold kinds. induction effs as [|e effs IH]; simpl; [tauto|].
  intros [->|Hin]; [left; reflexivity|].
  destruct e; simpl; auto.
Qed.

Lemma groupKinds_no_variants (groups : list OptionGroup) :
  ~ In KVariants (groupKinds groups).
Proof.
  unfold groupKinds. intros H. apply in_flat_map in H as (g & _ & H).
  simpl in H. intuition discriminate.
Qed.

Lemma createGroups_facts (apollo : Apollo) (pid : string)
  (groups : list OptionGroup) :
  forall sent created res effs,
    createGroups apollo pid sent groups created = (res, effs) ->
    onlySends effs
    /\ isPrefix (kinds effs) (groupKinds groups)
    /\ (forall c, res = Gives c ->
          kinds effs = groupKinds groups
          /\ List.length c = (List.length created + List.length groups)%nat).
Proof.
  induction groups as [|g groups IH]; intros sent created res effs H.
  - simpl in H. inversion H; subst. split; [constructor|].
    split; [exists []; reflexivity|].
    intros c Hc. inversion Hc; subst. split; [reflexivity|simpl; lia].
  - simpl in H.
    destruct (createProductOptionGroup apollo sent (og_code g) (og_name g) _)
      as [e|[cg|]].
    + inversion H; subst. split; [repeat constructor; eexists; reflexivity|].
      split; [|discriminate]. eexists. simpl. reflexivity.
    + destruct (addOptionGroupToProduct apollo (S sent) pid (cg_id cg)) as [e|u].
      * inversion H; subst.
        split; [repeat constructor; eexists; reflexivity|].
        split; [|discriminate]. eexists. simpl. reflexivity.
      * destruct (createGroups apollo pid (S (S sent)) groups (created ++ [cg]))
          as [res' effs'] eqn:E.
        inversion H; subst. destruct (IH _ _ _ _ E) as (Hs & [r Hp] & Hg).
        split; [repeat constructor; try (eexists; reflexivity); exact Hs|].
        split.
        -- exists r. unfold kinds in *. simpl. rewrite Hp. reflexivity.
        -- intros c Hc. destruct (Hg c Hc) as [Hk Hl]. split.
           ++ unfold kinds in *. simpl. rewrite Hk. reflexivity.
           ++ rewrite Hl, length_app. simpl. lia.
    + inversion H; subst. split; [repeat constructor; eexists; reflexivity|].
      split; [|discriminate]. eexists. simpl. reflexivity.
Qed.

Lemma kinds_cons (m : Mutation) (effs : list Effect) :
  kinds (Send m :: effs) = kindOf m :: kinds effs.
Proof. reflexivity. Qed.

Lemma onlySends_cons (m : Mutation) (effs : list Effect) :
  onlySends effs -> onlySends (Send m :: effs).
Proof. intros H. constructor; [eexists; reflexivity|exact H]. Qed.

Lemma onlySends_snoc (m : Mutation) (effs : list Effect) :
  onlySends effs -> onlySends (effs ++ [Send m]).
Proof.
  intros H. apply Forall_app. split; [exact H|].
  repeat constructor. eexists; reflexivity.
Qed.

(** What [createAll] can return, case by case. *)
Lemma createAll_cases (apollo : Apollo) (f : FormData) (d : Details) :
  exists input, 
  let create := CREATE_PRODUCT input in
  (exists e, createAll apollo f d = (Fails e, [Send create]))
  \/ exists pid, pid <> "" /\
     ((exists e geffs,
         createGroups apollo pid 1 (optionGroups f) [] = (Fails e, geffs)
         /\ createAll apollo f d = (Fails e, Send create :: geffs))
      \/ exists created geffs,
           createGroups apollo pid 1 (optionGroups f) [] = (Gives created, geffs)
           /\ ((variants f = []
                /\ createAll apollo f d = (Gives pid, Send create :: geffs))
               \/ (variants f <> []
                   /\ exists e, variantInputs f created pid (variants f) = Fails e
                      /\ createAll apollo f d = (Fails e, Send create :: geffs))
               \/ (variants f <> []
                   /\ exists inputs,
                        variantInputs f created pid (variants f) = Gives inputs
                        /\ ((exists e, createAll apollo f d
                               = (Fails e, Send create :: geffs
                                           ++ [Send (CREATE_PRODUCT_VARIANTS inputs)]))
                            \/ createAll apollo f d
                               = (Gives pid, Send create :: geffs
                                    ++ [Send (CREATE_PRODUCT_VARIANTS inputs)]))))).
Proof.
  unfold createAll. cbv zeta. eexists. 
  destruct (createProduct apollo 0 _) as [e|[product|]];
    [left; eexists; reflexivity| |left; eexists; reflexivity].
  destruct (truthy (cp_id product)) eqn:Et; simpl;
    [|left; eexists; reflexivity].
  right. exists (cp_id product). split; [apply truthy_true_iff, Et|].
  destruct (createGroups apollo (cp_id product) 1 (optionGroups f) [])
    as [[e|created] geffs] eqn:E.
  - left. exists e, geffs. auto.
  - right. exists created, geffs. split; [reflexivity|].
    destruct (variants f) as [|v vs] eqn:Ev; [left; auto|].
    right. destruct (variantInputs f created (cp_id product) (v :: vs))
      as [e|inputs].
    + left. split; [discriminate|]. exists e. auto.
    + right. split; [discriminate|]. exists inputs. split; [reflexivity|].
      destruct (createProductVariants apollo _ inputs);
        [left; eexists; reflexivity|right; reflexivity].
Qed.

Lemma createAll_facts (apollo : Apollo) (f : FormData) (d : Details) :
  forall res effs, createAll apollo f d = (res, effs) ->
  onlySends effs
  /\ isPrefix (kinds effs) (plan f)
  /\ (forall pid, res = Gives pid -> kinds effs = plan f).
Proof.
  intros res effs H. unfold plan.
  destruct (createAll_cases apollo f d) as (input & Hc). cbv zeta in Hc.
  destruct Hc as [(e & Hc)|(pid & _ & Hc)].
  - rewrite Hc in H. inversion H; subst.
    split; [apply onlySends_cons; constructor|].
    split; [eexists; reflexivity|discriminate].
  - destruct Hc as [(e & geffs & E & Hc)|(created & geffs & E & Hc)].
    + rewrite Hc in H. inversion H; subst.
      destruct (createGroups_facts _ _ _ _ _ _ _ E) as (Hs & [r Hp] & _).
      split; [apply onlySends_cons, Hs|]. split; [|discriminate].
      eexists. rewrite kinds_cons, Hp, <- app_assoc. reflexivity.
    + destruct (createGroups_facts _ _ _ _ _ _ _ E) as (Hs & _ & Hg).
      destruct (Hg created eq_refl) as [Hk _].
      destruct Hc as [(Ev & Hc)|[(Ev & e & _ & Hc)|(Ev & inputs & _ & Hc)]].
      * rewrite Hc in H. inversion H; subst. rewrite Ev, app_nil_r.
        split; [apply onlySends_cons, Hs|].
        rewrite kinds_cons, Hk.
        split; [exists []; rewrite app_nil_r; reflexivity|reflexivity].
      * rewrite Hc in H. inversion H; subst.
        split; [apply onlySends_cons, Hs|]. split; [|discriminate].
        rewrite kinds_cons, Hk. eexists. reflexivity.
      * assert (Ek : kinds (Send (CREATE_PRODUCT input) :: geffs
                            ++ [Send (CREATE_PRODUCT_VARIANTS inputs)])
                     = KProduct :: groupKinds (optionGroups f)
                       ++ match variants f with [] => [] | _ :: _ => [KVariants] end).
        { rewrite kinds_cons, kinds_app, Hk.
          destruct (variants f); [congruence|reflexivity]. }
        destruct Hc as [(e & Hc)|Hc]; rewrite Hc in H; inversion H; subst;
          (split; [apply onlySends_cons, onlySends_snoc, Hs|]);
          (split; [exists []; rewrite Ek, app_nil_r; reflexivity|]);
          [discriminate|intros _ _; exact Ek].
Qed.

Lemma submitSteps_cases (apollo : Apollo) (f : FormData) (d : Details) :
  (optionGroups f <> [] /\ variants f = []
   /\ submitSteps apollo f d
      = (Fails (thrown "Please generate variants before creating the product"),
         []))
  \/ ((optionGroups f = [] \/ variants f <> [])
      /\ submitSteps apollo f d = createAll apollo f d).
Proof.
  unfold submitSteps.
  destruct (optionGroups f) as [|g gs]; [right; auto|].
  destruct (variants f) as [|v vs].
  - left. repeat split. discriminate.
  - right. split; [right; discriminate|reflexivity].
Qed.

Lemma submitSteps_facts (apollo : Apollo) (f : FormData) (d : Details) :
  forall res effs, submitSteps apollo f d = (res, effs) ->
  onlySends effs
  /\ isPrefix (kinds effs) (plan f)
  /\ (forall pid, res = Gives pid -> kinds effs = plan f).
Proof.
  intros res effs H.
  destruct (submitSteps_cases apollo f d) as [(_ & _ & E)|(_ & E)];
    rewrite E in H.
  - inversion H; subst. split; [constructor|].
    split; [eexists; reflexivity|discriminate].
  - apply (createAll_facts apollo f d res effs H).
Qed.


Lemma kinds_then_toast (steps tail : list Effect) :
  mutations tail = [] -> kinds (steps ++ tail) = kinds steps.
Proof.
  intros H. unfold kinds. rewrite sent_mutations_app, H, app_nil_r. reflexivity.
Qed.

Lemma toasts_then (steps tail : list Effect) :
  onlySends steps -> toasts (steps ++ tail) = toasts tail.
Proof. intros H. rewrite toasts_app, (onlySends_toasts _ H). reflexivity. Qed.


Lemma length_optionIdsOf (f : FormData) (created : list CreatedGroup)
  (v : Variant) :
  (List.length (optionIdsOf f created v) <= List.length (v_options v))%nat.
Proof.
  unfold optionIdsOf. induction (v_options v) as [|s l IH]; simpl; [lia|].
  rewrite length_app.
  destruct (createdOptionId f created s) as [id|]; [destruct (truthy id)|];
    simpl; lia.
Qed.

Lemma variantInputs_fails (f : FormData) (created : list CreatedGroup)
  (pid : string) (vs : list Variant) (v : Variant) :
  In v vs ->
  (List.length (v_options v) < List.length created)%nat ->
  exists e, variantInputs f created pid vs = Fails e.
Proof.
  intros Hin Hlt. induction vs as [|w vs IH]; [destruct Hin|]. simpl.
  destruct (negb (List.length (optionIdsOf f created w) =? List.length created)%nat)
    eqn:E; [eexists; reflexivity|].
  destruct Hin as [->|Hin].
  - apply negb_false_iff, Nat.eqb_eq in E.
    pose proof (length_optionIdsOf f created v). lia.
  - destruct (IH Hin) as [e ->]. eexists; reflexivity.
Qed.

Lemma blocked_steps (apollo : Apollo) (f : FormData) (d : Details) (v : Variant) :
  In v (variants f) ->
  (List.length (v_options v) < List.length (optionGroups f))%nat ->
  exists e effs, submitSteps apollo f d = (Fails e, effs)
                 /\ forall inputs, ~ In (Send (CREATE_PRODUCT_VARIANTS inputs)) effs.
Proof.
  intros Hin Hlt.
  assert (Hv : variants f <> []) by (intros E; rewrite E in Hin; destruct Hin).
  destruct (submitSteps_cases apollo f d) as [(_ & Ev & _)|(_ & ->)];
    [congruence|].
  destruct (createAll_cases apollo f d) as (input & Hc). cbv zeta in Hc.
  destruct Hc as [(e & Hc)|(pid & _ & Hc)].
  - exists e, [Send (CREATE_PRODUCT input)]. split; [exact Hc|].
    intros inputs [H|[]]. discriminate H.
  - destruct Hc as [(e & geffs & E & Hc)|(created & geffs & E & Hc)];
      destruct (createGroups_facts _ _ _ _ _ _ _ E) as (Hs & Hp & Hg).
    + exists e, (Send (CREATE_PRODUCT input) :: geffs). split; [exact Hc|].
      intros inputs [H|H]; [discriminate H|].
      apply In_Send_kinds in H. destruct Hp as [r Hp].
      apply (groupKinds_no_variants (optionGroups f)). rewrite Hp.
      apply in_or_app. left. exact H.
    + destruct (Hg created eq_refl) as [_ Hl]. simpl in Hl.
      destruct (variantInputs_fails f created pid (variants f) v Hin) as [e He];
        [lia|].
      destruct Hc as [(Ev & _)|[(_ & e' & He' & Hc)|(_ & inputs & Hi & _)]];
        [congruence| |congruence].
      exists e', (Send (CREATE_PRODUCT input) :: geffs). split; [exact Hc|].
      intros inputs [H|H]; [discriminate H|].
      apply In_Send_kinds in H. destruct Hp as [r Hp].
      apply (groupKinds_no_variants (optionGroups f)). rewrite Hp.
      apply in_or_app. left. exact H.
Qed.

Lemma blocked_submit (apollo : Apollo) (f : FormData) (d : Details) (v : Variant) :
  In v (variants f) ->
  (List.length (v_options v) < List.length (optionGroups f))%nat ->
  ~ sendsVariants (onSubmit apollo f d) /\ ~ navigates (onSubmit apollo f d).
Proof.
  intros Hin Hlt.
  destruct (blocked_steps apollo f d v Hin Hlt) as (e & effs & E & Hno).
  destruct (submitSteps_facts apollo f d _ _ E) as (Hs & _ & _).
  unfold onSubmit. rewrite E. split.
  - intros (inputs & H). apply in_app_or in H as [H|H];
      [exact (Hno inputs H)|]. simpl in H. intuition discriminate.
  - intros (path & H). apply in_app_or in H as [H|H];
      [exact (onlySends_no_navigate _ _ Hs H)|].
    simpl in H. intuition discriminate.
Qed.

Lemma filter_length_lt {A} (p : A -> bool) (l : list A) (x : A) :
  In x l -> p x = false ->
  (List.length (filter p l) < List.length l)%nat.
Proof.
  induction l as [|y l IH]; simpl; intros Hin Hp; [destruct Hin|].
  pose proof (filter_length_le p l).
  destruct Hin as [->|Hin].
  - rewrite Hp. lia.
  - specialize (IH Hin Hp). destruct (p y); simpl; lia.
Qed.

(** X8: a variant with fewer option selections than the form has groups
    blocks the submission: the variants are never sent and the page does
    not navigate, whatever the API answers.  In particular, after
    [generateVariants] on a form with a group that has no valid option, no
    submission can go through, although the product and the groups may
    have been created by then. *)
Theorem excluded_group_blocks_submission :
  (forall apollo f d v,
     In v (variants f) ->
     (List.length (v_options v) < List.length (optionGroups f))%nat ->
     ~ sendsVariants (onSubmit apollo f d) /\ ~ navigates (onSubmit apollo f d))
  /\ (forall apollo f d g,
        In g (optionGroups f) -> hasValidOption g = false ->
        ~ sendsVariants (onSubmit apollo (generateVariants f) d)
        /\ ~ navigates (onSubmit apollo (generateVariants f) d)).
Proof.
  split; [exact blocked_submit|].
  intros apollo f d g Hg Hbad.
  assert (Hne : optionGroups f <> []) by (intros E; rewrite E in Hg; destruct Hg).
  assert (Hgroups : optionGroups (generateVariants f) = optionGroups f)
    by apply ProductOptionsFacts.optionGroups_generateVariants.
  destruct (variants (generateVariants f)) as [|v vs] eqn:Ev.
  - destruct (submitSteps_cases apollo (generateVariants f) d)
      as [(_ & _ & E)|([E|E] & _)]; [|congruence|congruence].
    unfold onSubmit. rewrite E. simpl. split.
    + intros (inputs & [H|[]]). discriminate H.
    + intros (path & [H|[]]). discriminate H.
  - apply (blocked_submit apollo (generateVariants f) d v).
    + rewrite Ev. left. reflexivity.
    + rewrite Hgroups.
      assert (Hv : In v (variants (generateVariants f)))
        by (rewrite Ev; left; reflexivity).
      rewrite (ProductFormFacts.generateVariants_nonempty f Hne) in Hv.
      apply in_map_iff in Hv as (c & <- & Hc). simpl.
      pose proof (ProductFormFacts.generateCombinations_picks _ _ Hc) as H2.
      rewrite (Forall2_length H2). unfold validGroups.
      apply (filter_length_lt _ _ g Hg Hbad).
Qed.

Lemma excluded_group_blocks_submission_witness :
  ~ sendsVariants (onSubmit obliging (generateVariants shirtWithEmptyGroup)
                            noDetails)
  /\ kinds (onSubmit obliging (generateVariants shirtWithEmptyGroup) noDetails)
     = [KProduct; KGroup "color"; KAdd; KGroup "size"; KAdd].
Proof.
  split; [|reflexivity].
  apply (proj2 excluded_group_blocks_submission obliging shirtWithEmptyGroup
           noDetails (mkGroup "g2" "Size" "size" [])).
  - right. left. reflexivity.
  - reflexivity.
Defined.







(** *** A submission that goes through *)

Lemma find_copy {A B} (ka : A -> string) (kb : B -> string) (R : A -> B -> Prop)
  (xs : list A) (ys : list B) (a : A) :
  Forall2 (fun x y => kb y = ka x /\ R x y) xs ys ->
  NoDup (map ka xs) -> In a xs ->
  exists b, find (fun y => kb y =? ka a) ys = Some b /\ R a b.
Proof.
  unfold find.
  induction 1 as [|x y xs ys [Hk Hr] _ IH]; simpl; intros Hnd Hin;
    [destruct Hin|].
  inversion Hnd as [|? ? Hnot Hnd']; subst.
  destruct Hin as [->|Hin].
  - exists y. rewrite Hk, String.eqb_refl. auto.
  - destruct (String.eqb_spec (kb y) (ka a)) as [E|_]; [|apply IH; assumption].
    exfalso. apply Hnot. rewrite <- Hk, E. apply in_map, Hin.
Qed.

Lemma createdOptionId_copy (f : FormData) (cgs : list CreatedGroup)
  (g : OptionGroup) (o : ProductOption) :
  uniqueIds f -> distinctCodes f ->
  Forall2 copyOf (optionGroups f) cgs ->
  In g (optionGroups f) -> In o (og_options g) ->
  exists id, createdOptionId f cgs (select g o) = Some id /\ id <> "".
Proof.
  intros [Hgid Hoid] [Hgc Hoc] Hcopy Hg Ho.
  rewrite Forall_forall in Hoid, Hoc.
  unfold createdOptionId. simpl.
  rewrite (ProductFormFacts.find_by_id og_id _ g Hgid Hg).
  rewrite (ProductFormFacts.find_by_id opt_id _ o (Hoid g Hg) Ho).
  destruct (find_copy og_code cg_code
              (fun g cg => exists cos, cg_options cg = Some cos
                 /\ Forall2 (fun o co => co_code co = opt_code o /\ co_id co <> "")
                            (og_options g) cos)
              _ _ g Hcopy Hgc Hg) as (cg & -> & cos & -> & Hcos).
  destruct (find_copy opt_code co_code (fun _ co => co_id co <> "")
              _ _ o Hcos (Hoc g Hg) Ho) as (co & -> & Hid).
  exists (co_id co). auto.
Qed.

Lemma optionIdsOf_selectAll (f : FormData) (cgs : list CreatedGroup)
  (gs : list OptionGroup) (os : list ProductOption) (v : Variant) :
  uniqueIds f -> distinctCodes f ->
  Forall2 copyOf (optionGroups f) cgs ->
  incl gs (optionGroups f) -> chosenFrom gs os ->
  v_options v = selectAll gs os ->
  List.length (optionIdsOf f cgs v) = List.length gs.
Proof.
  intros Hu Hd Hcopy Hincl Hch Hv. unfold optionIdsOf. rewrite Hv.
  clear Hv. unfold selectAll.
  induction Hch as [|g o gs os [Ho _] _ IH]; [reflexivity|].
  simpl. rewrite length_app.
  destruct (createdOptionId_copy f cgs g o Hu Hd Hcopy) as (id & -> & Hid);
    [apply Hincl; left; reflexivity|exact Ho|].
  apply truthy_true_iff in Hid. rewrite Hid. simpl.
  rewrite IH; [reflexivity|]. intros x Hx. apply Hincl. right. exact Hx.
Qed.

Lemma variantInputs_succeeds (f : FormData) (created : list CreatedGroup)
  (pid : string) (vs : list Variant) :
  Forall (fun v => List.length (optionIdsOf f created v) = List.length created) vs ->
  exists inputs, variantInputs f created pid vs = Gives inputs.
Proof.
  induction 1 as [|v vs Hv _ (inputs & IH)]; simpl; [eexists; reflexivity|].
  rewrite Hv, Nat.eqb_refl, IH. simpl. eexists; reflexivity.
Qed.

Lemma createGroups_echo (apollo : Apollo) (pid : string)
  (groups : list OptionGroup) :
  echoes apollo ->
  forall sent created, exists cgs effs,
    createGroups apollo pid sent groups created = (Gives (created ++ cgs), effs)
    /\ Forall2 copyOf groups cgs.
Proof.
  intros (_ & Hgroup & Hadd & _).
  induction groups as [|g groups IH]; intros sent created.
  - exists [], []. simpl. rewrite app_nil_r. split; [reflexivity|constructor].
  - simpl.
    destruct (Hgroup sent (og_code g) (og_name g)
                (map (fun o => mkOptionInput (opt_code o) (opt_name o))
                     (og_options g)))
      as (cg & cos & -> & Hcode & Hopts & Hcos).
    destruct (Hadd (S sent) pid (cg_id cg)) as (u & ->).
    destruct (IH (S (S sent)) (created ++ [cg])) as (cgs & effs & -> & Hcopy).
    exists (cg :: cgs). eexists. split.
    + rewrite <- app_assoc. reflexivity.
    + constructor; [|exact Hcopy]. split; [exact Hcode|].
      exists cos. split; [exact Hopts|].
      clear -Hcos. revert cos Hcos.
      induction (og_options g) as [|o os IH]; intros cos H; inversion H; subst;
        constructor; auto.
Qed.

Lemma createdOptionId_same_groups (f f' : FormData) (cgs : list CreatedGroup)
  (s : Selection) :
  optionGroups f' = optionGroups f ->
  createdOptionId f' cgs s = createdOptionId f cgs s.
Proof. intros E. unfold createdOptionId. rewrite E. reflexivity. Qed.

Lemma optionIdsOf_same_groups (f f' : FormData) (cgs : list CreatedGroup)
  (v : Variant) :
  optionGroups f' = optionGroups f ->
  optionIdsOf f' cgs v = optionIdsOf f cgs v.
Proof.
  intros E. unfold optionIdsOf. apply flat_map_ext. intros s.
  rewrite (createdOptionId_same_groups f f' cgs s E). reflexivity.
Qed.

Lemma productOf_pos (ks : list nat) :
  Forall (fun k => (0 < k)%nat) ks -> (0 < productOf ks)%nat.
Proof.
  induction 1 as [|k ks Hk _ IH]; simpl; [lia|]. apply Nat.mul_pos_pos; assumption.
Qed.

Lemma combinations_nonempty (g : OptionGroup) (gs : list OptionGroup) :
  Forall (fun g => hasValidOption g = true) (g :: gs) ->
  generateCombinations (g :: gs) <> [].
Proof.
  intros Hvalid Hnil.
  pose proof (ProductFormFacts.generateCombinations_length g gs) as Hlen.
  rewrite Hnil in Hlen.
  assert (Hpos : (0 < productOf (map (fun g => List.length (validOptions g))
                                     (g :: gs)))%nat).
  { apply productOf_pos. apply Forall_map.
    eapply Forall_impl; [|exact Hvalid]. intros h Hh.
    unfold hasValidOption, some in Hh.
    rewrite ProductOptionsFacts.existsb_filter in Hh.
    unfold validOptions.
    destruct (filter validOption (og_options h)); [discriminate|simpl; lia]. }
  simpl in Hlen. simpl in Hpos. lia.
Qed.

(** X10: with an API that creates what it is asked for, a form whose ids
    and codes are distinct and in which every group has a valid option is
    submitted in full right after [generateVariants]: every request of the
    plan is sent, the variants included, and the page navigates to the
    product. *)
Theorem generated_form_submits (apollo : Apollo) (f : FormData) (d : Details) :
  echoes apollo -> uniqueIds f -> distinctCodes f ->
  Forall (fun g => hasValidOption g = true) (optionGroups f) ->
  let effs := onSubmit apollo (generateVariants f) d in
  navigates effs /\ sendsVariants effs
  /\ kinds effs = plan (generateVariants f)
  /\ toasts effs = [successToast].
Proof.
  intros Hecho Hu Hd Hvalid effs.
  set (f' := generateVariants f) in *.
  assert (Hgroups : optionGroups f' = optionGroups f)
    by apply ProductOptionsFacts.optionGroups_generateVariants.
  assert (Hvars : exists v vs, variants f' = v :: vs).
  { destruct (optionGroups f) as [|g gs] eqn:Eg.
    - unfold f', generateVariants. rewrite Eg. simpl. eauto.
    - assert (Hne : optionGroups f <> []) by (rewrite Eg; discriminate).
      unfold f'. rewrite (ProductFormFacts.generateVariants_nonempty f Hne).
      unfold validGroups. rewrite Eg, (ProductFormFacts.filter_all _ _ Hvalid).
      pose proof (combinations_nonempty g gs Hvalid) as Hc.
      destruct (generateCombinations (g :: gs)) as [|c cs]; [congruence|].
      exists (variantOf f c), (map (variantOf f) cs). reflexivity. }
  destruct Hvars as (v0 & vs0 & Ev).
  destruct (proj1 Hecho 0
              (mkProductInput (name f') (slug f')
                 (match description d with Some s => or_else s "" | None => "" end)
                 (enabled d) (featuredAssetId d) (assetIds d) (facetValueIds d)))
    as (p & Ep & Hp).
  destruct (createGroups_echo apollo (cp_id p) (optionGroups f') Hecho 1 [])
    as (cgs & geffs & Eg & Hcopy). simpl in Eg.
  assert (Hin : exists inputs,
             variantInputs f' cgs (cp_id p) (variants f') = Gives inputs).
  { apply variantInputs_succeeds. apply Forall_forall. intros v Hv.
    rewrite (optionIdsOf_same_groups f f' cgs v Hgroups).
    rewrite Hgroups in Hcopy. rewrite <- (Forall2_length Hcopy).
    destruct (optionGroups f) as [|g gs] eqn:Egs.
    - unfold f', generateVariants in Hv. rewrite Egs in Hv. simpl in Hv.
      destruct Hv as [<-|[]]. reflexivity.
    - assert (Hne : optionGroups f <> []) by (rewrite Egs; discriminate).
      unfold f' in Hv.
      rewrite (ProductFormFacts.generateVariants_nonempty f Hne) in Hv.
      apply in_map_iff in Hv as (c & <- & Hc).
      destruct (ProductFormFacts.generateCombinations_chosen _ _ Hc)
        as (os & Hch & ->).
      assert (Hall : validGroups f = g :: gs).
      { unfold validGroups. rewrite Egs.
        apply ProductFormFacts.filter_all. exact Hvalid. }
      rewrite Hall in Hch.
      rewrite (optionIdsOf_selectAll f cgs (g :: gs) os); auto.
      + rewrite Egs. exact Hcopy.
      + rewrite Egs. apply incl_refl.
      + simpl. rewrite Hall. reflexivity. }
  destruct Hin as (inputs & Ei).
  destruct (proj2 (proj2 (proj2 Hecho)) (S (List.length geffs)) inputs)
    as (u & Eu).
  assert (Esteps : submitSteps apollo f' d
                   = (Gives (cp_id p),
                      Send (CREATE_PRODUCT
                        (mkProductInput (name f') (slug f')
                           (match description d with
                            | Some s => or_else s ""
                            | None => ""
                            end)
                           (enabled d) (featuredAssetId d) (assetIds d)
                           (facetValueIds d)))
                      :: geffs ++ [Send (CREATE_PRODUCT_VARIANTS inputs)])).
  { destruct (submitSteps_cases apollo f' d) as [(_ & E & _)|(_ & ->)];
      [congruence|].
    unfold createAll. cbv zeta. rewrite Ep.
    apply truthy_true_iff in Hp. rewrite Hp. simpl.
    rewrite Eg. rewrite Ev in *. rewrite Ei, Eu. reflexivity. }
  destruct (submitSteps_facts apollo f' d _ _ Esteps) as (Hs & _ & Hk).
  unfold effs, onSubmit. rewrite Esteps.
  rewrite kinds_then_toast by reflexivity. rewrite (toasts_then _ _ Hs).
  split; [|split; [|split; [apply (Hk _ eq_refl)|reflexivity]]].
  - eexists. apply in_or_app. right. right. left. reflexivity.
  - exists inputs. apply in_or_app. left. right.
    apply in_or_app. right. left. reflexivity.
Qed.

Lemma obliging_echoes : echoes obliging.
Proof.
  split; [|split; [|split]].
  - intros n input. eexists. split; [reflexivity|discriminate].
  - intros n code nm options. eexists. eexists.
    split; [reflexivity|]. split; [reflexivity|]. split; [reflexivity|].
    induction options as [|o os IH]; simpl; constructor; [|exact IH].
    split; [reflexivity|discriminate].
  - intros n p g. eexists. reflexivity.
  - intros n inputs. eexists. reflexivity.
Qed.

Lemma generated_form_submits_witness :
  navigates (onSubmit obliging (generateVariants shirtTwoByTwo) noDetails)
  /\ kinds (onSubmit obliging (generateVariants shirtTwoByTwo) noDetails)
     = [KProduct; KGroup "color"; KAdd; KGroup "size"; KAdd; KVariants].
Proof.
  assert (Hu : uniqueIds shirtTwoByTwo).
  { split; repeat constructor; simpl; intuition discriminate. }
  assert (Hd : distinctCodes shirtTwoByTwo).
  { split; repeat constructor; simpl; intuition discriminate. }
  assert (Hv : Forall (fun g => hasValidOption g = true)
                      (optionGroups shirtTwoByTwo))
    by (repeat constructor).
  destruct (generated_form_submits obliging shirtTwoByTwo noDetails
              obliging_echoes Hu Hd Hv) as (Hn & _ & Hk & _).
  split; [exact Hn|]. rewrite Hk. reflexivity.
Defined.


End ProductSubmitFacts.

(** ** Listing pages: what is displayed *)

Module ListingViewFacts.
Import Ui Js Listing ListingSpec ListingView ListingViewSpec.

Lemma pageCount_bounds (pg : Pagination) (n : Z) :
  (0 < pageSize pg)%Z ->
  ((pageCount pg n - 1) * pageSize pg < n <= pageCount pg n * pageSize pg)%Z.
Proof.
  intros Hs. unfold pageCount.
  pose proof (Z.div_mod (- n) (pageSize pg) ltac:(lia)) as E.
  pose proof (Z.mod_pos_bound (- n) (pageSize pg) Hs) as B.
  nia.
Qed.

Section WithItem.

Context {Item : Type}.


(** X11: the footer of a listing page and its pager agree with the query.
    The first row number shown is the query's [skip] plus one and the last
    is [skip + take] capped by the total.  The page count is the least
    number of pages that hold all the rows.  The page shown is one of them
    exactly when its first row exists; then a page before the last
    announces a full page of rows and the last page ends at the total.
    Past the last page (an empty list included) the footer announces a last
    row below the first. *)
Theorem footer_agrees_with_query (pg : Page Item) (n : Z) :
  (0 < pageSize (pagination pg))%Z ->
  let pn := pagination pg in
  let pages := pageCount pn n in
  (forall doc msg client,
     requests (snd (fetchList doc msg (Some client) pg))
     = [QueryReq doc (optionsOf pn)])
  /\ showingFrom pn = (skip (optionsOf pn) + 1)%Z
  /\ showingTo pn n = Z.min (skip (optionsOf pn) + take (optionsOf pn)) n
  /\ ((pages - 1) * pageSize pn < n <= pages * pageSize pn)%Z
  /\ ((shownPage pn <= pages)%Z <-> (showingFrom pn <= n)%Z)
  /\ ((shownPage pn < pages)%Z ->
      (showingTo pn n - showingFrom pn + 1 = pageSize pn)%Z)
  /\ (shownPage pn = pages ->
      showingTo pn n = n
      /\ (1 <= showingTo pn n - showingFrom pn + 1 <= pageSize pn)%Z)
  /\ ((pages < shownPage pn)%Z -> (showingTo pn n < showingFrom pn)%Z).
Proof.
  intros Hs pn pages.
  pose proof (pageCount_bounds pn n Hs) as B. fold pages in B.
  split; [intros; apply ListingFacts.fetchList_requests|].
  unfold showingFrom, showingTo, shownPage, optionsOf; simpl.
  split; [reflexivity|]. split; [f_equal; lia|]. split; [exact B|].
  repeat split; intros; try nia.
Qed.

(** X12: the pagination of a listing page changes through the pager only.
    A fetch and a deletion leave the page index and the page size as they
    are, whatever the API replies; choosing page [n] in the pager makes [n]
    the page shown and keeps the page size; choosing the page already shown
    does nothing.  A deletion the API confirms is followed by one query for
    the rows of the same page; any other deletion by none. *)
Theorem pagination_changes_by_pager_only
  (apollo : option (Apollo Item)) (client : Apollo Item) (pg : Page Item) :
  (forall doc msg, pagination (fst (fetchList doc msg apollo pg)) = pagination pg)
  /\ (forall id nm,
        pagination (fst (deleteProduct id nm apollo pg)) = pagination pg)
  /\ (forall doc msg shown,
        shownPage (pagination
                     (fst (updatePage (fetchList doc msg) apollo shown pg)))
        = shown
        /\ pageSize (pagination
                       (fst (updatePage (fetchList doc msg) apollo shown pg)))
           = pageSize (pagination pg))
  /\ (forall doc msg,
        updatePage (fetchList doc msg) apollo (shownPage (pagination pg)) pg
        = (pg, []))
  /\ (forall id nm,
        requests (snd (deleteProduct id nm (Some client) pg))
        = if deletionFailed (mutateDelete client id)
          then [DeleteProductReq id]
          else [DeleteProductReq id;
                QueryReq GET_PRODUCTS (optionsOf (pagination pg))])
  /\ (forall id nm, requests (snd (deleteProduct id nm None pg)) = []).
Proof.
  assert (F : forall doc msg a (p : Page Item),
             pagination (fst (fetchList doc msg a p)) = pagination p).
  { intros doc msg a p. unfold fetchList, fetchFailed.
    destruct a as [c|]; [|reflexivity]. simpl.
    destruct (query c doc _); reflexivity. }
  split; [intros; apply F|]. split.
  { intros id nm. unfold deleteProduct.
    destruct apollo as [c|]; [|reflexivity].
    destruct (mutateDelete c id) as [m|[r|]]; try reflexivity.
    destruct (result r =? "DELETED"); [|reflexivity].
    pose proof (F GET_PRODUCTS "Failed to fetch products" (Some c) pg) as E.
    unfold fetchProducts.
    destruct (fetchList GET_PRODUCTS _ (Some c) pg) as [p1 effs]. exact E. }
  split.
  { intros doc msg shown. unfold updatePage, shownPage.
    destruct (Z.eqb_spec (shown - 1) (pageIndex (pagination pg))) as [E|E]; simpl.
    - split; [lia|reflexivity].
    - rewrite F. simpl. split; [lia|reflexivity]. }
  split.
  { intros doc msg. unfold updatePage, shownPage.
    replace (pageIndex (pagination pg) + 1 - 1)%Z
      with (pageIndex (pagination pg)) by lia.
    rewrite Z.eqb_refl. reflexivity. }
  split; [|reflexivity].
  intros id nm. unfold deleteProduct, deletionFailed.
  destruct (mutateDelete client id) as [m|[r|]]; try reflexivity.
  destruct (result r =? "DELETED"); [|reflexivity].
  pose proof (ListingFacts.fetchList_requests GET_PRODUCTS
                "Failed to fetch products" client pg) as E.
  unfold fetchProducts.
  destruct (fetchList GET_PRODUCTS _ (Some client) pg) as [p1 effs].
  simpl in E. simpl. rewrite E. reflexivity.
Qed.


End WithItem.

Lemma footer_agrees_with_query_witness :
  showingFrom (pagination fourthPage) = 31%Z
  /\ showingTo (pagination fourthPage) 35 = 35%Z
  /\ pageCount (pagination fourthPage) 35 = 4%Z
  /\ ((shownPage (pagination fourthPage)
       <= pageCount (pagination fourthPage) 35)%Z
      <-> (showingFrom (pagination fourthPage) <= 35)%Z).
Proof.
  split; [reflexivity|]. split; [reflexivity|]. split; [reflexivity|].
  exact (proj1 (proj2 (proj2 (proj2 (proj2
    (footer_agrees_with_query fourthPage 35 eq_refl)))))).
Defined.


(** *** The label of an order state *)

Lemma filter_trimStartL (l : list ascii) :
  filter (fun c => negb (isSpace c)) (trimStartL l)
  = filter (fun c => negb (isSpace c)) l.
Proof.
  induction l as [|c l IH]; simpl; [reflexivity|].
  destruct (isSpace c) eqn:E; simpl; [exact IH|]. rewrite E. reflexivity.
Qed.

Lemma filter_rev_ascii (f : ascii -> bool) (l : list ascii) :
  filter f (rev l) = rev (filter f l).
Proof.
  induction l as [|c l IH]; simpl; [reflexivity|].
  rewrite filter_app, IH. simpl. destruct (f c); simpl;
    [reflexivity|apply app_nil_r].
Qed.

Lemma filter_trimL (l : list ascii) :
  filter (fun c => negb (isSpace c)) (trimL l)
  = filter (fun c => negb (isSpace c)) l.
Proof.
  unfold trimL.
  rewrite filter_rev_ascii, filter_trimStartL, filter_rev_ascii,
    rev_involutive, filter_trimStartL.
  reflexivity.
Qed.

Lemma isAsciiUpper_not_space (c : ascii) :
  isAsciiUpper c = true -> isSpace c = false.
Proof. destruct c as [[] [] [] [] [] [] [] []]; vm_compute; congruence. Qed.

Lemma filter_spaceBeforeCapitalsL (l : list ascii) :
  Forall (fun c => isSpace c = false) l ->
  filter (fun c => negb (isSpace c)) (spaceBeforeCapitalsL l) = l.
Proof.
  induction 1 as [|c l Hc _ IH]; simpl; [reflexivity|].
  destruct (isAsciiUpper c); simpl; rewrite Hc; simpl; rewrite IH; reflexivity.
Qed.

Lemma spaceBeforeCapitalsL_noCapital (l : list ascii) :
  Forall (fun c => isAsciiUpper c = false) l -> spaceBeforeCapitalsL l = l.
Proof.
  induction 1 as [|c l Hc _ IH]; simpl; [reflexivity|].
  rewrite Hc. simpl. rewrite IH. reflexivity.
Qed.

(** X14: the label of an order state differs from the state by spaces only.
    For a state without white space, the label without its spaces is the
    state again; a state without a capital A-Z is its own label; and the
    label of any state has no white space at its ends. *)
Theorem formatOrderState_adds_spaces_only :
  (forall state, noSpace state ->
     withoutSpaces (formatOrderState state) = list_ascii_of_string state)
  /\ (forall state, noSpace state -> noCapital state ->
        formatOrderState state = state)
  /\ (forall state, trim (formatOrderState state) = formatOrderState state).
Proof.
  split; [|split].
  - intros state H. unfold withoutSpaces, formatOrderState, trim, onChars.
    rewrite !list_ascii_of_string_of_list_ascii.
    rewrite filter_trimL. apply filter_spaceBeforeCapitalsL, H.
  - intros state Hs Hc. unfold formatOrderState, trim, onChars.
    rewrite list_ascii_of_string_of_list_ascii.
    rewrite (spaceBeforeCapitalsL_noCapital _ Hc), (SlugFacts.trimL_noSpace _ Hs).
    apply string_of_list_ascii_of_string.
  - intros state. unfold formatOrderState.
    apply ProductOptionsFacts.trim_idempotent.
Qed.

Lemma formatOrderState_adds_spaces_only_witness :
  formatOrderState "ArrangingPayment" = "Arranging Payment"
  /\ withoutSpaces (formatOrderState "ArrangingPayment")
     = list_ascii_of_string "ArrangingPayment".
Proof.
  split; [reflexivity|].
  apply (proj1 formatOrderState_adds_spaces_only).
  unfold noSpace. simpl. repeat constructor.
Defined.

End ListingViewFacts.

(** ** Attribute form: submission *)

Module FacetSubmitFacts.
Import Ui Js FacetForm FacetSubmit FacetSubmitSpec.

Lemma valueCode_slugChars (value : string) : slugChars (valueCode value).
Proof.
  unfold slugChars, valueCode, replaceOutside, onChars.
  rewrite list_ascii_of_string_of_list_ascii.
  unfold replaceOutsideL. apply Forall_map, Forall_forall. intros c _.
  unfold isSlugChar, isLowerAlnum.
  destruct (isLower c) eqn:El; simpl; [rewrite El; reflexivity|].
  destruct (isDigit c) eqn:Ed; simpl; [rewrite El, Ed|]; reflexivity.
Qed.

(** X15: submitting the attribute form.  Without a value [$apollo.mutate]
    is not called and the error toast asks for a value.  Otherwise it is
    called exactly once, with an input that holds the code, the name and
    the privacy flag of the form and one entry per value, in order, named
    after the value; the code of an entry has only the characters a-z, 0-9
    and hyphen.  One toast is shown in every case, and the page navigates to
    the attribute list exactly when the call resolves with an attribute
    that has an id; whatever else the call does, rejection included, ends
    in the error toast. *)
Theorem facet_submission (apollo : Apollo) (f : FormData) :
  let effs := onSubmit apollo f in
  (exists t, facetToasts effs = [t])
  /\ (values f = [] ->
      effs = [ShowToast (mkToast "Error"
                "Please add at least one attribute value" "error")])
  /\ (values f <> [] ->
      exists input,
        sent effs = [input]
        /\ fi_code input = code f /\ fi_name input = name f
        /\ fi_isPrivate input = isPrivate f
        /\ map val_name (fi_values input) = values f
        /\ Forall (fun v => slugChars (val_code v)) (fi_values input)
        /\ paths effs
           = if created (apollo input) then ["/products/attributes"] else []).
Proof.
  intros effs. subst effs. unfold onSubmit.
  destruct (values f) as [|v vs] eqn:Ev.
  - split; [eexists; reflexivity|]. split; [reflexivity|congruence].
  - set (input := mkFacetInput _ _ _ _).
    assert (Hin : fi_code input = code f /\ fi_name input = name f
                  /\ fi_isPrivate input = isPrivate f
                  /\ map val_name (fi_values input) = v :: vs
                  /\ Forall (fun v => slugChars (val_code v))
                            (fi_values input)).
    { subst input. cbn [fi_code fi_name fi_isPrivate fi_values].
      split; [reflexivity|]. split; [reflexivity|]. split; [reflexivity|].
      rewrite <- Ev. split.
      - rewrite map_map. simpl. apply map_id.
      - apply Forall_map, Forall_forall. intros x _. simpl.
        apply valueCode_slugChars. }
    destruct Hin as (H1 & H2 & H3 & H4 & H5).
    unfold created.
    destruct (apollo input) as [e|[c|]] eqn:Ea; simpl.
    + split; [eexists; reflexivity|]. split; [discriminate|].
      intros _. exists input. rewrite Ea. auto 10.
    + destruct (truthy (facet_id c)) eqn:Et; simpl;
        (split; [eexists; reflexivity|]); (split; [discriminate|]);
        intros _; exists input; rewrite Ea, Et; auto 10.
    + split; [eexists; reflexivity|]. split; [discriminate|].
      intros _. exists input. rewrite Ea. auto 10.
Qed.

Lemma facet_submission_witness :
  sent (onSubmit creating sizeForm)
  = [mkFacetInput "size" false "Size"
       [mkValueInput "extra-large" "Extra Large"; mkValueInput "s" "S"]]
  /\ exists input,
       sent (onSubmit creating sizeForm) = [input]
       /\ paths (onSubmit creating sizeForm)
          = if created (creating input) then ["/products/attributes"] else [].
Proof.
  split; [reflexivity|].
  destruct (proj2 (proj2 (facet_submission creating sizeForm)))
    as (input & H1 & _ & _ & _ & _ & _ & H2); [discriminate|].
  exists input. split; [exact H1|exact H2].
Defined.

End FacetSubmitFacts.

(** ** Order-creation page: sessions *)

Module OrderSessionFacts.
Import Ui Js OrderCreate OrderCreateSpec OrderSessionSpec OrderCreateFacts.




(** X17: every mutation but the creation of the draft order is about the
    order the page holds: its first variable is the id of that order.  The
    creation is sent at mount only, and nothing else is. *)
Theorem mutations_are_about_held_order
  (apollo : Apollo) (e : Event) (p : Page) (m : Mutation) :
  In m (mutations (snd (handle apollo e p))) ->
  (e = Mounted /\ m = CREATE_DRAFT_ORDER)
  \/ (e <> Mounted
      /\ exists o, draftOrder p = Some (IsOrder o)
                   /\ orderIdOf m = Some (o_id o)).
Proof.
  destruct e; unfold_handlers; unfold draftOrderId; simpl;
    destruct (draftOrder p) as [[o|? ?]|]; split_tests; simpl;
    intros Hin;
    repeat match goal with
    | H : _ \/ _ |- _ => destruct H
    | H : False |- _ => destruct H
    end;
    repeat match goal with
    | H : (if ?b then _ else _) = _ |- _ =>
        destruct b; try discriminate H; injection H as H
    end;
    subst; try discriminate;
    try (left; split; reflexivity);
    try (right; split; [discriminate|]; eexists; split; [reflexivity|];
         simpl; congruence).
Qed.

Lemma mutations_are_about_held_order_witness :
  exists o, draftOrder (pageHolding (order7 [])) = Some (IsOrder o)
            /\ orderIdOf (REMOVE_DRAFT_ORDER_LINE "7" "l1") = Some (o_id o).
Proof.
  destruct (mutations_are_about_held_order (answering (order7 []))
              (ClickRemoveLine "l1") (pageHolding (order7 []))
              (REMOVE_DRAFT_ORDER_LINE "7" "l1")) as [[H _]|[_ H]].
  - simpl. left. reflexivity.
  - discriminate H.
  - exact H.
Defined.

Lemma truthy_false (s : string) : truthy s = false -> s = "".
Proof. destruct s; [reflexivity|discriminate]. Qed.

Lemma truthy_true (s : string) : truthy s = true -> s <> "".
Proof. destruct s; [discriminate|]. intros _. discriminate. Qed.

(** X18: the required fields of the three forms.  A customer form that
    lacks the first name, the last name or the e-mail address, and an
    address form that lacks the full name, the first street line, the city,
    the province, the postal code or the country code, is not sent: the page
    stays as it is, and when it holds an order with an id the validation
    toast is all that happens.  A form that has them is sent as it is, for
    that order, whatever its other fields hold. *)
Theorem incomplete_form_is_not_sent (apollo : Apollo) (p : Page) :
  (customerComplete (customerForm p) = false ->
   fst (saveCustomer apollo p) = p
   /\ requestsOf (snd (saveCustomer apollo p)) = []
   /\ (draftOrderId p <> None ->
       snd (saveCustomer apollo p) = [ShowToast validationToast]))
  /\ (addressComplete (shippingForm p) = false ->
      fst (saveShippingAddress apollo p) = p
      /\ requestsOf (snd (saveShippingAddress apollo p)) = []
      /\ (draftOrderId p <> None ->
          snd (saveShippingAddress apollo p) = [ShowToast validationToast]))
  /\ (addressComplete (billingForm p) = false ->
      fst (saveBillingAddress apollo p) = p
      /\ requestsOf (snd (saveBillingAddress apollo p)) = []
      /\ (draftOrderId p <> None ->
          snd (saveBillingAddress apollo p) = [ShowToast validationToast]))
  /\ (forall id, draftOrderId p = Some id ->
        (customerComplete (customerForm p) = true ->
         requestsOf (snd (saveCustomer apollo p))
         = [MutateReq (SET_DRAFT_ORDER_CUSTOMER id (customerForm p))])
        /\ (addressComplete (shippingForm p) = true ->
            requestsOf (snd (saveShippingAddress apollo p))
            = [MutateReq (SET_DRAFT_ORDER_SHIPPING_ADDRESS id (shippingForm p))])
        /\ (addressComplete (billingForm p) = true ->
            requestsOf (snd (saveBillingAddress apollo p))
            = [MutateReq (SET_DRAFT_ORDER_BILLING_ADDRESS id (billingForm p))])).
Proof.
  assert (A : forall a, addressIncomplete a = negb (addressComplete a)).
  { intros a. unfold addressIncomplete, addressComplete.
    destruct (truthy (fullName a)), (truthy (streetLine1 a)), (truthy (city a)),
      (truthy (province a)), (truthy (postalCode a)), (truthy (countryCode a));
      reflexivity. }
  assert (C : forall c,
             negb (truthy (firstName c)) || negb (truthy (lastName c))
             || negb (truthy (emailAddress c))
             = negb (customerComplete c)).
  { intros c. unfold customerComplete.
    destruct (truthy (firstName c)), (truthy (lastName c)),
      (truthy (emailAddress c)); reflexivity. }
  unfold saveCustomer, saveShippingAddress, saveBillingAddress.
  rewrite !A, C.
  split; [|split; [|split]].
  - intros ->. simpl. destruct (draftOrderId p); simpl; auto.
    repeat split; congruence.
  - intros ->. simpl. destruct (draftOrderId p); simpl; auto.
    repeat split; congruence.
  - intros ->. simpl. destruct (draftOrderId p); simpl; auto.
    repeat split; congruence.
  - intros id ->. repeat split; intros ->; simpl;
      match goal with
      | |- context [mutate apollo ?m] => destruct (mutate apollo m)
      end; reflexivity.
Qed.

Lemma incomplete_form_is_not_sent_witness :
  requestsOf (snd (saveCustomer (answering (order7 []))
                     (pageHolding (order7 [])))) = []
  /\ snd (saveCustomer (answering (order7 [])) (pageHolding (order7 [])))
     = [ShowToast validationToast].
Proof.
  destruct (proj1 (incomplete_form_is_not_sent (answering (order7 []))
                     (pageHolding (order7 []))) eq_refl) as (_ & H1 & H2).
  split; [exact H1|]. apply H2. discriminate.
Defined.

(** X19: what one event can do.  It sends at most one request and shows at
    most one toast.  A success toast is shown exactly when a mutation was
    sent and its reply resolved, where at mount the reply must also hold an
    order with an id.  The page navigates only to the order list, on Cancel
    or after the success toast of "Complete Order".  And a page that is not
    loading before the event is not loading after it. *)
Theorem event_effects_bounded (apollo : Apollo) (e : Event) (p : Page) :
  let p' := fst (handle apollo e p) in
  let effs := snd (handle apollo e p) in
  (List.length (requestsOf effs) <= 1)%nat
  /\ (List.length (toastsOf effs) <= 1)%nat
  /\ ((exists t, In t (toastsOf effs) /\ color t = "success")
      <-> exists m d,
            requestsOf effs = [MutateReq m]
            /\ mutate apollo m = Resolved d
            /\ (m = CREATE_DRAFT_ORDER ->
                exists o, d = Some (IsOrder o) /\ o_id o <> ""))
  /\ (forall path, In path (pathsOf effs) ->
        path = "/orders"
        /\ (e = ClickCancel
            \/ (e = ClickCompleteOrder
                /\ exists t, In t (toastsOf effs) /\ color t = "success")))
  /\ (loading p = false -> loading p' = false)
  /\ (productsLoading p = false -> productsLoading p' = false).
Proof.
  intros p' effs. subst p' effs.
  split; [|split; [|split; [split|split; [|split]]]].
  - destruct e; unfold_handlers; split_tests; simpl; lia.
  - destruct e; unfold_handlers; split_tests; simpl; lia.
  - destruct e; unfold_handlers; split_tests;
      intros (t & Hin & Hc); simpl in Hin;
      repeat match goal with
      | H : _ \/ _ |- _ => destruct H
      | H : False |- _ => destruct H
      end; subst; simpl in Hc; try discriminate Hc;
      eexists; eexists; (split; [reflexivity|]); (split; [eassumption|]);
      intros; try discriminate; eexists; (split; [reflexivity|]);
      apply truthy_true; assumption.
  - destruct e; unfold_handlers; split_tests;
      intros (m & d & Hm & Hd & Ho); simpl in Hm;
      try discriminate Hm; injection Hm as <-;
      try (eexists; split; [left; reflexivity|reflexivity]);
      try (rewrite Hd in *; discriminate);
      destruct (Ho eq_refl) as (o' & Eo & Hne);
      match goal with
      | H : mutate _ _ = Resolved _ |- _ =>
          rewrite H in Hd; injection Hd as Hd; subst d
      end;
      try discriminate Eo; injection Eo as Eo; subst;
      match goal with
      | H : truthy _ = false |- _ => apply truthy_false in H
      end; congruence.
  - destruct e; unfold_handlers; split_tests;
      intros path Hin; simpl in Hin;
      repeat match goal with
      | H : _ \/ _ |- _ => destruct H
      | H : False |- _ => destruct H
      end; subst; (split; [reflexivity|]);
      try (left; reflexivity);
      right; (split; [reflexivity|]); eexists;
      (split; [left; reflexivity|reflexivity]).
  - destruct e; unfold_handlers; split_tests; intros H;
      reflexivity || exact H.
  - destruct e; unfold_handlers; split_tests; intros H;
      reflexivity || exact H.
Qed.

Lemma event_effects_bounded_witness :
  pathsOf (snd (handle (answering (order7 [])) ClickCompleteOrder
                  (pageHolding (order7 [])))) = ["/orders"]
  /\ exists t,
       In t (toastsOf (snd (handle (answering (order7 [])) ClickCompleteOrder
                              (pageHolding (order7 [])))))
       /\ color t = "success".
Proof.
  split; [reflexivity|].
  destruct (proj1 (proj2 (proj2 (proj2
              (event_effects_bounded (answering (order7 []))
                 ClickCompleteOrder (pageHolding (order7 []))))))
              "/orders") as [_ [H|[_ H]]].
  - left. reflexivity.
  - discriminate H.
  - exact H.
Defined.

(** X20: what the page holds as its draft order changes only when a
    mutation of the event was sent and resolved, and then it is exactly the
    content of that reply; the reply to the transition of "Complete Order"
    is never stored. *)
Theorem draft_order_comes_from_reply (apollo : Apollo) (e : Event) (p : Page) :
  draftOrder (fst (handle apollo e p)) <> draftOrder p ->
  exists m,
    requestsOf (snd (handle apollo e p)) = [MutateReq m]
    /\ mutate apollo m = Resolved (draftOrder (fst (handle apollo e p)))
    /\ forall id state, m <> TRANSITION_ORDER_TO_STATE id state.
Proof.
  destruct e; unfold_handlers; split_tests; intros H;
    try congruence; try (exfalso; apply H; reflexivity);
    eexists; (split; [reflexivity|]); (split; [eassumption|]);
    intros; discriminate.
Qed.

Lemma draft_order_comes_from_reply_witness :
  exists m,
    requestsOf (snd (handle (answering (order7 [mugLine]))
                       (ClickVariant "v1" "Mug") (pageHolding (order7 []))))
    = [MutateReq m]
    /\ mutate (answering (order7 [mugLine])) m
       = Resolved (Some (IsOrder (order7 [mugLine]))).
Proof.
  destruct (draft_order_comes_from_reply (answering (order7 [mugLine]))
              (ClickVariant "v1" "Mug") (pageHolding (order7 [])))
    as (m & H1 & H2 & _).
  - discriminate.
  - exists m. split; [exact H1|exact H2].
Defined.

End OrderSessionFacts.

(** ** Order-creation page: additions in flight *)

Module AddItemInFlightFacts.
Import Ui Js OrderCreate OrderCreateSpec OrderSessionSpec.
Import AddItemInFlight AddItemInFlightSpec.

(** The handler run to completion is its first part followed at once by its
    second part. *)
Lemma addItemToOrder_click_resume (v n : string) (apollo : Apollo) (p : Page) :
  addItemToOrder v n apollo p
  = match addItemToOrder_click v n p with
    | (effs, None) => (p, effs)
    | (effs, Some s) =>
        (fst (addItemToOrder_resume s (mutate apollo (s_request s)) p),
         effs ++ snd (addItemToOrder_resume s (mutate apollo (s_request s)) p))
    end.
Proof.
  unfold addItemToOrder, addItemToOrder_click, addItemToOrder_resume.
  destruct (draftOrderId p) as [orderId|]; [|reflexivity].
  destruct (isVariantInOrder v p); [reflexivity|]. simpl.
  destruct (mutate apollo _); reflexivity.
Qed.




End AddItemInFlightFacts.
